(** * coin-payments: UTXO transaction planner, broadcast shim and
      Ripple balance-activity classifier

    A shallow embedding of

    - [BitcoinishPayments.ts]: [estimateTxSize], [feeRateToSatoshis],
      [estimateTxFee], [determineTargetChangeOutputCount],
      [selectInputUtxos], [createWeightedChangeOutputs], [buildPaymentTx]
      and [broadcastTransaction];
    - [RippleBalanceMonitor.js]: [resolveFromToLedgers],
      [paymentToBalanceActivities] and [retrieveBalanceActivities].

    Conventions of the embedding.

    - A JavaScript number that holds a base-unit amount, a count or a
      ledger version is a [Z]; the arithmetic on them is exact (as it is
      for doubles below 2^53).  A number that need not be an integer is
      the rational ([Q]) it denotes.
    - A fee rate is carried as the number its decimal string denotes.
      [Number.parseFloat] and the product with the transaction size
      round to the nearest double, ties to even ([roundDouble]); a
      product of 2^1024 or more, [Infinity] in the source, is outside
      the model.  The quotients of two integers that the source forms
      before [Math.ceil] or [Math.floor] are exact rationals: for
      integers below 2^47 the rounded quotient has the same ceiling
      and floor.
    - Code that throws returns [Throw e]; code that returns gives [Ok v].
      Where the source would go on with [NaN] amounts (a division by a
      zero count), the model stops with [Throw NotANumber]: no plan in
      base units comes out of such a run.
    - The plan keeps the base-unit integer of every amount; the source
      formats each of them with [toMainDenominationString] on return.
    - The parts of the classes that are abstract or live in modules
      outside these sources are parameters of the model; the examples
      instantiate them in [Bitcoinish.Fixture].

    The definitions come first, the properties after them. *)

From Stdlib Require Import ZArith QArith Qround Qpower List Bool Lia Lqa.
From Stdlib Require Import Floats.SpecFloat.
From Stdlib Require Import Strings.String Strings.Ascii.
From Stdlib Require Import Numbers.DecimalString Numbers.DecimalPos.
From Stdlib Require Import Sorting.Sorted.
From stdpp Require Import gmap strings.

Import ListNotations.
Local Open Scope Z_scope.

(** ** Results of code that may throw *)

Inductive result (E A : Type) : Type :=
| Ok (a : A)
| Throw (e : E).

Arguments Ok {E A} a.
Arguments Throw {E A} e.

Definition bind {E A B} (m : result E A) (k : A -> result E B) : result E B :=
  match m with
  | Ok a => k a
  | Throw e => Throw e
  end.

Notation "'let*' x ':=' m 'in' k" := (bind m (fun x => k))
  (at level 10, x pattern, m at level 100, k at level 200).

(** Sum of a list of integers, as the running totals of the source. *)
Definition sumZ (l : list Z) : Z := fold_right Z.add 0 l.

(** ** Numbers that are not integers

    A JavaScript number is an IEEE 754 binary64 value.  [roundDouble x]
    is the double nearest to the rational [x], ties to the even
    mantissa: the value of [Number.parseFloat] on a decimal string that
    denotes [x], and of an arithmetic operation whose exact result is
    [x].  Doubles have a mantissa of 53 bits and exponents from -1074;
    the upper end of the exponent range is left out. *)

(** [t] rounded to the nearest integer, a tie to the even one. *)
Definition roundHalfEven (t : Q) : Z :=
  let f := Qfloor t in
  match Qcompare (t - inject_Z f) (1 # 2) with
  | Lt => f
  | Gt => f + 1
  | Eq => if Z.even f then f else f + 1
  end.

(** [floor (log2 x)] for [0 < x]. *)
Definition floorLog2 (x : Q) : Z :=
  let k := Z.log2 (Qnum x) - Z.log2 (Zpos (Qden x)) in
  if Qle_bool (2 ^ k) x then k else k - 1.

(** The double nearest to [0 < x]: a multiple of [2^e], where [e] is
    the exponent of the last of 53 bits and at least -1074. *)
Definition roundPositive (x : Q) : Q :=
  let e := Z.max (floorLog2 x - 52) (-1074) in
  Qred (inject_Z (roundHalfEven (x * 2 ^ (- e))) * 2 ^ e).

Definition roundDouble (x : Q) : Q :=
  match Qcompare x 0 with
  | Eq => 0
  | Gt => roundPositive x
  | Lt => - roundPositive (- x)
  end.

(** The number a finite value of the Standard Library's specification
    of IEEE 754 stands for, to compare [roundDouble] with it. *)
Definition valueOfFloat (f : spec_float) : option Q :=
  match f with
  | S754_zero _ => Some 0%Q
  | S754_finite s m e =>
      Some ((if s then - inject_Z (Zpos m) else inject_Z (Zpos m)) * 2 ^ e)%Q
  | _ => None
  end.

(** A value thrown by an injected server or node; [message] is [None]
    when [e.message] is undefined. *)
Record JsError := { errorName : string; message : option string }.

(** What [this.logger] receives: [log] and [warn]. *)
Inductive LogEntry :=
| LogInfo (text : string)
| LogWarn (text : string).

(** ** The UTXO planner of [BitcoinishPayments] *)

Module Bitcoinish.

Inductive FeeRateType := BasePerWeight | Base | Main.

(** [feeRate] is the value of the decimal string of the source. *)
Record FeeRate := { feeRate : Q; feeRateType : FeeRateType }.

Record UtxoInfo := {
  txid : string;
  vout : Z;
  value : string;            (* main denomination *)
  satoshis : option Z;       (* [None] when undefined *)
  height : option string;
}.

(** A candidate after the conversion loop of [selectInputUtxos]:
    [{...utxo, satoshis}]. *)
Record InputUtxo := { utxoInfo : UtxoInfo; inputSat : Z }.

(** [BitcoinishTxOutput]: value as a main-denomination string. *)
Record TxOutput := { address : string; outValue : string }.

(** [BitcoinishTxOutputSatoshis]. *)
Record TxOutputSatoshis := { satAddress : string; outSat : Z }.

Record WeightedChangeOutput := { changeTo : string; weight : Z }.

Record Config := {
  decimals : Z;
  minTxFee : option FeeRate;
  dustThreshold : Z;
  networkMinRelayFee : Z;
  targetUtxoPoolSize : Z;
  minChangeSat : Z;
}.

Inductive BuildError :=
| InvalidOutputAddress (i : nat) (a : string)
| InvalidOutputValue (i : nat) (a : string)
| NonPositiveOutputValue (i : nat) (a : string)
| InvalidChangeAddress (a : string)
| InvalidUtxoValue (u : UtxoInfo)
| DustOutput (i : nat) (sat feeShare : Z)
| InsufficientFunds (inputTotal externalOutputTotal feeSat : Z)
| NegativeTotalChange
| NegativeLooseChange
| NotANumber.

(** What the insufficient-funds message reports. *)
Definition requiredAmount (e : BuildError) : option Z :=
  match e with
  | InsufficientFunds _ ext fee => Some (ext + fee)
  | _ => None
  end.

Definition availableAmount (e : BuildError) : option Z :=
  match e with
  | InsufficientFunds inputTotal _ _ => Some inputTotal
  | _ => None
  end.

(** The two errors of [buildPaymentTx] that its messages call
    impossible. *)
Definition assertionError (e : BuildError) : bool :=
  match e with
  | NegativeTotalChange | NegativeLooseChange => true
  | _ => false
  end.

Record Selection := {
  selectedUtxos : list InputUtxo;
  selectedTotalSat : Z;
  selFeeSat : Z;
}.

(** [BitcoinishPaymentTx], amounts in base units. *)
Record PaymentTx := {
  inputs : list InputUtxo;
  outputs : list TxOutputSatoshis;
  fee : Z;
  change : Z;
  changeAddress : option string;
  changeOutputs : list TxOutputSatoshis;
  externalOutputs : list TxOutputSatoshis;
  externalOutputTotal : Z;
  rawHex : string;
  rawHash : string;
}.

Definition sumInputs (l : list InputUtxo) : Z := sumZ (map inputSat l).
Definition sumOutputs (l : list TxOutputSatoshis) : Z := sumZ (map outSat l).

Definition count {A} (l : list A) : Z := Z.of_nat (List.length l).

(** [a < b] and [a > b] on the rationals of the source. *)
Definition Qltb (a b : Q) : bool := negb (Qle_bool b a).

Section Planner.

(** The coin-specific parts that [BitcoinishPayments] leaves abstract or
    imports from modules outside this file. *)

(** Abstract method [isValidAddress]. *)
Variable isValidAddress : string -> bool.

(** [toBaseDenominationNumber] of the unit converters: the base-unit
    number of a main-denomination string; [None] when the string is not
    a number and the conversion fails. *)
Variable toBaseDenominationNumber : string -> option Z.

(** [isConfirmedUtxo] and [sortUtxos] of [./utils]. *)
Variable isConfirmedUtxo : UtxoInfo -> bool.
Variable sortUtxos : list InputUtxo -> list InputUtxo.

Variable cfg : Config.

Definition estimateTxSize (inputCount changeOutputCount : Z)
    (externalOutputAddresses : list string) : Z :=
  10 + 148 * inputCount + 34 * (changeOutputCount + count externalOutputAddresses).

(** Modelled from the spec: [toBaseDenominationNumber] applied to a fee
    rate of type [Main] is missing from the sources; section 4.4 gives it
    as [rate * 10^decimals], here as the JavaScript number nearest to
    it. *)
Definition mainRateToBase (rate : Q) : Q :=
  roundDouble (rate * inject_Z (10 ^ decimals cfg)).

(** [Number.parseFloat(feeRate)] *)
Definition parseFloat (rate : Q) : Q := roundDouble rate.

(** The product of line 198 is a product of doubles. *)
Definition feeRateToSatoshis (r : FeeRate) (inputCount changeOutputCount : Z)
    (externalOutputAddresses : list string) : Q :=
  match feeRateType r with
  | BasePerWeight =>
      roundDouble
        (parseFloat (feeRate r) *
         inject_Z (estimateTxSize inputCount changeOutputCount externalOutputAddresses))
  | Main => mainRateToBase (feeRate r)
  | Base => parseFloat (feeRate r)
  end.

Definition estimateTxFee (targetRate : FeeRate) (inputCount changeOutputCount : Z)
    (externalOutputAddresses : list string) : Z :=
  let feeSat :=
    feeRateToSatoshis targetRate inputCount changeOutputCount externalOutputAddresses in
  let feeSat :=
    match minTxFee cfg with
    | Some m =>
        let minTxFeeSat :=
          feeRateToSatoshis m inputCount changeOutputCount externalOutputAddresses in
        if Qltb feeSat minTxFeeSat then minTxFeeSat else feeSat
    | None => feeSat
    end in
  let feeSat :=
    if Qltb feeSat (inject_Z (networkMinRelayFee cfg))
    then inject_Z (networkMinRelayFee cfg) else feeSat in
  Qceiling feeSat.

Definition determineTargetChangeOutputCount (unusedUtxoCount inputUtxoCount : Z) : Z :=
  let remainingUtxoCount := unusedUtxoCount - inputUtxoCount in
  if remainingUtxoCount <? targetUtxoPoolSize cfg
  then targetUtxoPoolSize cfg - remainingUtxoCount
  else 1.

(** The base-unit value the conversion loop gives a utxo. *)
Definition utxoSatoshis (utxo : UtxoInfo) : option Z :=
  match satoshis utxo with
  | None => toBaseDenominationNumber (value utxo)
  | Some s => Some s
  end.

(** The conversion loop at the head of [selectInputUtxos]. *)
Fixpoint convertUtxos (useUnconfirmedUtxos : bool) (unusedUtxos : list UtxoInfo)
    : result BuildError (list InputUtxo) :=
  match unusedUtxos with
  | [] => Ok []
  | utxo :: rest =>
      if negb useUnconfirmedUtxos && negb (isConfirmedUtxo utxo)
      then convertUtxos useUnconfirmedUtxos rest
      else
        match utxoSatoshis utxo with
        | None => Throw (InvalidUtxoValue utxo)
        | Some s =>
            let* utxos := convertUtxos useUnconfirmedUtxos rest in
            Ok ({| utxoInfo := utxo; inputSat := s |} :: utxos)
        end
  end.

(** First utxo of the ideal window, in the order given. *)
Fixpoint findIdeal (idealSolutionMinSat idealSolutionMaxSat : Z)
    (utxos : list InputUtxo) : option InputUtxo :=
  match utxos with
  | [] => None
  | utxo :: rest =>
      if (inputSat utxo >=? idealSolutionMinSat) && (inputSat utxo <=? idealSolutionMaxSat)
      then Some utxo
      else findIdeal idealSolutionMinSat idealSolutionMaxSat rest
  end.

(** The incremental loop: [sel] is the state before the next utxo. *)
Fixpoint accumulate (unusedCount outputTotal : Z) (outputAddresses : list string)
    (rate : FeeRate) (sortedUtxos : list InputUtxo) (sel : Selection) : Selection :=
  match sortedUtxos with
  | [] => sel
  | utxo :: rest =>
      let selected := selectedUtxos sel ++ [utxo] in
      let total := selectedTotalSat sel + inputSat utxo in
      let targetChangeOutputCount :=
        determineTargetChangeOutputCount unusedCount (count selected) in
      let feeSat :=
        estimateTxFee rate (count selected) targetChangeOutputCount outputAddresses in
      let sel' := {| selectedUtxos := selected; selectedTotalSat := total;
                     selFeeSat := feeSat |} in
      if total >=? outputTotal + feeSat then sel'
      else accumulate unusedCount outputTotal outputAddresses rate rest sel'
  end.

Definition selectInputUtxos (unusedUtxos : list UtxoInfo) (outputTotal : Z)
    (outputAddresses : list string) (rate : FeeRate)
    (useAllUtxos useUnconfirmedUtxos : bool) : result BuildError Selection :=
  let* utxos := convertUtxos useUnconfirmedUtxos unusedUtxos in
  let utxosTotalSat := sumInputs utxos in
  if useAllUtxos then
    Ok {| selectedUtxos := utxos;
          selectedTotalSat := utxosTotalSat;
          selFeeSat := estimateTxFee rate (count utxos) 0 outputAddresses |}
  else
    let idealSolutionFeeSat := estimateTxFee rate 1 0 outputAddresses in
    let idealSolutionMinSat := outputTotal + idealSolutionFeeSat in
    let idealSolutionMaxSat := idealSolutionMinSat + dustThreshold cfg in
    match findIdeal idealSolutionMinSat idealSolutionMaxSat utxos with
    | Some utxo =>
        Ok {| selectedUtxos := [utxo];
              selectedTotalSat := inputSat utxo;
              selFeeSat := idealSolutionFeeSat |}
    | None =>
        Ok (accumulate (count unusedUtxos) outputTotal outputAddresses rate
              (sortUtxos utxos)
              {| selectedUtxos := []; selectedTotalSat := 0; selFeeSat := 0 |})
    end.

(** The validation loop over [desiredOutputs]; [i] is the loop index. *)
Fixpoint validateOutputs (i : nat) (desiredOutputs : list TxOutput)
    : result BuildError (list TxOutputSatoshis) :=
  match desiredOutputs with
  | [] => Ok []
  | o :: rest =>
      if negb (isValidAddress (address o)) then Throw (InvalidOutputAddress i (address o))
      else
        match toBaseDenominationNumber (outValue o) with
        | None => Throw (InvalidOutputValue i (address o))
        | Some sat =>
            if sat <=? 0 then Throw (NonPositiveOutputValue i (address o))
            else
              let* externalOutputs := validateOutputs (S i) rest in
              Ok ({| satAddress := address o; outSat := sat |} :: externalOutputs)
        end
  end.

(** The loop of the sweeping branch: subtract [feeShare] from each
    output in turn, throwing at the first one left at or under dust. *)
Fixpoint subtractFeeShare (i : nat) (feeShare : Z) (externalOutputs : list TxOutputSatoshis)
    : result BuildError (list TxOutputSatoshis) :=
  match externalOutputs with
  | [] => Ok []
  | o :: rest =>
      let sat := outSat o - feeShare in
      if sat <=? dustThreshold cfg then Throw (DustOutput i sat feeShare)
      else
        let* rest' := subtractFeeShare (S i) feeShare rest in
        Ok ({| satAddress := satAddress o; outSat := sat |} :: rest')
  end.

(** "Account for insufficient inputs and sweeping cases": the outputs,
    their total and the fee after the block.  With no external output
    the source divides by zero, the fee becomes [NaN] and every amount
    of the plan with it; no plan in base units comes out of that
    ([toMainDenominationString] refuses [NaN]), which is [NotANumber]
    here. *)
Definition accountForSweep (externalOutputs : list TxOutputSatoshis)
    (externalOutputTotal inputTotal feeSat : Z)
    : result BuildError (list TxOutputSatoshis * Z * Z) :=
  if externalOutputTotal + feeSat >? inputTotal then
    if externalOutputTotal =? inputTotal then
      if count externalOutputs =? 0 then Throw NotANumber
      else
        let feeShare := Qceiling (inject_Z feeSat / inject_Z (count externalOutputs)) in
        let feeSat' := feeShare * count externalOutputs in
        let* outs := subtractFeeShare 0 feeShare externalOutputs in
        Ok (outs, externalOutputTotal - feeSat', feeSat')
    else Throw (InsufficientFunds inputTotal externalOutputTotal feeSat)
  else Ok (externalOutputs, externalOutputTotal, feeSat).

Definition createWeightedChangeOutputs (changeOutputCount : Z) (changeAddress : string)
    : list WeightedChangeOutput :=
  map (fun i => {| changeTo := changeAddress; weight := 2 ^ Z.of_nat i |})
      (seq 0 (Z.to_nat changeOutputCount)).

(** [Math.floor(totalChangeSat * (weight / totalChangeWeight))]. *)
Definition changeShare (totalChangeSat weight totalChangeWeight : Z) : Z :=
  Qfloor (inject_Z totalChangeSat * (inject_Z weight / inject_Z totalChangeWeight)).

(** The loop over [changeOutputWeights]: the change outputs kept. *)
Fixpoint allocateChange (totalChangeSat totalChangeWeight : Z)
    (changeOutputWeights : list WeightedChangeOutput) : list TxOutputSatoshis :=
  match changeOutputWeights with
  | [] => []
  | w :: rest =>
      let changeSat := changeShare totalChangeSat (weight w) totalChangeWeight in
      if (changeSat <=? dustThreshold cfg) || (changeSat <? minChangeSat cfg)
      then allocateChange totalChangeSat totalChangeWeight rest
      else {| satAddress := changeTo w; outSat := changeSat |}
             :: allocateChange totalChangeSat totalChangeWeight rest
  end.

Definition addSat (extra : Z) (o : TxOutputSatoshis) : TxOutputSatoshis :=
  {| satAddress := satAddress o; outSat := outSat o + extra |}.

(** [changeOutputs.length || 1]. *)
Definition lengthOr1 {A} (l : list A) : Z :=
  if count l =? 0 then 1 else count l.

(** "Change handling": the change outputs, the fee and [totalChangeSat]
    at the end of the block. *)
Definition handleChange (unusedCount : Z) (inputUtxos : list InputUtxo)
    (externalOutputAddresses : list string) (changeAddress : string)
    (desiredFeeRate : FeeRate) (inputTotal externalOutputTotal feeSat : Z)
    : result BuildError (list TxOutputSatoshis * Z * Z) :=
  let totalChangeSat := inputTotal - externalOutputTotal - feeSat in
  if totalChangeSat <? 0 then Throw NegativeTotalChange
  else
    let targetChangeOutputCount :=
      determineTargetChangeOutputCount unusedCount (count inputUtxos) in
    let changeOutputWeights :=
      createWeightedChangeOutputs targetChangeOutputCount changeAddress in
    let totalChangeWeight := sumZ (map weight changeOutputWeights) in
    let changeOutputs :=
      allocateChange totalChangeSat totalChangeWeight changeOutputWeights in
    let totalChangeAllocated := sumOutputs changeOutputs in
    let looseChange := totalChangeSat - totalChangeAllocated in
    let recalculatedFee :=
      estimateTxFee desiredFeeRate (count inputUtxos) (lengthOr1 changeOutputs)
        externalOutputAddresses in
    let '(feeSat, totalChangeSat, looseChange) :=
      if feeSat >? recalculatedFee then
        let overpayingAmount := feeSat - recalculatedFee in
        (recalculatedFee, totalChangeSat + overpayingAmount, looseChange + overpayingAmount)
      else (feeSat, totalChangeSat, looseChange) in
    if looseChange <? 0 then Throw NegativeLooseChange
    else
      let '(changeOutputs, looseChange) :=
        if (count changeOutputs >? 0)
           && Qltb 1 (inject_Z looseChange / inject_Z (count changeOutputs))
        then
          let extraSatPerChangeOutput :=
            Qfloor (inject_Z looseChange / inject_Z (count changeOutputs)) in
          (map (addSat extraSatPerChangeOutput) changeOutputs,
           looseChange - extraSatPerChangeOutput * count changeOutputs)
        else if (count changeOutputs =? 0) && (looseChange >? dustThreshold cfg)
        then ([{| satAddress := changeAddress; outSat := looseChange |}], 0)
        else (changeOutputs, looseChange) in
      Ok (changeOutputs, feeSat + looseChange, totalChangeSat - looseChange).

Definition orFalse (b : option bool) : bool :=
  match b with Some b => b | None => false end.

Definition buildPaymentTx (unusedUtxos : list UtxoInfo) (desiredOutputs : list TxOutput)
    (changeAddress : string) (desiredFeeRate : FeeRate)
    (useAllUtxos useUnconfirmedUtxos : option bool) : result BuildError PaymentTx :=
  let useAllUtxos := orFalse useAllUtxos in
  let useUnconfirmedUtxos := orFalse useUnconfirmedUtxos in
  let* externalOutputs := validateOutputs 0 desiredOutputs in
  let externalOutputTotal := sumOutputs externalOutputs in
  if negb (isValidAddress changeAddress) then Throw (InvalidChangeAddress changeAddress)
  else
    let externalOutputAddresses := map satAddress externalOutputs in
    let* sel :=
      selectInputUtxos unusedUtxos externalOutputTotal externalOutputAddresses
        desiredFeeRate useAllUtxos useUnconfirmedUtxos in
    let inputUtxos := selectedUtxos sel in
    let inputTotal := selectedTotalSat sel in
    let* swept :=
      accountForSweep externalOutputs externalOutputTotal inputTotal (selFeeSat sel) in
    let '(externalOutputs, externalOutputTotal, feeSat) := swept in
    let* changed :=
      handleChange (count unusedUtxos) inputUtxos externalOutputAddresses changeAddress
        desiredFeeRate inputTotal externalOutputTotal feeSat in
    let '(changeOutputs, feeSat, totalChangeSat) := changed in
    Ok {| inputs := inputUtxos;
          outputs := externalOutputs ++ changeOutputs;
          fee := feeSat;
          change := totalChangeSat;
          changeAddress :=
            match changeOutputs with
            | [o] => Some (satAddress o)
            | _ => None
            end;
          changeOutputs := changeOutputs;
          externalOutputs := externalOutputs;
          externalOutputTotal := externalOutputTotal;
          rawHex := EmptyString;
          rawHash := EmptyString |}.

(** The value of [changeOutputs] when the loop over
    [changeOutputWeights] ends, in the run of [buildPaymentTx] on these
    arguments: the weighted shares that passed the dust and [minChange]
    filter ([[]] when the run throws before). *)
Definition survivingChange (unusedUtxos : list UtxoInfo) (desiredOutputs : list TxOutput)
    (changeAddress : string) (desiredFeeRate : FeeRate)
    (useAllUtxos useUnconfirmedUtxos : option bool) : list TxOutputSatoshis :=
  match validateOutputs 0 desiredOutputs with
  | Throw _ => []
  | Ok externalOutputs =>
      match selectInputUtxos unusedUtxos (sumOutputs externalOutputs)
              (map satAddress externalOutputs) desiredFeeRate
              (orFalse useAllUtxos) (orFalse useUnconfirmedUtxos) with
      | Throw _ => []
      | Ok sel =>
          match accountForSweep externalOutputs (sumOutputs externalOutputs)
                  (selectedTotalSat sel) (selFeeSat sel) with
          | Throw _ => []
          | Ok (_, externalOutputTotal, feeSat) =>
              let totalChangeSat := selectedTotalSat sel - externalOutputTotal - feeSat in
              let changeOutputWeights :=
                createWeightedChangeOutputs
                  (determineTargetChangeOutputCount (count unusedUtxos)
                     (count (selectedUtxos sel)))
                  changeAddress in
              allocateChange totalChangeSat (sumZ (map weight changeOutputWeights))
                changeOutputWeights
          end
      end
  end.

End Planner.

(** *** A concrete coin for the examples

    The parts the planner takes as parameters, instantiated for a coin
    whose main denomination is its base denomination ([decimals = 0]). *)

Module Fixture.

Definition isValidAddress (a : string) : bool := negb (String.eqb a EmptyString).

(** Modelled from the spec: [toBaseDenominationNumber] is not among the
    sources; section 4.1 converts a main-denomination decimal to base
    units by multiplying by [10^decimals], here [10^0]. *)
Definition toBaseDenominationNumber (s : string) : option Z :=
  match NilZero.uint_of_string s with
  | Some d => Some (Z.of_N (N.of_uint d))
  | None => None
  end.

(** Modelled from the spec: [isConfirmedUtxo] is not among the sources;
    section 3 has a utxo confirmed iff its height is a positive
    integer. *)
Definition isConfirmedUtxo (u : UtxoInfo) : bool :=
  match height u with
  | Some h =>
      match NilZero.uint_of_string h with
      | Some d => (0 <? N.of_uint d)%N
      | None => false
      end
  | None => false
  end.

(** Modelled from the spec: the order of [sortUtxos], which is not
    among the sources; section 4.4 orders confirmed before unconfirmed,
    then by descending value, then by [(txid, vout)] ascending. *)
Definition utxoBefore (a b : InputUtxo) : bool :=
  match isConfirmedUtxo (utxoInfo a), isConfirmedUtxo (utxoInfo b) with
  | true, false => true
  | false, true => false
  | _, _ =>
      if inputSat b <? inputSat a then true
      else if inputSat a <? inputSat b then false
      else
        match String.compare (txid (utxoInfo a)) (txid (utxoInfo b)) with
        | Lt => true
        | Gt => false
        | Eq => vout (utxoInfo a) <=? vout (utxoInfo b)
        end
  end.

(** Modelled from the spec: insertion into a list ordered by
    [utxoBefore], for the [sortUtxos] below. *)
Fixpoint insertUtxo (x : InputUtxo) (l : list InputUtxo) : list InputUtxo :=
  match l with
  | [] => [x]
  | y :: rest => if utxoBefore x y then x :: l else y :: insertUtxo x rest
  end.

(** Modelled from the spec: [sortUtxos] of [./utils] is not among the
    sources; the order of section 4.4 ([utxoBefore]), as a stable
    insertion sort. *)
Definition sortUtxos (l : list InputUtxo) : list InputUtxo :=
  fold_right insertUtxo [] l.

Definition utxo (id : string) (n : Z) (sat : Z) (h : option string) : UtxoInfo :=
  {| txid := id; vout := n; value := NilZero.string_of_uint (N.to_uint (Z.to_N sat));
     satoshis := Some sat; height := h |}.

Definition perWeight (r : Q) : FeeRate := {| feeRate := r; feeRateType := BasePerWeight |}.
Definition flat (r : Q) : FeeRate := {| feeRate := r; feeRateType := Base |}.

(** The configuration of the boundary scenarios of the spec. *)
Definition config : Config :=
  {| decimals := 0; minTxFee := None; dustThreshold := 546;
     networkMinRelayFee := 1000; targetUtxoPoolSize := 1; minChangeSat := 0 |}.

Definition build (cfg : Config) :=
  buildPaymentTx isValidAddress toBaseDenominationNumber isConfirmedUtxo sortUtxos cfg.

End Fixture.

(** *** Inputs of the boundary scenarios of the spec *)

Module Scenario.
Import Fixture.
Local Open Scope string_scope.

Definition out (a v : string) : TxOutput := {| address := a; outValue := v |}.

(** The amounts of a plan: inputs, external outputs, change outputs, fee. *)
Definition amounts (tx : PaymentTx) : list Z * list Z * list Z * Z :=
  (map inputSat (inputs tx), map outSat (externalOutputs tx),
   map outSat (changeOutputs tx), fee tx).

Definition amountsOf (r : result BuildError PaymentTx)
    : result BuildError (list Z * list Z * list Z * Z) :=
  match r with
  | Ok tx => Ok (amounts tx)
  | Throw e => Throw e
  end.

Definition poolOf4 : Config :=
  {| decimals := 0; minTxFee := None; dustThreshold := 546;
     networkMinRelayFee := 1000; targetUtxoPoolSize := 4; minChangeSat := 0 |}.

(** A configured [minTxFee] of one base unit per vbyte. *)
Definition withMinTxFee (size : Z) : Config :=
  {| decimals := 0; minTxFee := Some (perWeight 1); dustThreshold := 546;
     networkMinRelayFee := 100; targetUtxoPoolSize := size; minChangeSat := 0 |}.

(** No dust threshold and a pool of two. *)
Definition noDust : Config :=
  {| decimals := 0; minTxFee := None; dustThreshold := 0;
     networkMinRelayFee := 1000; targetUtxoPoolSize := 2; minChangeSat := 0 |}.

(** A minimum change of 5000 base units. *)
Definition withMinChange : Config :=
  {| decimals := 0; minTxFee := None; dustThreshold := 546;
     networkMinRelayFee := 1000; targetUtxoPoolSize := 1; minChangeSat := 5000 |}.

End Scenario.

End Bitcoinish.

(** ** [broadcastTransaction] of [BitcoinishPayments] *)

Module Broadcast.
Local Open Scope string_scope.

(** [BitcoinishSignedTransaction]: [tx.id] and [tx.data.hex]. *)
Record SignedTransaction := { id : string; hex : string }.

Record BroadcastResult := { resultId : string }.

(** [e.message || ''] *)
Definition messageOr (e : JsError) : string :=
  match message e with
  | Some m => m
  | None => EmptyString
  end.

Definition mismatchWarning (coinSymbol txId original : string) : LogEntry :=
  LogWarn ("Broadcasted " ++ coinSymbol ++ " txid " ++ txId
        ++ " doesn't match original txid " ++ original).

(** [sendTx hex] is the outcome of the awaited
    [this._retryDced(() => this.getApi().sendTx(hex))]: the txid the
    node returns or the error it throws.  The result is paired with the
    warnings logged. *)
Definition broadcastTransaction (coinSymbol : string)
    (sendTx : string -> result JsError string) (tx : SignedTransaction)
    : result JsError BroadcastResult * list LogEntry :=
  match sendTx (hex tx) with
  | Ok txId =>
      (Ok {| resultId := id tx |},
       if String.eqb (id tx) txId then []
       else [mismatchWarning coinSymbol txId (id tx)])
  | Throw e =>
      if String.prefix "-27" (messageOr e)
      then (Ok {| resultId := id tx |}, [])
      else (Throw e, [])
  end.

(** A node that knows one transaction already and is down for all
    others. *)
Definition mempoolNode (hex : string) : result JsError string :=
  if String.eqb hex "0200aa"
  then Throw {| errorName := "Error";
                message := Some "-27: transaction already in block chain" |}
  else Throw {| errorName := "Error"; message := Some "ECONNREFUSED" |}.

(** A node that answers every submission with the same txid. *)
Definition renamingNode (hex : string) : result JsError string := Ok "beef".

End Broadcast.

(** ** The Ripple balance monitor *)

Module Ripple.
Local Open Scope string_scope.

(** [String(n)] for an integer. *)
Definition stringOfNumber (n : Z) : string := NilZero.string_of_int (Z.to_int n).

(** [k] copies of the character [v]. *)
Fixpoint replicate (k : nat) (v : ascii) : string :=
  match k with
  | O => EmptyString
  | S k' => String v (replicate k' v)
  end.

(** Modelled from the spec: [padLeft] of [./utils] is not among the
    sources; section 4.6 uses it as [zero_pad(x, n)], which prepends the
    pad character until the string has [n] characters and leaves a
    longer string as it is. *)
Definition padLeft (x : string) (n : nat) (v : ascii) : string :=
  replicate (n - String.length x) v ++ x.

Record Endpoint := { endpointAddress : string; tag : option Z }.

Record Specification := { source : Endpoint; destination : Endpoint }.

Record BalanceChange := { currency : string; changeValue : string }.

Record Outcome := {
  ledgerVersion : Z;
  indexInLedger : Z;
  balanceChanges : gmap string (list BalanceChange);
}.

Record Payment := {
  paymentId : string;
  specification : Specification;
  outcome : Outcome;
}.

Record Ledger := { ledgerHash : string; closeTime : string }.

Inductive ActivityType := ActivityIn | ActivityOut.

Record BalanceActivity := {
  type : ActivityType;
  networkType : string;
  networkSymbol : string;
  assetSymbol : string;
  address : string;
  extraId : option string;
  amount : string;
  externalId : string;
  activitySequence : string;
  confirmationId : string;
  confirmationNumber : Z;
  timestamp : string;     (* [new Date(ledger.closeTime)] *)
}.

(** The network symbol of the Ripple ledger. *)
Definition rippleSymbol : string := "XRP".

Section Monitor.

(** [this.networkType], and the injected server: [getLedger v] is the
    outcome of the awaited
    [this.retryDced(() => this.rippleApi.getLedger({ ledgerVersion: v }))]. *)
Variable thisNetworkType : string.
Variable getLedger : Z -> result JsError Ledger.

Definition paymentToBalanceActivities (addr : string) (tx : Payment)
    : result JsError (option BalanceActivity) * list LogEntry :=
  let type :=
    if String.eqb (endpointAddress (source (specification tx))) addr then Some ActivityOut
    else if String.eqb (endpointAddress (destination (specification tx))) addr
         then Some ActivityIn
         else None in
  match type with
  | None =>
      (Ok None,
       [LogInfo ("Cannot determine balance activity for ripple tx " ++ paymentId tx
                 ++ " because it doesnt concern address " ++ addr)])
  | Some type =>
      let confirmationNumber := ledgerVersion (outcome tx) in
      let primarySequence := padLeft (stringOfNumber (ledgerVersion (outcome tx))) 12 "0" in
      let secondarySequence := padLeft (stringOfNumber (indexInLedger (outcome tx))) 8 "0" in
      match getLedger confirmationNumber with
      | Throw e => (Throw e, [])
      | Ok ledger =>
          let tag :=
            tag (match type with
                 | ActivityOut => source (specification tx)
                 | ActivityIn => destination (specification tx)
                 end) in
          let balanceChange :=
            List.find (fun c => String.eqb (currency c) "XRP")
              (match balanceChanges (outcome tx) !! addr with
               | Some l => l
               | None => []
               end) in
          match balanceChange with
          | None =>
              (Ok None,
               [LogWarn ("Cannot determine balanceChange for address " ++ addr
                         ++ " in ripple tx " ++ paymentId tx
                         ++ " because there's no XRP entry")])
          | Some balanceChange =>
              let amount := changeValue balanceChange in
              let assetSymbol := currency balanceChange in
              let tertiarySequence :=
                match type with ActivityOut => "00" | ActivityIn => "01" end in
              let activitySequence :=
                primarySequence ++ "." ++ secondarySequence ++ "." ++ tertiarySequence in
              (Ok (Some {| type := type;
                           networkType := thisNetworkType;
                           networkSymbol := "TRX";
                           assetSymbol := assetSymbol;
                           address := addr;
                           extraId := option_map stringOfNumber tag;
                           amount := amount;
                           externalId := paymentId tx;
                           activitySequence := activitySequence;
                           confirmationId := ledgerHash ledger;
                           confirmationNumber := confirmationNumber;
                           timestamp := closeTime ledger |}),
               [])
          end
      end
  end.

End Monitor.

(** *** [resolveFromToLedgers] *)

(** [completeLedgers.split('-')] *)
Fixpoint splitOn (sep : ascii) (s : string) : list string :=
  match s with
  | EmptyString => [EmptyString]
  | String c rest =>
      if Ascii.eqb c sep then EmptyString :: splitOn sep rest
      else
        match splitOn sep rest with
        | piece :: pieces => String c piece :: pieces
        | [] => [String c EmptyString]
        end
  end.

Definition digitOf (c : ascii) : option Z :=
  let n := Z.of_N (N_of_ascii c) in
  if ((48 <=? n) && (n <=? 57))%Z then Some (n - 48)%Z else None.

(** The digits read so far; [None] before the first one. *)
Fixpoint parseDigits (acc : option Z) (s : string) : option Z :=
  match s with
  | EmptyString => acc
  | String c rest =>
      match digitOf c with
      | Some d =>
          parseDigits (Some (10 * (match acc with Some a => a | None => 0 end) + d)%Z) rest
      | None => acc
      end
  end.

(** The white space [parseInt] skips, among the characters a string of
    this model holds (code units below 256): TAB, LF, VT, FF, CR, the
    space and the no-break space. *)
Definition isWhiteSpace (c : ascii) : bool :=
  let n := N_of_ascii c in
  ((9 <=? n) && (n <=? 13) || (n =? 32) || (n =? 160))%N.

Fixpoint trimStart (s : string) : string :=
  match s with
  | String c rest => if isWhiteSpace c then trimStart rest else s
  | EmptyString => EmptyString
  end.

Definition hexDigitOf (c : ascii) : option Z :=
  let n := Z.of_N (N_of_ascii c) in
  if ((48 <=? n) && (n <=? 57))%Z then Some (n - 48)%Z
  else if ((97 <=? n) && (n <=? 102))%Z then Some (n - 87)%Z
  else if ((65 <=? n) && (n <=? 70))%Z then Some (n - 55)%Z
  else None.

Fixpoint parseHexDigits (acc : option Z) (s : string) : option Z :=
  match s with
  | EmptyString => acc
  | String c rest =>
      match hexDigitOf c with
      | Some d =>
          parseHexDigits (Some (16 * (match acc with Some a => a | None => 0 end) + d)%Z)
            rest
      | None => acc
      end
  end.

(** [Number.parseInt(s)], with no radix: leading white space is
    skipped, then a sign is read, then [0x] or [0X] selects radix 16,
    and the value is that of the longest run of digits that follows;
    [None] for [NaN] (no digit, or a missing piece:
    [parseInt(undefined)]).  The value is exact, as it is for results
    below 2^53. *)
Definition parseInt (s : option string) : option Z :=
  match s with
  | None => None
  | Some s =>
      let trimmed := trimStart s in
      let '(sign, unsigned) :=
        match trimmed with
        | String c rest =>
            if Ascii.eqb c "-" then ((-1)%Z, rest)
            else if Ascii.eqb c "+" then (1%Z, rest)
            else (1%Z, trimmed)
        | EmptyString => (1%Z, trimmed)
        end in
      let mathInt :=
        match unsigned with
        | String c (String x rest) =>
            if Ascii.eqb c "0" && (Ascii.eqb x "x" || Ascii.eqb x "X")
            then parseHexDigits None rest
            else parseDigits None unsigned
        | _ => parseDigits None unsigned
        end in
      option_map (Z.mul sign) mathInt
  end.

Record ServerInfo := { completeLedgers : string }.

(** The [completeLedgers] string of a server that retains the ledgers
    [minLedger .. maxLedger]: ["min-max"]. *)
Definition rangeString (minLedger maxLedger : Z) : string :=
  stringOfNumber minLedger ++ "-" ++ stringOfNumber maxLedger.

(** [from]/[to] of the options: a number or a balance activity. *)
Inductive LedgerRef :=
| RefNumber (n : Z)
| RefActivity (a : BalanceActivity).

Record Options := { from : option LedgerRef; to : option LedgerRef }.

(** [isUndefined(x) ? undefined : isNumber(x) ? x : x.confirmationNumber] *)
Definition requested (r : option LedgerRef) : option Z :=
  match r with
  | None => None
  | Some (RefNumber n) => Some n
  | Some (RefActivity a) => Some (confirmationNumber a)
  end.

(** The ledger versions returned; [None] is [NaN]. *)
Record FromTo := { resolvedFrom : option Z; resolvedTo : option Z }.

(** [a < b] where [b] may be [NaN]: false then. *)
Definition ltNumber (a : Z) (b : option Z) : bool :=
  match b with
  | Some b => (a <? b)%Z
  | None => false
  end.

Definition gtNumber (a : Z) (b : option Z) : bool :=
  match b with
  | Some b => (a >? b)%Z
  | None => false
  end.

Definition showNumber (n : option Z) : string :=
  match n with
  | Some n => stringOfNumber n
  | None => "NaN"
  end.

(** [getServerInfo] is the outcome of the awaited
    [this.retryDced(() => this.rippleApi.getServerInfo())]; the result
    is paired with the warnings logged. *)
Definition resolveFromToLedgers (getServerInfo : result JsError ServerInfo)
    (options : Options) : result JsError FromTo * list LogEntry :=
  match getServerInfo with
  | Throw e => (Throw e, [])
  | Ok serverInfo =>
      let completeLedgers := splitOn "-" (completeLedgers serverInfo) in
      let fromLedgerVersion := parseInt (nth_error completeLedgers 0) in
      let toLedgerVersion := parseInt (nth_error completeLedgers 1) in
      let requestedFrom := requested (from options) in
      let requestedTo := requested (to options) in
      let '(fromLedgerVersion, log1) :=
        match requestedFrom with
        | Some requestedFrom =>
            if ltNumber requestedFrom fromLedgerVersion then
              (fromLedgerVersion,
               [LogWarn ("Server balance activity doesn't go back to ledger "
                         ++ stringOfNumber requestedFrom ++ ", using "
                         ++ showNumber fromLedgerVersion ++ " instead")])
            else (Some requestedFrom, [])
        | None => (fromLedgerVersion, [])
        end in
      let '(toLedgerVersion, log2) :=
        match requestedTo with
        | Some requestedTo =>
            if gtNumber requestedTo toLedgerVersion then
              (toLedgerVersion,
               [LogWarn ("Server balance activity doesn't go up to ledger "
                         ++ stringOfNumber requestedTo ++ ", using "
                         ++ showNumber toLedgerVersion ++ " instead")])
            else (Some requestedTo, [])
        | None => (toLedgerVersion, [])
        end in
      (Ok {| resolvedFrom := fromLedgerVersion; resolvedTo := toLedgerVersion |},
       (log1 ++ log2)%list)
  end.

(** *** A payment between two monitored addresses *)

Definition xrp (v : string) : BalanceChange := {| currency := "XRP"; changeValue := v |}.

Definition samplePayment : Payment :=
  {| paymentId := "A1B2";
     specification :=
       {| source := {| endpointAddress := "rAlice"; tag := None |};
          destination := {| endpointAddress := "rBob"; tag := Some 7%Z |} |};
     outcome :=
       {| ledgerVersion := 1234567; indexInLedger := 3;
          balanceChanges :=
            {[ "rAlice" := [xrp "-10.000012"]; "rBob" := [xrp "10"] ]} |} |}.

(** A balance activity confirmed in the given ledger, as a caller may
    pass it for [from] or [to]. *)
Definition activityConfirmedAt (ledgerVersion : Z) : BalanceActivity :=
  {| type := ActivityIn; networkType := "mainnet"; networkSymbol := "XRP";
     assetSymbol := "XRP"; address := "rBob"; extraId := None; amount := "10";
     externalId := "A1B2";
     activitySequence :=
       padLeft (stringOfNumber ledgerVersion) 12 "0" ++ ".00000003.01";
     confirmationId := "C0FFEE"; confirmationNumber := ledgerVersion;
     timestamp := "2019-11-05T10:00:00.000Z" |}.

Definition sampleLedger (ledgerVersion : Z) : result JsError Ledger :=
  Ok {| ledgerHash := "C0FFEE"; closeTime := "2019-11-05T10:00:00.000Z" |}.

End Ripple.

(** ** Ripple: retrieving the balance activities of an address

    [RippleBalanceMonitor.retrieveBalanceActivities].  The server, the
    address check and the callback are injected; what the method does
    to them is recorded as a list of events in the order of the run.
    The [while] loop runs on fuel: a server that keeps returning full
    pages keeps the method running.  [logger.debug] calls are not
    recorded. *)

Module RippleScan.
Import Ripple.
Local Open Scope string_scope.

(** A transaction as [getTransactions] lists it: its [type], and the
    [id], [specification] and [outcome] fields.  The loop reads [id]
    and [outcome.ledgerVersion] of any transaction and the other fields
    only of a payment. *)
Record Transaction := { txType : string; txPayment : Payment }.

Definition txId (tx : Transaction) : string := paymentId (txPayment tx).

Definition txLedgerVersion (tx : Transaction) : Z := ledgerVersion (outcome (txPayment tx)).

(** Where a [getTransactions] call starts: [minLedgerVersion] and
    [maxLedgerVersion] (each may be [NaN]), or [startTx]. *)
Inductive Cursor :=
| FromLedgers (minLedgerVersion maxLedgerVersion : option Z)
| AfterTx (startTx : Transaction).

Record GetTransactionsOptions := {
  types : list string;
  earliestFirst : bool;
  excludeFailures : bool;
  limit : Z;
  cursor : Cursor;
}.

Inductive Event :=
| Requested (options : GetTransactionsOptions)   (* a [getTransactions] call *)
| Logged (entry : LogEntry)
| CalledBack (activity : BalanceActivity).       (* a [callbackFn] call *)

Inductive Completion :=
| Returned (window : FromTo)
| Threw (e : JsError)
| OutOfFuel.

(** [a <= b] where [b] may be [NaN]: false then. *)
Definition leNumber (a : Z) (b : option Z) : bool :=
  match b with
  | Some b => (a <=? b)%Z
  | None => false
  end.

(** [transactions[transactions.length - 1]] *)
Definition lastOf (transactions : list Transaction) : option Transaction :=
  nth_error transactions (List.length transactions - 1).

Definition requestsOf (events : list Event) : list GetTransactionsOptions :=
  flat_map (fun ev => match ev with Requested o => [o] | _ => [] end) events.

Definition deliveredOf (events : list Event) : list BalanceActivity :=
  flat_map (fun ev => match ev with CalledBack a => [a] | _ => [] end) events.

Section Retrieve.

(** [this.networkType] and the injected parts: [getLedger] as for the
    classifier; [assertValidAddress] of [./helpers]; [getServerInfo]
    the outcome of the server-info request; [getTransactions n] the
    outcome of the [n]-th awaited
    [this.retryDced(() => this.rippleApi.getTransactions(address, options))]
    of the run; [callbackFn] the outcome of the awaited callback. *)
Variable thisNetworkType : string.
Variable getLedger : Z -> result JsError Ledger.
Variable assertValidAddress : string -> result JsError unit.
Variable getServerInfo : result JsError ServerInfo.
Variable getTransactions :
  nat -> string -> GetTransactionsOptions -> result JsError (list Transaction).
Variable callbackFn : BalanceActivity -> result JsError unit.

Definition pageLimit : Z := 10.

(** The test of the [while]. *)
Definition continues (to : option Z) (transactions : option (list Transaction))
    (lastTx : option Transaction) : bool :=
  match transactions with
  | None => true
  | Some transactions =>
      (Z.of_nat (List.length transactions) =? pageLimit)%Z
      && match lastTx with
         | Some lastTx => leNumber (txLedgerVersion lastTx) to
         | None => false
         end
  end.

Definition getTransactionOptions (from to : option Z) (lastTx : option Transaction)
    : GetTransactionsOptions :=
  {| types := ["payment"];
     earliestFirst := true;
     excludeFailures := true;
     limit := pageLimit;
     cursor := match lastTx with
               | Some lastTx => AfterTx lastTx
               | None => FromLedgers from to
               end |}.

(** The test that makes the [for] loop [continue]. *)
Definition skipped (from to : option Z) (lastTx : option Transaction) (tx : Transaction)
    : bool :=
  negb (String.eqb (txType tx) "payment")
  || match lastTx with
     | Some lastTx => String.eqb (txId tx) (txId lastTx)
     | None => false
     end
  || ltNumber (txLedgerVersion tx) from
  || gtNumber (txLedgerVersion tx) to.

(** The [for] loop over one page. *)
Fixpoint forTransactions (address : string) (from to : option Z)
    (lastTx : option Transaction) (transactions : list Transaction)
    : result JsError unit * list Event :=
  match transactions with
  | [] => (Ok tt, [])
  | tx :: rest =>
      if skipped from to lastTx tx
      then forTransactions address from to lastTx rest
      else
        let '(activity, logs) :=
          paymentToBalanceActivities thisNetworkType getLedger address (txPayment tx) in
        match activity with
        | Throw e => (Throw e, map Logged logs)
        | Ok None =>
            let '(r, events) := forTransactions address from to lastTx rest in
            (r, (map Logged logs ++ events)%list)
        | Ok (Some activity) =>
            match callbackFn activity with
            | Throw e => (Throw e, (map Logged logs ++ [CalledBack activity])%list)
            | Ok _ =>
                let '(r, events) := forTransactions address from to lastTx rest in
                (r, (map Logged logs ++ CalledBack activity :: events)%list)
            end
        end
  end.

(** The [while] loop; [n] counts the [getTransactions] calls made.
    [None] is the loop left by its test. *)
Fixpoint scan (fuel n : nat) (address : string) (from to : option Z)
    (lastTx : option Transaction) (transactions : option (list Transaction))
    : result JsError (option unit) * list Event :=
  if continues to transactions lastTx then
    match fuel with
    | O => (Ok None, [])
    | S fuel =>
        let options := getTransactionOptions from to lastTx in
        match getTransactions n address options with
        | Throw e => (Throw e, [Requested options])
        | Ok transactions =>
            let '(r, events) := forTransactions address from to lastTx transactions in
            match r with
            | Throw e => (Throw e, Requested options :: events)
            | Ok _ =>
                let '(r', events') :=
                  scan fuel (S n) address from to (lastOf transactions)
                    (Some transactions) in
                (r', (Requested options :: events ++ events')%list)
            end
        end
    end
  else (Ok (Some tt), []).

Definition retrieveBalanceActivities (fuel : nat) (address : string) (options : Options)
    : Completion * list Event :=
  match assertValidAddress address with
  | Throw e => (Threw e, [])
  | Ok _ =>
      let '(window, logs) := resolveFromToLedgers getServerInfo options in
      match window with
      | Throw e => (Threw e, map Logged logs)
      | Ok window =>
          let '(r, events) :=
            scan fuel 0 address (resolvedFrom window) (resolvedTo window) None None in
          (match r with
           | Throw e => Threw e
           | Ok None => OutOfFuel
           | Ok (Some _) => Returned window
           end,
           (map Logged logs ++ events)%list)
      end
  end.

End Retrieve.

(** *** A server with two pages for [rBob] *)

Definition paymentAt (id src dst : string) (ledgerVersion index : Z) : Transaction :=
  {| txType := "payment";
     txPayment :=
       {| paymentId := id;
          specification :=
            {| source := {| endpointAddress := src; tag := None |};
               destination := {| endpointAddress := dst; tag := None |} |};
          outcome :=
            {| ledgerVersion := ledgerVersion; indexInLedger := index;
               balanceChanges := {[ src := [xrp "-1"]; dst := [xrp "1"] ]} |} |} |}.

(** Ten payments to [rBob] in the ledgers [first .. first + 9]. *)
Definition fullPage (first : Z) : list Transaction :=
  map (fun i => paymentAt (stringOfNumber (first + Z.of_nat i)) "rAlice" "rBob"
                  (first + Z.of_nat i) 0)
      (seq 0 10).

(** The first call gives the ledgers [100 .. 109]; a later call after
    a transaction gives that transaction again and two later ones, one
    of them an order. *)
Definition pagedServer (n : nat) (address : string) (options : GetTransactionsOptions)
    : result JsError (list Transaction) :=
  match n, cursor options with
  | O, _ => Ok (fullPage 100)
  | S _, AfterTx tx =>
      Ok [tx;
          {| txType := "order"; txPayment := txPayment (paymentAt "0RDER" "rBob" "rBob" 110 0) |};
          paymentAt "111" "rBob" "rCarol" 111 0]
  | S _, FromLedgers _ _ => Ok []
  end.

Definition acceptAll (a : BalanceActivity) : result JsError unit := Ok tt.

(** A callback that fails at the activity of one transaction. *)
Definition rejectId (id : string) (a : BalanceActivity) : result JsError unit :=
  if String.eqb (externalId a) id
  then Throw {| errorName := "Error"; message := Some "callback failed" |}
  else Ok tt.

Definition anyAddress (a : string) : result JsError unit := Ok tt.

Definition retainedLedgers : result JsError ServerInfo :=
  Ok {| completeLedgers := rangeString 50 500 |}.

Definition noBounds : Options := {| from := None; to := None |}.

Definition retrieve (callbackFn : BalanceActivity -> result JsError unit) (fuel : nat)
    (options : Options) : Completion * list Event :=
  retrieveBalanceActivities "mainnet" sampleLedger anyAddress retainedLedgers
    pagedServer callbackFn fuel "rBob" options.

End RippleScan.

(** * Properties *)

(** ** Results and sums *)

Lemma bind_Ok_inv {E A B} (m : result E A) (k : A -> result E B) (b : B) :
  bind m k = Ok b -> exists a, m = Ok a /\ k a = Ok b.
Proof. destruct m as [a|e]; simpl; intros H; [eauto | discriminate]. Qed.

Lemma sumZ_app (l1 l2 : list Z) : sumZ (l1 ++ l2) = sumZ l1 + sumZ l2.
Proof. induction l1 as [|x l1 IH]; simpl; [reflexivity | rewrite IH; lia]. Qed.

(** ** Rounding to a double *)

Section Rounding.
Local Open Scope Q_scope.

Lemma roundHalfEven_floor (t : Q) :
  (Qfloor t <= roundHalfEven t <= Qfloor t + 1)%Z.
Proof.
  unfold roundHalfEven. destruct (Qcompare _ _); [destruct (Z.even _)| |]; lia.
Qed.

Lemma roundHalfEven_lower (a : Z) (t : Q) : inject_Z a <= t -> (a <= roundHalfEven t)%Z.
Proof.
  intros H. apply Qfloor_resp_le in H. rewrite Qfloor_Z in H.
  pose proof (roundHalfEven_floor t). lia.
Qed.

Lemma roundHalfEven_upper (b : Z) (t : Q) : t <= inject_Z b -> (roundHalfEven t <= b)%Z.
Proof.
  intros H. pose proof H as Hf. apply Qfloor_resp_le in Hf. rewrite Qfloor_Z in Hf.
  destruct (Z.eq_dec (Qfloor t) b) as [E|E].
  - unfold roundHalfEven. rewrite E.
    assert (Hlt : t - inject_Z b < 1 # 2).
    { apply Qle_lt_trans with 0; [|reflexivity].
      unfold Qminus. rewrite <- (Qplus_opp_r (inject_Z b)).
      apply Qplus_le_compat; [exact H | apply Qle_refl]. }
    rewrite Qlt_alt in Hlt. rewrite Hlt. lia.
  - pose proof (roundHalfEven_floor t). lia.
Qed.

Lemma roundHalfEven_mono (s t : Q) : s <= t -> (roundHalfEven s <= roundHalfEven t)%Z.
Proof.
  intros H. pose proof (Qfloor_resp_le _ _ H) as Hf.
  pose proof (roundHalfEven_floor s) as Hs. pose proof (roundHalfEven_floor t) as Ht.
  destruct (Z.eq_dec (Qfloor s) (Qfloor t)) as [E|E]; [|lia].
  unfold roundHalfEven. rewrite E.
  assert (Hd : s - inject_Z (Qfloor t) <= t - inject_Z (Qfloor t)).
  { unfold Qminus. apply Qplus_le_compat; [exact H | apply Qle_refl]. }
  destruct (Qcompare_spec (s - inject_Z (Qfloor t)) (1 # 2)) as [Es|Es|Es];
    destruct (Qcompare_spec (t - inject_Z (Qfloor t)) (1 # 2)) as [Et|Et|Et];
    try destruct (Z.even (Qfloor t)); try lia; exfalso; lra.
Qed.

Lemma pow2_pos (e : Z) : 0 < 2 ^ e.
Proof. apply Qpower_0_lt. reflexivity. Qed.

Lemma pow2_inject (a : Z) : (0 <= a)%Z -> 2 ^ a == inject_Z (2 ^ a).
Proof. intros Ha. rewrite Zpower_Qpower by exact Ha. reflexivity. Qed.

Lemma pow2_plus (a b : Z) : 2 ^ (a + b) == 2 ^ a * 2 ^ b.
Proof. apply Qpower_plus. discriminate. Qed.

Lemma pow2_mono (a b : Z) : (a <= b)%Z -> 2 ^ a <= 2 ^ b.
Proof. intros H. apply Qpower_le_compat_l; [exact H | discriminate]. Qed.

Lemma pow2_cancel (a e : Z) : 2 ^ (a + e) * 2 ^ (- e) == 2 ^ a.
Proof.
  rewrite <- pow2_plus. replace (a + e + - e)%Z with a by lia. reflexivity.
Qed.

(** [2^(a-b)] as a fraction of integers, for the comparisons below. *)
Lemma pow2_quot (a b : Z) :
  (0 <= a)%Z -> (0 <= b)%Z -> 2 ^ (a - b) == inject_Z (2 ^ a) / inject_Z (2 ^ b).
Proof.
  intros Ha Hb. rewrite Qpower_minus by discriminate.
  rewrite (pow2_inject a Ha), (pow2_inject b Hb). reflexivity.
Qed.

Lemma Qdiv_Z_lt (n d n' d' : Z) :
  (0 < d)%Z -> (0 < d')%Z -> (n * d' < n' * d)%Z ->
  inject_Z n / inject_Z d < inject_Z n' / inject_Z d'.
Proof.
  intros Hd Hd' H.
  destruct d as [|p|p]; try lia. destruct d' as [|p'|p']; try lia.
  unfold Qlt, Qdiv, Qmult, Qinv, inject_Z. simpl. lia.
Qed.

Lemma Qdiv_Z_le (n d n' d' : Z) :
  (0 < d)%Z -> (0 < d')%Z -> (n * d' <= n' * d)%Z ->
  inject_Z n / inject_Z d <= inject_Z n' / inject_Z d'.
Proof.
  intros Hd Hd' H.
  destruct d as [|p|p]; try lia. destruct d' as [|p'|p']; try lia.
  unfold Qle, Qdiv, Qmult, Qinv, inject_Z. simpl. lia.
Qed.

Lemma Q_as_quot (x : Q) : x == inject_Z (Qnum x) / inject_Z (Zpos (Qden x)).
Proof. destruct x as [n d]. simpl. apply Qmake_Qdiv. Qed.

Lemma floorLog2_spec (x : Q) :
  0 < x -> 2 ^ floorLog2 x <= x /\ x < 2 ^ (floorLog2 x + 1).
Proof.
  intros Hx. unfold floorLog2.
  set (n := Qnum x). set (d := Zpos (Qden x)).
  assert (Hn : (0 < n)%Z) by (unfold n; destruct x as [[|p|p] q]; try easy).
  assert (Hd : (0 < d)%Z) by (unfold d; lia).
  pose proof (Z.log2_spec n Hn) as Ha. pose proof (Z.log2_spec d Hd) as Hb.
  pose proof (Z.log2_nonneg n) as Ha0. pose proof (Z.log2_nonneg d) as Hb0.
  set (a := Z.log2 n) in *. set (b := Z.log2 d) in *.
  assert (Hpa : (0 < 2 ^ a)%Z) by (apply Z.pow_pos_nonneg; lia).
  assert (Hpb : (0 < 2 ^ b)%Z) by (apply Z.pow_pos_nonneg; lia).
  rewrite !Z.pow_succ_r in * by lia.
  destruct (Qle_bool (2 ^ (a - b)) x) eqn:E.
  - apply Qle_bool_iff in E. split; [exact E|].
    replace (a - b + 1)%Z with ((a + 1) - b)%Z by lia.
    rewrite pow2_quot by lia. rewrite (Q_as_quot x) at 1. fold n d.
    apply Qdiv_Z_lt; try lia. rewrite Z.pow_add_r by lia. nia.
  - split.
    + replace (a - b - 1)%Z with (a - (b + 1))%Z by lia.
      rewrite pow2_quot by lia. rewrite (Q_as_quot x). fold n d.
      apply Qdiv_Z_le; try lia; try (apply Z.pow_pos_nonneg; lia).
      rewrite Z.pow_add_r by lia. nia.
    + replace (a - b - 1 + 1)%Z with (a - b)%Z by lia.
      apply Qnot_le_lt. intros Hle. apply Qle_bool_iff in Hle. congruence.
Qed.

Lemma floorLog2_mono (x y : Q) : 0 < x -> x <= y -> (floorLog2 x <= floorLog2 y)%Z.
Proof.
  intros Hx Hxy.
  assert (Hy : 0 < y) by (eapply Qlt_le_trans; eassumption).
  destruct (floorLog2_spec x Hx) as [Hlo _]. destruct (floorLog2_spec y Hy) as [_ Hhi].
  destruct (Z.le_gt_cases (floorLog2 x) (floorLog2 y)) as [H|H]; [exact H|].
  exfalso. pose proof (pow2_mono (floorLog2 y + 1) (floorLog2 x) ltac:(lia)). lra.
Qed.

Lemma scale_lower (a e : Z) (x : Q) : 2 ^ (a + e) <= x -> 2 ^ a <= x * 2 ^ (- e).
Proof.
  intros H. rewrite <- (pow2_cancel a e).
  apply Qmult_le_compat_r; [exact H | apply Qlt_le_weak, pow2_pos].
Qed.

Lemma scale_upper (a e : Z) (x : Q) : x <= 2 ^ (a + e) -> x * 2 ^ (- e) <= 2 ^ a.
Proof.
  intros H. rewrite <- (pow2_cancel a e).
  apply Qmult_le_compat_r; [exact H | apply Qlt_le_weak, pow2_pos].
Qed.

(** The unrounded image of [roundPositive], for the proofs. *)
Lemma roundPositive_eq (x : Q) :
  let e := Z.max (floorLog2 x - 52) (-1074) in
  roundPositive x == inject_Z (roundHalfEven (x * 2 ^ (- e))) * 2 ^ e.
Proof. cbv zeta. unfold roundPositive. apply Qred_correct. Qed.

Lemma roundPositive_mono (x y : Q) :
  0 < x -> x <= y -> roundPositive x <= roundPositive y.
Proof.
  intros Hx Hxy.
  assert (Hy : 0 < y) by (eapply Qlt_le_trans; eassumption).
  rewrite (roundPositive_eq x), (roundPositive_eq y).
  pose proof (floorLog2_mono x y Hx Hxy) as Hfl.
  destruct (floorLog2_spec x Hx) as [_ Hxhi]. destruct (floorLog2_spec y Hy) as [Hylo _].
  set (ex := Z.max (floorLog2 x - 52) (-1074)).
  set (ey := Z.max (floorLog2 y - 52) (-1074)).
  destruct (Z.eq_dec ex ey) as [E|E].
  - rewrite E. apply Qmult_le_compat_r; [|apply Qlt_le_weak, pow2_pos].
    rewrite <- Zle_Qle. apply roundHalfEven_mono.
    apply Qmult_le_compat_r; [exact Hxy | apply Qlt_le_weak, pow2_pos].
  - assert (Hlt : (ex + 1 <= ey)%Z) by lia.
    assert (Hey : ey = (floorLog2 y - 52)%Z) by lia.
    (* the smaller one is at most [2^53 * 2^ex] *)
    assert (Hx53 : (roundHalfEven (x * 2 ^ (- ex)) <= 2 ^ 53)%Z).
    { apply roundHalfEven_upper. rewrite <- (pow2_inject 53) by lia.
      apply scale_upper. apply Qlt_le_weak. eapply Qlt_le_trans; [exact Hxhi|].
      apply pow2_mono. lia. }
    (* the larger one is at least [2^52 * 2^ey] *)
    assert (Hy52 : (2 ^ 52 <= roundHalfEven (y * 2 ^ (- ey)))%Z).
    { apply roundHalfEven_lower. rewrite <- (pow2_inject 52) by lia.
      apply scale_lower. replace (52 + ey)%Z with (floorLog2 y) by lia. exact Hylo. }
    apply Qle_trans with (inject_Z (2 ^ 53) * 2 ^ ex).
    { apply Qmult_le_compat_r; [|apply Qlt_le_weak, pow2_pos].
      rewrite <- Zle_Qle. exact Hx53. }
    apply Qle_trans with (inject_Z (2 ^ 52) * 2 ^ ey).
    { rewrite <- !pow2_inject by lia. rewrite <- !pow2_plus. apply pow2_mono. lia. }
    apply Qmult_le_compat_r; [|apply Qlt_le_weak, pow2_pos].
    rewrite <- Zle_Qle. exact Hy52.
Qed.

Lemma roundPositive_nonneg (x : Q) : 0 <= x -> 0 <= roundPositive x.
Proof.
  intros Hx. rewrite roundPositive_eq. apply Qmult_le_0_compat.
  - change 0 with (inject_Z 0). rewrite <- Zle_Qle. apply roundHalfEven_lower.
    apply Qmult_le_0_compat; [exact Hx | apply Qlt_le_weak, pow2_pos].
  - apply Qlt_le_weak, pow2_pos.
Qed.

Lemma roundDouble_nonneg (x : Q) : 0 <= x -> 0 <= roundDouble x.
Proof.
  intros Hx. unfold roundDouble.
  destruct (Qcompare_spec x 0) as [E|E|E].
  - apply Qle_refl.
  - exfalso. lra.
  - apply roundPositive_nonneg. exact Hx.
Qed.

Lemma roundDouble_mono (x y : Q) : x <= y -> roundDouble x <= roundDouble y.
Proof.
  intros Hxy. unfold roundDouble.
  destruct (Qcompare_spec x 0) as [Ex|Ex|Ex]; destruct (Qcompare_spec y 0) as [Ey|Ey|Ey];
    try (exfalso; lra).
  - apply Qle_refl.
  - apply roundPositive_nonneg. lra.
  - pose proof (roundPositive_nonneg (- x) ltac:(lra)). lra.
  - pose proof (roundPositive_mono (- y) (- x) ltac:(lra) ltac:(lra)). lra.
  - pose proof (roundPositive_nonneg (- x) ltac:(lra)).
    pose proof (roundPositive_nonneg y ltac:(lra)). lra.
  - apply roundPositive_mono; assumption.
Qed.

End Rounding.

(** The rounding agrees with the Standard Library's IEEE 754
    operations on the rate 1.1 and on its product with a size of 340
    vbytes, whose ceiling is 375 (374 for the exact product). *)
Example roundDouble_parses_like_SFdiv :
  Some (roundDouble (11 # 10))
  = option_map Qred
      (valueOfFloat (SFdiv 53 1024 (S754_finite false 11 0) (S754_finite false 10 0))).
Proof. vm_compute. reflexivity. Qed.

Example roundDouble_multiplies_like_SFmul :
  Some (roundDouble (roundDouble (11 # 10) * 340))
  = option_map Qred
      (valueOfFloat
         (SFmul 53 1024 (SFdiv 53 1024 (S754_finite false 11 0) (S754_finite false 10 0))
            (S754_finite false 340 0)))
  /\ Qceiling (roundDouble (roundDouble (11 # 10) * 340)) = 375
  /\ Qceiling ((11 # 10) * 340) = 374.
Proof. vm_compute. repeat split. Qed.

(** The rate [0.10000000000000001] is read as the double of 0.1, and
    its product with 260 is 26 (the exact product is above 26). *)
Example roundDouble_of_long_decimal :
  roundDouble (10000000000000001 # 100000000000000000) = roundDouble (1 # 10)
  /\ Qceiling (roundDouble (roundDouble (10000000000000001 # 100000000000000000) * 260))
     = 26
  /\ Qceiling ((10000000000000001 # 100000000000000000) * 260) = 27.
Proof. vm_compute. repeat split. Qed.

(** ** The UTXO planner *)

Module BitcoinishFacts.
Import Bitcoinish.

(** *** Arithmetic of the rationals used by the planner *)

Lemma Qltb_lt (a b : Q) : Qltb a b = true <-> (a < b)%Q.
Proof.
  unfold Qltb. rewrite negb_true_iff. split.
  - intros H. apply Qnot_le_lt. intros Hle.
    apply Qle_bool_iff in Hle. congruence.
  - intros H. destruct (Qle_bool b a) eqn:E; [|reflexivity].
    apply Qle_bool_iff in E. exfalso. exact (Qlt_not_le _ _ H E).
Qed.

Lemma Qltb_ge (a b : Q) : Qltb a b = false <-> (b <= a)%Q.
Proof.
  unfold Qltb. rewrite negb_false_iff. apply Qle_bool_iff.
Qed.

Lemma Qceiling_lower (z : Z) (x : Q) : (inject_Z z <= x)%Q -> z <= Qceiling x.
Proof.
  intros H. rewrite Zle_Qle.
  eapply Qle_trans; [exact H | apply Qle_ceiling].
Qed.

(** For a positive count, the quotient the source floors is integer
    division and [q > 1] is [loose > count]. *)
Lemma Qfloor_quot (a n : Z) : Qfloor (inject_Z a / inject_Z n) = Z.div a n.
Proof. symmetry. apply Zdiv_Qdiv. Qed.

Lemma Qquot_gt_1 (a n : Z) :
  0 < n -> (Qltb 1 (inject_Z a / inject_Z n) = true <-> n < a).
Proof.
  intros Hn. rewrite Qltb_lt.
  unfold Qlt, Qdiv, Qmult, Qinv, inject_Z. simpl.
  destruct n as [|p|p]; try lia. simpl. lia.
Qed.

Lemma Qceiling_quot_mul (a n : Z) :
  0 < n -> a <= Qceiling (inject_Z a / inject_Z n) * n.
Proof.
  intros Hn.
  assert (H := Qle_ceiling (inject_Z a / inject_Z n)).
  set (c := Qceiling (inject_Z a / inject_Z n)) in *.
  unfold Qle, Qdiv, Qmult, Qinv, inject_Z in H. simpl in H.
  destruct n as [|p|p]; try lia. simpl in H. lia.
Qed.

Lemma Qceiling_quot_nonneg (a n : Z) :
  0 < n -> 0 <= a -> 0 <= Qceiling (inject_Z a / inject_Z n).
Proof.
  intros Hn Ha. apply Qceiling_lower.
  unfold Qle, Qdiv, Qmult, Qinv, inject_Z. simpl.
  destruct n as [|p|p]; try lia. simpl. lia.
Qed.

Section PlannerFacts.

Variable isValidAddress : string -> bool.
Variable toBaseDenominationNumber : string -> option Z.
Variable isConfirmedUtxo : UtxoInfo -> bool.
Variable sortUtxos : list InputUtxo -> list InputUtxo.
Variable cfg : Config.

(** *** Fee estimates *)

Lemma estimateTxFee_relay (rate : FeeRate) (i c : Z) (addrs : list string) :
  networkMinRelayFee cfg <= estimateTxFee cfg rate i c addrs.
Proof.
  unfold estimateTxFee. apply Qceiling_lower.
  match goal with |- context [if Qltb ?a ?b then _ else _] =>
    destruct (Qltb a b) eqn:E end.
  - apply Qle_refl.
  - apply Qltb_ge in E. exact E.
Qed.

Lemma estimateTxFee_minTxFee (rate m : FeeRate) (i c : Z) (addrs : list string) :
  minTxFee cfg = Some m ->
  (feeRateToSatoshis cfg m i c addrs <= inject_Z (estimateTxFee cfg rate i c addrs))%Q.
Proof.
  intros Hm. unfold estimateTxFee. rewrite Hm.
  eapply Qle_trans; [|apply Qle_ceiling].
  set (f0 := feeRateToSatoshis cfg rate i c addrs).
  set (fm := feeRateToSatoshis cfg m i c addrs).
  assert (H1 : (fm <= (if Qltb f0 fm then fm else f0))%Q).
  { destruct (Qltb f0 fm) eqn:E; [apply Qle_refl | apply Qltb_ge in E; exact E]. }
  set (f1 := if Qltb f0 fm then fm else f0) in *.
  destruct (Qltb f1 (inject_Z (networkMinRelayFee cfg))) eqn:E.
  - apply Qltb_lt in E. eapply Qle_trans; [exact H1 | apply Qlt_le_weak; exact E].
  - exact H1.
Qed.

(** *** Input selection *)

Lemma accumulate_total (unusedCount outputTotal : Z) (addrs : list string)
    (rate : FeeRate) (sorted : list InputUtxo) :
  forall sel,
    sumInputs (selectedUtxos sel) = selectedTotalSat sel ->
    let r := accumulate cfg unusedCount outputTotal addrs rate sorted sel in
    sumInputs (selectedUtxos r) = selectedTotalSat r.
Proof.
  induction sorted as [|utxo rest IH]; intros sel Hsel; simpl; [exact Hsel|].
  match goal with |- context [if ?b then _ else _] => destruct b end.
  - simpl. unfold sumInputs in *. rewrite map_app, sumZ_app, Hsel. simpl. lia.
  - apply IH. simpl. unfold sumInputs in *. rewrite map_app, sumZ_app, Hsel. simpl. lia.
Qed.

Lemma findIdeal_In (lo hi : Z) (utxos : list InputUtxo) (u : InputUtxo) :
  findIdeal lo hi utxos = Some u -> In u utxos /\ lo <= inputSat u <= hi.
Proof.
  induction utxos as [|x rest IH]; simpl; [discriminate|].
  destruct ((inputSat x >=? lo) && (inputSat x <=? hi)) eqn:E.
  - intros [= <-]. apply andb_true_iff in E. split; [now left | lia].
  - intros H. destruct (IH H) as [Hin Hb]. split; [now right | exact Hb].
Qed.

Lemma selectInputUtxos_total (unusedUtxos : list UtxoInfo) (outputTotal : Z)
    (addrs : list string) (rate : FeeRate) (useAll useUnconf : bool) (sel : Selection) :
  selectInputUtxos toBaseDenominationNumber isConfirmedUtxo sortUtxos cfg
    unusedUtxos outputTotal addrs rate useAll useUnconf = Ok sel ->
  sumInputs (selectedUtxos sel) = selectedTotalSat sel.
Proof.
  unfold selectInputUtxos. intros H.
  apply bind_Ok_inv in H. destruct H as [utxos [_ H]].
  destruct useAll.
  - injection H as <-. reflexivity.
  - destruct (findIdeal _ _ utxos) as [u|] eqn:E.
    + injection H as <-. simpl. unfold sumInputs. simpl. lia.
    + injection H as <-. apply accumulate_total. reflexivity.
Qed.

(** *** The sweeping block *)

Lemma subtractFeeShare_Ok (feeShare : Z) (ext : list TxOutputSatoshis) :
  forall i outs,
    subtractFeeShare cfg i feeShare ext = Ok outs ->
    outs = map (addSat (- feeShare)) ext /\
    Forall (fun o => dustThreshold cfg < outSat o) outs.
Proof.
  induction ext as [|o rest IH]; simpl; intros i outs H.
  - injection H as <-. split; [reflexivity | constructor].
  - destruct (outSat o - feeShare <=? dustThreshold cfg) eqn:E; [discriminate|].
    apply bind_Ok_inv in H. destruct H as [rest' [Hr H]].
    injection H as <-. destruct (IH _ _ Hr) as [-> HF]. split.
    + unfold addSat at 1. simpl. repeat (f_equal; try lia).
    + constructor; [simpl; lia | exact HF].
Qed.

Lemma subtractFeeShare_Throw (feeShare : Z) (ext : list TxOutputSatoshis) :
  forall i e,
    subtractFeeShare cfg i feeShare ext = Throw e ->
    (exists j sat, e = DustOutput j sat feeShare) /\
    Exists (fun o => outSat o - feeShare <= dustThreshold cfg) ext.
Proof.
  induction ext as [|o rest IH]; simpl; intros i e H; [discriminate|].
  destruct (outSat o - feeShare <=? dustThreshold cfg) eqn:E.
  - injection H as <-. split; [eauto | left; lia].
  - destruct (subtractFeeShare cfg (S i) feeShare rest) as [r|e'] eqn:Hr;
      simpl in H; [discriminate|].
    injection H as <-. destruct (IH _ _ Hr) as [He Hex]. split; [exact He | now right].
Qed.

Lemma sumOutputs_addSat (extra : Z) (l : list TxOutputSatoshis) :
  sumOutputs (map (addSat extra) l) = sumOutputs l + extra * count l.
Proof.
  unfold sumOutputs, count. induction l as [|o l IH]; [simpl; lia|].
  cbn [map sumZ fold_right List.length addSat outSat]. fold (sumZ (map outSat (map (addSat extra) l))).
  fold (sumZ (map outSat l)). rewrite IH. lia.
Qed.

Lemma count_nil_iff {A} (l : list A) : count l = 0 <-> l = [].
Proof. unfold count. destruct l; simpl; split; intros H; try reflexivity; try discriminate; lia. Qed.

Lemma count_nonneg {A} (l : list A) : 0 <= count l.
Proof. unfold count. lia. Qed.

(** What [accountForSweep] leaves when it does not throw: either the
    outputs already fit, or every output gave up its share of the fee. *)
Lemma accountForSweep_Ok (ext outs : list TxOutputSatoshis) (extTotal inputTotal feeSat extTotal' feeSat' : Z) :
  accountForSweep cfg ext extTotal inputTotal feeSat = Ok (outs, extTotal', feeSat') ->
  (extTotal + feeSat <= inputTotal /\ outs = ext /\ extTotal' = extTotal /\ feeSat' = feeSat)
  \/
  (inputTotal < extTotal + feeSat /\ extTotal = inputTotal /\ 0 < count ext /\
   let feeShare := Qceiling (inject_Z feeSat / inject_Z (count ext)) in
   outs = map (addSat (- feeShare)) ext /\
   Forall (fun o => dustThreshold cfg < outSat o) outs /\
   feeSat' = feeShare * count ext /\
   extTotal' = extTotal - feeSat').
Proof.
  unfold accountForSweep. intros H.
  destruct (extTotal + feeSat >? inputTotal) eqn:E1.
  - destruct (extTotal =? inputTotal) eqn:E2; [|discriminate].
    destruct (count ext =? 0) eqn:E3; [discriminate|].
    apply bind_Ok_inv in H. destruct H as [o [Hs H]].
    injection H as <- <- <-.
    apply subtractFeeShare_Ok in Hs. destruct Hs as [-> HF].
    right. pose proof (count_nonneg ext).
    repeat split; try lia; try exact HF.
  - injection H as <- <- <-. left. repeat split; lia.
Qed.

(** *** Change handling *)

Lemma allocateChange_kept (T W : Z) (ws : list WeightedChangeOutput) :
  Forall (fun o => dustThreshold cfg < outSat o /\ minChangeSat cfg <= outSat o)
         (allocateChange cfg T W ws).
Proof.
  induction ws as [|w rest IH]; simpl; [constructor|].
  match goal with |- context [if ?b then _ else _] => destruct b eqn:E end;
    [exact IH|].
  apply orb_false_iff in E. destruct E as [E1 E2].
  constructor; [simpl; lia | exact IH].
Qed.

Lemma allocateChange_count (T W : Z) (ws : list WeightedChangeOutput) :
  count (allocateChange cfg T W ws) <= count ws.
Proof.
  unfold count. induction ws as [|w rest IH]; simpl; [lia|].
  match goal with |- context [if ?b then _ else _] => destruct b end; simpl; lia.
Qed.

(** The tail of [handleChange_inv]: once the fee was recalculated, case
    on the sign of the loose change and on the two guards that decide
    where it goes. *)
Ltac loose_change_cases H kept loose1 :=
  let EL := fresh "EL" in
  let EC := fresh "EC" in
  let EQ := fresh "EQ" in
  let ED := fresh "ED" in
  let E0 := fresh "E0" in
  let Hpos := fresh "Hpos" in
  let Hz := fresh "Hz" in
  let Hnil := fresh "Hnil" in
  let Hle := fresh "Hle" in
  let Hc := fresh "Hc" in
  pose proof (count_nonneg kept) as Hc;
  destruct (loose1 <? 0) eqn:EL; [discriminate|]; apply Z.ltb_ge in EL;
  destruct (count kept >? 0) eqn:EC;
  [ assert (Hpos : 0 < count kept) by lia;
    destruct (Qltb 1 (inject_Z loose1 / inject_Z (count kept))) eqn:EQ; cbn [andb] in H;
    [ apply (Qquot_gt_1 loose1 _ Hpos) in EQ; rewrite Qfloor_quot in H;
      injection H as <- <- <-;
      split; [lia|]; split; [lia|]; split; [lia|]; left; repeat split; lia
    | assert (Hle : loose1 <= count kept)
        by (destruct (Z.lt_ge_cases (count kept) loose1) as [Hlt|Hge]; [|exact Hge];
            apply (Qquot_gt_1 loose1 _ Hpos) in Hlt; congruence);
      destruct (count kept =? 0) eqn:E0; [lia|]; cbn [andb] in H;
      injection H as <- <- <-;
      split; [lia|]; split; [lia|]; split; [lia|]; right; right;
      repeat split; try lia;
      intros Hnil; rewrite Hnil in Hpos; unfold count in Hpos; simpl in Hpos; lia ]
  | cbn [andb] in H; assert (Hz : count kept = 0) by lia;
    assert (Hnil : kept = []) by (apply count_nil_iff; exact Hz);
    rewrite Hz in H; change (0 =? 0) with true in H; cbn [andb] in H;
    destruct (loose1 >? dustThreshold _) eqn:ED;
    injection H as <- <- <-;
    (split; [lia|]); (split; [lia|]); (split; [lia|]); right;
    [ left | right ]; repeat split; try lia; try exact Hnil ].

(** The three ways out of the change block. [fee1] and [loose1] are the
    fee and the loose change after the fee was recalculated. *)
Lemma handleChange_inv (unusedCount : Z) (inputUtxos : list InputUtxo)
    (addrs : list string) (changeAddress : string) (rate : FeeRate)
    (inputTotal ext feeSat : Z) (changes : list TxOutputSatoshis) (fee' change' : Z) :
  handleChange cfg unusedCount inputUtxos addrs changeAddress rate inputTotal ext feeSat
    = Ok (changes, fee', change') ->
  let T := inputTotal - ext - feeSat in
  let ws := createWeightedChangeOutputs
              (determineTargetChangeOutputCount cfg unusedCount (count inputUtxos))
              changeAddress in
  let kept := allocateChange cfg T (sumZ (map weight ws)) ws in
  let recalculatedFee := estimateTxFee cfg rate (count inputUtxos) (lengthOr1 kept) addrs in
  let fee1 := if feeSat >? recalculatedFee then recalculatedFee else feeSat in
  let loose1 := T - sumOutputs kept + (feeSat - fee1) in
  0 <= T /\ 0 <= loose1 /\
  change' = T + (feeSat - fee1) - (fee' - fee1) /\
  ((0 < count kept /\ count kept < loose1 /\
    changes = map (addSat (Z.div loose1 (count kept))) kept /\
    fee' = fee1 + (loose1 - Z.div loose1 (count kept) * count kept))
   \/
   (kept = [] /\ dustThreshold cfg < loose1 /\
    changes = [{| satAddress := changeAddress; outSat := loose1 |}] /\ fee' = fee1)
   \/
   ((0 < count kept -> loose1 <= count kept) /\
    (kept = [] -> loose1 <= dustThreshold cfg) /\
    changes = kept /\ fee' = fee1 + loose1)).
Proof.
  unfold handleChange. intros H. cbv zeta.
  set (T := inputTotal - ext - feeSat) in *.
  set (ws := createWeightedChangeOutputs _ _) in *.
  set (kept := allocateChange cfg T (sumZ (map weight ws)) ws) in *.
  set (recalc := estimateTxFee cfg rate (count inputUtxos) (lengthOr1 kept) addrs) in *.
  destruct (T <? 0) eqn:ET; [discriminate|]. apply Z.ltb_ge in ET.
  destruct (feeSat >? recalc) eqn:EF.
  - set (loose1 := T - sumOutputs kept + (feeSat - recalc)) in *.
    loose_change_cases H kept loose1.
  - replace (feeSat - feeSat) with 0 by lia.
    set (loose1 := T - sumOutputs kept + 0).
    assert (Hl : T - sumOutputs kept = loose1) by (unfold loose1; lia).
    rewrite Hl in H.
    loose_change_cases H kept loose1.
Qed.

(** *** Where the selected inputs and the fee of a selection come from *)

Lemma convertUtxos_In (useUnconf : bool) (unusedUtxos : list UtxoInfo) :
  forall utxos,
    convertUtxos toBaseDenominationNumber isConfirmedUtxo useUnconf unusedUtxos = Ok utxos ->
    forall u, In u utxos ->
      In (utxoInfo u) unusedUtxos /\
      utxoSatoshis toBaseDenominationNumber (utxoInfo u) = Some (inputSat u).
Proof.
  induction unusedUtxos as [|x rest IH]; simpl; intros utxos H u Hu.
  - injection H as <-. destruct Hu.
  - destruct (negb useUnconf && negb (isConfirmedUtxo x)).
    + destruct (IH _ H _ Hu). split; [now right | assumption].
    + destruct (utxoSatoshis toBaseDenominationNumber x) as [sx|] eqn:Ex; [|discriminate].
      apply bind_Ok_inv in H. destruct H as [r [Hr H]]. injection H as <-.
      destruct Hu as [<-|Hu].
      * simpl. split; [now left | exact Ex].
      * destruct (IH _ Hr _ Hu). split; [now right | assumption].
Qed.

Lemma accumulate_In (unusedCount outputTotal : Z) (addrs : list string)
    (rate : FeeRate) (sorted : list InputUtxo) :
  forall sel u,
    In u (selectedUtxos (accumulate cfg unusedCount outputTotal addrs rate sorted sel)) ->
    In u (selectedUtxos sel) \/ In u sorted.
Proof.
  induction sorted as [|x rest IH]; intros sel u; simpl; [now left|].
  match goal with |- context [if ?b then _ else _] => destruct b end.
  - simpl. rewrite in_app_iff. simpl. tauto.
  - intros H. apply IH in H. simpl in H. rewrite in_app_iff in H. simpl in H. tauto.
Qed.

(** The fee of the incremental loop is the estimate at the shape it
    stopped on, unless it never ran. *)
Lemma accumulate_fee (unusedCount outputTotal : Z) (addrs : list string)
    (rate : FeeRate) (sorted : list InputUtxo) :
  forall sel,
    let r := accumulate cfg unusedCount outputTotal addrs rate sorted sel in
    (sorted = [] /\ r = sel) \/
    (selectedUtxos r <> [] /\
     selFeeSat r =
       estimateTxFee cfg rate (count (selectedUtxos r))
         (determineTargetChangeOutputCount cfg unusedCount (count (selectedUtxos r))) addrs).
Proof.
  induction sorted as [|x rest IH]; intros sel; simpl; [now left|]. right.
  match goal with |- context [if ?b then _ else _] => destruct b end.
  - simpl. split; [|reflexivity]. intros HN. now apply app_eq_nil in HN.
  - match goal with |- context [accumulate _ _ _ _ _ rest ?s] => destruct (IH s) as [[-> ->]|H] end.
    + simpl. split; [|reflexivity]. intros HN. now apply app_eq_nil in HN.
    + exact H.
Qed.

Lemma selectInputUtxos_shape (unusedUtxos : list UtxoInfo) (outputTotal : Z)
    (addrs : list string) (rate : FeeRate) (useAll useUnconf : bool) (sel : Selection) :
  selectInputUtxos toBaseDenominationNumber isConfirmedUtxo sortUtxos cfg
    unusedUtxos outputTotal addrs rate useAll useUnconf = Ok sel ->
  (useAll = true /\
   selFeeSat sel = estimateTxFee cfg rate (count (selectedUtxos sel)) 0 addrs)
  \/
  (useAll = false /\ (exists u, selectedUtxos sel = [u]) /\
   selFeeSat sel = estimateTxFee cfg rate 1 0 addrs /\
   outputTotal + selFeeSat sel <= selectedTotalSat sel
     <= outputTotal + selFeeSat sel + dustThreshold cfg)
  \/
  (useAll = false /\ selectedUtxos sel = [] /\ selFeeSat sel = 0 /\ selectedTotalSat sel = 0)
  \/
  (useAll = false /\ selectedUtxos sel <> [] /\
   selFeeSat sel =
     estimateTxFee cfg rate (count (selectedUtxos sel))
       (determineTargetChangeOutputCount cfg (count unusedUtxos) (count (selectedUtxos sel)))
       addrs).
Proof.
  unfold selectInputUtxos. intros H.
  apply bind_Ok_inv in H. destruct H as [utxos [_ H]].
  destruct useAll.
  - injection H as <-. left. split; reflexivity.
  - destruct (findIdeal _ _ utxos) as [u|] eqn:E.
    + injection H as <-. right. left. apply findIdeal_In in E. simpl.
      split; [reflexivity|]. split; [eauto|]. split; [reflexivity | tauto].
    + injection H as <-. right. right.
      match goal with |- context [accumulate _ ?a ?b ?c ?d ?e ?f] =>
        destruct (accumulate_fee a b c d e f) as [[_ ->]|[H1 H2]] end.
      * left. simpl. repeat split; reflexivity.
      * right. split; [reflexivity|]. split; assumption.
Qed.

Lemma selectInputUtxos_In (unusedUtxos : list UtxoInfo) (outputTotal : Z)
    (addrs : list string) (rate : FeeRate) (useAll useUnconf : bool) (sel : Selection) :
  (forall l x, In x (sortUtxos l) -> In x l) ->
  selectInputUtxos toBaseDenominationNumber isConfirmedUtxo sortUtxos cfg
    unusedUtxos outputTotal addrs rate useAll useUnconf = Ok sel ->
  forall u, In u (selectedUtxos sel) ->
    In (utxoInfo u) unusedUtxos /\
    utxoSatoshis toBaseDenominationNumber (utxoInfo u) = Some (inputSat u).
Proof.
  unfold selectInputUtxos. intros Hsort H u Hu.
  apply bind_Ok_inv in H. destruct H as [utxos [Hc H]].
  apply (convertUtxos_In _ _ _ Hc).
  destruct useAll.
  - injection H as <-. exact Hu.
  - destruct (findIdeal _ _ utxos) as [w|] eqn:E.
    + injection H as <-. apply findIdeal_In in E. simpl in Hu.
      destruct Hu as [<-|[]]. tauto.
    + injection H as <-. apply accumulate_In in Hu. simpl in Hu.
      destruct Hu as [[]|Hu]. apply Hsort. exact Hu.
Qed.

(** *** The validation loop *)

Lemma validateOutputs_Ok (desiredOutputs : list TxOutput) :
  forall i ext,
    validateOutputs isValidAddress toBaseDenominationNumber i desiredOutputs = Ok ext ->
    Forall (fun o => 0 < outSat o) ext /\
    Forall2 (fun d o => satAddress o = address d /\
                        toBaseDenominationNumber (outValue d) = Some (outSat o))
            desiredOutputs ext.
Proof.
  induction desiredOutputs as [|d rest IH]; simpl; intros i ext H.
  - injection H as <-. split; constructor.
  - destruct (negb (isValidAddress (address d))); [discriminate|].
    destruct (toBaseDenominationNumber (outValue d)) as [sat|] eqn:Es; [|discriminate].
    destruct (sat <=? 0) eqn:E0; [discriminate|].
    apply bind_Ok_inv in H. destruct H as [r [Hr H]]. injection H as <-.
    destruct (IH _ _ Hr) as [HF HF2]. split.
    + constructor; [simpl; lia | exact HF].
    + constructor; [simpl; split; [reflexivity | exact Es] | exact HF2].
Qed.

(** *** The stages of [buildPaymentTx] *)

Lemma buildPaymentTx_inv (unusedUtxos : list UtxoInfo) (desiredOutputs : list TxOutput)
    (changeAddress : string) (rate : FeeRate) (useAll useUnconf : option bool)
    (tx : PaymentTx) :
  buildPaymentTx isValidAddress toBaseDenominationNumber isConfirmedUtxo sortUtxos cfg
    unusedUtxos desiredOutputs changeAddress rate useAll useUnconf = Ok tx ->
  exists ext0 sel fee1,
    validateOutputs isValidAddress toBaseDenominationNumber 0 desiredOutputs = Ok ext0 /\
    isValidAddress changeAddress = true /\
    selectInputUtxos toBaseDenominationNumber isConfirmedUtxo sortUtxos cfg
      unusedUtxos (sumOutputs ext0) (map satAddress ext0) rate
      (orFalse useAll) (orFalse useUnconf) = Ok sel /\
    inputs tx = selectedUtxos sel /\
    accountForSweep cfg ext0 (sumOutputs ext0) (selectedTotalSat sel) (selFeeSat sel)
      = Ok (externalOutputs tx, externalOutputTotal tx, fee1) /\
    handleChange cfg (count unusedUtxos) (selectedUtxos sel) (map satAddress ext0)
      changeAddress rate (selectedTotalSat sel) (externalOutputTotal tx) fee1
      = Ok (changeOutputs tx, fee tx, change tx) /\
    outputs tx = externalOutputs tx ++ changeOutputs tx.
Proof.
  unfold buildPaymentTx. intros H.
  apply bind_Ok_inv in H. destruct H as [ext0 [Hv H]].
  destruct (isValidAddress changeAddress) eqn:Ea; [|discriminate]. simpl in H.
  apply bind_Ok_inv in H. destruct H as [sel [Hs H]].
  apply bind_Ok_inv in H. destruct H as [[[outs extT] fee1] [Hw H]].
  apply bind_Ok_inv in H. destruct H as [[[changes fee'] change'] [Hc H]].
  injection H as <-. simpl.
  exists ext0, sel, fee1. repeat split; assumption.
Qed.

Lemma accountForSweep_sum (ext outs : list TxOutputSatoshis) (inputTotal feeSat extTotal' feeSat' : Z) :
  accountForSweep cfg ext (sumOutputs ext) inputTotal feeSat = Ok (outs, extTotal', feeSat') ->
  sumOutputs outs = extTotal'.
Proof.
  intros H. apply accountForSweep_Ok in H.
  destruct H as [(_ & -> & -> & _) | (_ & _ & _ & H)]; [reflexivity|].
  cbv zeta in H. destruct H as (-> & _ & -> & ->).
  rewrite sumOutputs_addSat. lia.
Qed.

Lemma handleChange_sum (unusedCount : Z) (inputUtxos : list InputUtxo)
    (addrs : list string) (changeAddress : string) (rate : FeeRate)
    (inputTotal ext feeSat : Z) (changes : list TxOutputSatoshis) (fee' change' : Z) :
  handleChange cfg unusedCount inputUtxos addrs changeAddress rate inputTotal ext feeSat
    = Ok (changes, fee', change') ->
  inputTotal = ext + sumOutputs changes + fee' /\ change' = sumOutputs changes.
Proof.
  intros H. apply handleChange_inv in H. cbv zeta in H.
  destruct H as (HT & HL & Hc & [(Hp & Hlt & -> & Hf) | [(Hn & Hd & -> & Hf) | (_ & _ & -> & Hf)]]).
  - rewrite sumOutputs_addSat. lia.
  - rewrite Hn in *. unfold sumOutputs in *. simpl in *. lia.
  - lia.
Qed.

Lemma handleChange_nonneg (unusedCount : Z) (inputUtxos : list InputUtxo)
    (addrs : list string) (changeAddress : string) (rate : FeeRate)
    (inputTotal ext feeSat : Z) (changes : list TxOutputSatoshis) (fee' change' : Z) :
  handleChange cfg unusedCount inputUtxos addrs changeAddress rate inputTotal ext feeSat
    = Ok (changes, fee', change') ->
  Forall (fun o => dustThreshold cfg < outSat o) changes /\
  (0 <= networkMinRelayFee cfg -> 0 <= feeSat -> 0 <= fee').
Proof.
  intros H. apply handleChange_inv in H. cbv zeta in H.
  set (T := inputTotal - ext - feeSat) in *.
  set (ws := createWeightedChangeOutputs _ _) in *.
  set (kept := allocateChange cfg T (sumZ (map weight ws)) ws) in *.
  set (recalc := estimateTxFee cfg rate (count inputUtxos) (lengthOr1 kept) addrs) in *.
  pose proof (estimateTxFee_relay rate (count inputUtxos) (lengthOr1 kept) addrs) as Hr.
  fold recalc in Hr.
  assert (Hfee1 : 0 <= networkMinRelayFee cfg -> 0 <= feeSat ->
                  0 <= (if feeSat >? recalc then recalc else feeSat)).
  { intros. destruct (feeSat >? recalc); lia. }
  pose proof (allocateChange_kept T (sumZ (map weight ws)) ws) as Hk. fold kept in Hk.
  set (fee1 := if feeSat >? recalc then recalc else feeSat) in *.
  set (loose1 := T - sumOutputs kept + (feeSat - fee1)) in *.
  destruct H as (HT & HL & Hc & [(Hp & Hlt & -> & Hf) | [(Hn & Hd & -> & Hf) | (_ & _ & -> & Hf)]]).
  - split.
    + apply List.Forall_map. eapply List.Forall_impl; [|exact Hk].
      intros o [Ho _]. simpl.
      pose proof (Z.div_pos _ _ HL Hp). lia.
    + intros H1 H2. specialize (Hfee1 H1 H2).
      pose proof (Z.mul_div_le loose1 (count kept) Hp) as Hm. lia.
  - split; [constructor; [simpl; exact Hd | constructor]|].
    intros H1 H2. specialize (Hfee1 H1 H2). lia.
  - split; [eapply List.Forall_impl; [|exact Hk]; intros o [Ho _]; exact Ho|].
    intros H1 H2. specialize (Hfee1 H1 H2). lia.
Qed.

Lemma selectInputUtxos_fee_nonneg (unusedUtxos : list UtxoInfo) (outputTotal : Z)
    (addrs : list string) (rate : FeeRate) (useAll useUnconf : bool) (sel : Selection) :
  0 <= networkMinRelayFee cfg ->
  selectInputUtxos toBaseDenominationNumber isConfirmedUtxo sortUtxos cfg
    unusedUtxos outputTotal addrs rate useAll useUnconf = Ok sel ->
  0 <= selFeeSat sel.
Proof.
  intros Hr H. apply selectInputUtxos_shape in H.
  destruct H as [[_ ->] | [(_ & _ & -> & _) | [(_ & _ & -> & _) | (_ & _ & ->)]]];
    try lia;
    match goal with |- 0 <= estimateTxFee _ ?r ?i ?c ?a =>
      pose proof (estimateTxFee_relay r i c a); lia end.
Qed.

(** C1.  Every plan [buildPaymentTx] returns conserves value: the
    selected inputs sum to the external outputs plus the change outputs
    plus the fee, in base units.  When the candidate utxos have
    non-negative values (and [sortUtxos] only returns candidates it was
    given) and the dust threshold and the relay fee of the configuration
    are non-negative, every one of these amounts is non-negative. *)
Theorem buildPaymentTx_conserves_value (unusedUtxos : list UtxoInfo)
    (desiredOutputs : list TxOutput) (changeAddress : string) (rate : FeeRate)
    (useAll useUnconf : option bool) (tx : PaymentTx) :
  buildPaymentTx isValidAddress toBaseDenominationNumber isConfirmedUtxo sortUtxos cfg
    unusedUtxos desiredOutputs changeAddress rate useAll useUnconf = Ok tx ->
  sumInputs (inputs tx)
    = sumOutputs (externalOutputs tx) + sumOutputs (changeOutputs tx) + fee tx
  /\
  ((forall l x, In x (sortUtxos l) -> In x l) ->
   Forall (fun u => forall s, utxoSatoshis toBaseDenominationNumber u = Some s -> 0 <= s)
          unusedUtxos ->
   0 <= dustThreshold cfg ->
   0 <= networkMinRelayFee cfg ->
   Forall (fun u => 0 <= inputSat u) (inputs tx) /\
   Forall (fun o => 0 <= outSat o) (externalOutputs tx) /\
   Forall (fun o => 0 <= outSat o) (changeOutputs tx) /\
   0 <= fee tx).
Proof.
  intros H. apply buildPaymentTx_inv in H.
  destruct H as (ext0 & sel & fee1 & Hv & Ha & Hs & Hin & Hw & Hc & Ho).
  split.
  - rewrite Hin, (selectInputUtxos_total _ _ _ _ _ _ _ Hs).
    rewrite (accountForSweep_sum _ _ _ _ _ _ Hw).
    apply handleChange_sum in Hc. lia.
  - intros Hsort Hpos Hdust Hrelay.
    pose proof (selectInputUtxos_fee_nonneg _ _ _ _ _ _ _ Hrelay Hs) as Hf0.
    apply validateOutputs_Ok in Hv. destruct Hv as [Hv _].
    apply handleChange_nonneg in Hc. destruct Hc as [Hch Hfee].
    apply accountForSweep_Ok in Hw.
    repeat split.
    + rewrite Hin. apply List.Forall_forall. intros u Hu.
      destruct (selectInputUtxos_In _ _ _ _ _ _ _ Hsort Hs u Hu) as [Hu1 Hu2].
      rewrite List.Forall_forall in Hpos. exact (Hpos _ Hu1 _ Hu2).
    + destruct Hw as [(_ & -> & _) | (_ & _ & _ & Hw)].
      * eapply List.Forall_impl; [|exact Hv]. simpl. intros; lia.
      * cbv zeta in Hw. destruct Hw as (_ & HF & _).
        eapply List.Forall_impl; [|exact HF]. simpl. intros; lia.
    + eapply List.Forall_impl; [|exact Hch]. simpl. intros; lia.
    + apply Hfee; [exact Hrelay|].
      destruct Hw as [(_ & _ & _ & ->) | (_ & _ & Hn & Hw)]; [exact Hf0|].
      cbv zeta in Hw. destruct Hw as (_ & _ & -> & _).
      apply Z.mul_nonneg_nonneg; [|lia].
      apply Qceiling_quot_nonneg; assumption.
Qed.

(** *** Dust and minimum change *)

Lemma handleChange_minChange (unusedCount : Z) (inputUtxos : list InputUtxo)
    (addrs : list string) (changeAddress : string) (rate : FeeRate)
    (inputTotal ext feeSat : Z) (changes : list TxOutputSatoshis) (fee' change' : Z) :
  handleChange cfg unusedCount inputUtxos addrs changeAddress rate inputTotal ext feeSat
    = Ok (changes, fee', change') ->
  let ws := createWeightedChangeOutputs
              (determineTargetChangeOutputCount cfg unusedCount (count inputUtxos))
              changeAddress in
  allocateChange cfg (inputTotal - ext - feeSat) (sumZ (map weight ws)) ws <> [] ->
  Forall (fun o => minChangeSat cfg <= outSat o) changes.
Proof.
  intros H. apply handleChange_inv in H. cbv zeta in *.
  set (T := inputTotal - ext - feeSat) in *.
  set (ws := createWeightedChangeOutputs _ _) in *.
  set (kept := allocateChange cfg T (sumZ (map weight ws)) ws) in *.
  pose proof (allocateChange_kept T (sumZ (map weight ws)) ws) as Hk. fold kept in Hk.
  intros Hne.
  destruct H as (HT & HL & Hc & [(Hp & Hlt & -> & Hf) | [(Hn & _) | (_ & _ & -> & Hf)]]).
  - apply List.Forall_map. eapply List.Forall_impl; [|exact Hk].
    intros o [_ Ho]. simpl.
    pose proof (Z.div_pos _ _ HL Hp). lia.
  - contradiction.
  - eapply List.Forall_impl; [|exact Hk]. intros o [_ Ho]. exact Ho.
Qed.

(** C2, as the code has it.  In every plan [buildPaymentTx] returns,
    every change output is above the dust threshold; the external
    outputs either carry the desired amounts, which are only checked to
    be positive, or (after the fee share was taken from them) are all
    above the dust threshold; and when at least one weighted share
    passed the filter, every change output is at least [minChangeSat]. *)
Theorem buildPaymentTx_output_floors (unusedUtxos : list UtxoInfo)
    (desiredOutputs : list TxOutput) (changeAddress : string) (rate : FeeRate)
    (useAll useUnconf : option bool) (tx : PaymentTx) :
  buildPaymentTx isValidAddress toBaseDenominationNumber isConfirmedUtxo sortUtxos cfg
    unusedUtxos desiredOutputs changeAddress rate useAll useUnconf = Ok tx ->
  Forall (fun o => dustThreshold cfg < outSat o) (changeOutputs tx)
  /\
  (Forall2 (fun d o => toBaseDenominationNumber (outValue d) = Some (outSat o) /\
                       0 < outSat o)
           desiredOutputs (externalOutputs tx)
   \/ Forall (fun o => dustThreshold cfg < outSat o) (externalOutputs tx))
  /\
  (survivingChange isValidAddress toBaseDenominationNumber isConfirmedUtxo sortUtxos cfg
     unusedUtxos desiredOutputs changeAddress rate useAll useUnconf <> [] ->
   Forall (fun o => minChangeSat cfg <= outSat o) (changeOutputs tx)).
Proof.
  intros H. apply buildPaymentTx_inv in H.
  destruct H as (ext0 & sel & fee1 & Hv & Ha & Hs & Hin & Hw & Hc & Ho).
  split; [|split].
  - apply handleChange_nonneg in Hc. tauto.
  - apply accountForSweep_Ok in Hw.
    destruct Hw as [(_ & -> & _) | (_ & _ & _ & Hw)].
    + left. apply validateOutputs_Ok in Hv. destruct Hv as [Hpos H2].
      clear -Hpos H2. induction H2 as [|d o ds os [_ Hd] _ IH]; [constructor|].
      inversion Hpos; subst. constructor; [split; assumption | apply IH; assumption].
    + right. cbv zeta in Hw. tauto.
  - unfold survivingChange. rewrite Hv, Hs, Hw.
    apply (handleChange_minChange _ _ _ _ _ _ _ _ _ _ _ Hc).
Qed.

(** *** Shortfall after selection: sweep or insufficient funds *)

Lemma changeShare_zero (w W : Z) : changeShare 0 w W = 0.
Proof.
  unfold changeShare.
  rewrite (Qfloor_comp _ 0%Q); [reflexivity|]. apply Qmult_0_l.
Qed.

Lemma allocateChange_zero (W : Z) (ws : list WeightedChangeOutput) :
  sumOutputs (allocateChange cfg 0 W ws) = 0.
Proof.
  unfold sumOutputs. induction ws as [|w rest IH]; simpl; [reflexivity|].
  rewrite changeShare_zero.
  destruct ((0 <=? dustThreshold cfg) || (0 <? minChangeSat cfg)); [exact IH|].
  simpl. fold (sumZ (map outSat (allocateChange cfg 0 W rest))). rewrite IH. reflexivity.
Qed.

(** The change block returns as soon as the change is non-negative and
    the shares kept do not exceed it. *)
Lemma handleChange_returns (unusedCount : Z) (inputUtxos : list InputUtxo)
    (addrs : list string) (changeAddress : string) (rate : FeeRate)
    (inputTotal ext feeSat : Z) :
  let T := inputTotal - ext - feeSat in
  let ws := createWeightedChangeOutputs
              (determineTargetChangeOutputCount cfg unusedCount (count inputUtxos))
              changeAddress in
  0 <= T ->
  sumOutputs (allocateChange cfg T (sumZ (map weight ws)) ws) <= T ->
  exists r,
    handleChange cfg unusedCount inputUtxos addrs changeAddress rate inputTotal ext feeSat
      = Ok r.
Proof.
  cbv zeta. intros HT Hk. unfold handleChange.
  set (T := inputTotal - ext - feeSat) in *.
  set (ws := createWeightedChangeOutputs _ _) in *.
  set (kept := allocateChange cfg T (sumZ (map weight ws)) ws) in *.
  set (recalc := estimateTxFee cfg rate (count inputUtxos) (lengthOr1 kept) addrs).
  destruct (T <? 0) eqn:ET; [lia|].
  destruct (feeSat >? recalc) eqn:EF.
  - destruct (T - sumOutputs kept + (feeSat - recalc) <? 0) eqn:EL; [lia|].
    match goal with |- context [if ?b then _ else _] => destruct b end; [eauto|].
    match goal with |- context [if ?b then _ else _] => destruct b end; eauto.
  - destruct (T - sumOutputs kept <? 0) eqn:EL; [lia|].
    match goal with |- context [if ?b then _ else _] => destruct b end; [eauto|].
    match goal with |- context [if ?b then _ else _] => destruct b end; eauto.
Qed.

Lemma subtractFeeShare_total (feeShare : Z) (ext : list TxOutputSatoshis) :
  forall i,
    Forall (fun o => dustThreshold cfg < outSat o - feeShare) ext ->
    subtractFeeShare cfg i feeShare ext = Ok (map (addSat (- feeShare)) ext).
Proof.
  induction ext as [|o rest IH]; intros i HF; simpl; [reflexivity|].
  inversion HF as [|o' l' Ho Hl]; subst.
  destruct (outSat o - feeShare <=? dustThreshold cfg) eqn:E; [lia|].
  rewrite (IH _ Hl). simpl. unfold addSat at 2. simpl. repeat (f_equal; try lia).
Qed.

(** C3.  When, after input selection, the external output total plus
    the fee exceeds the selected input total: if the output total equals
    the input total, the fee becomes [feeShare * externalCount] with
    [feeShare = ceil(fee / externalCount)], every external output gives
    up [feeShare], and the call throws the dust error exactly when one
    of them is then at or under the dust threshold; otherwise the call
    throws the insufficient-funds error, which reports the output total
    with the fee and the input total. *)
Theorem buildPaymentTx_shortfall (unusedUtxos : list UtxoInfo)
    (desiredOutputs : list TxOutput) (changeAddress : string) (rate : FeeRate)
    (useAll useUnconf : option bool) (ext0 : list TxOutputSatoshis) (sel : Selection) :
  validateOutputs isValidAddress toBaseDenominationNumber 0 desiredOutputs = Ok ext0 ->
  isValidAddress changeAddress = true ->
  selectInputUtxos toBaseDenominationNumber isConfirmedUtxo sortUtxos cfg
    unusedUtxos (sumOutputs ext0) (map satAddress ext0) rate
    (orFalse useAll) (orFalse useUnconf) = Ok sel ->
  selectedTotalSat sel < sumOutputs ext0 + selFeeSat sel ->
  let run :=
    buildPaymentTx isValidAddress toBaseDenominationNumber isConfirmedUtxo sortUtxos cfg
      unusedUtxos desiredOutputs changeAddress rate useAll useUnconf in
  let feeShare := Qceiling (inject_Z (selFeeSat sel) / inject_Z (count ext0)) in
  (sumOutputs ext0 = selectedTotalSat sel ->
   ((exists i sat, run = Throw (DustOutput i sat feeShare)) <->
    Exists (fun o => outSat o - feeShare <= dustThreshold cfg) ext0)
   /\
   (ext0 <> [] ->
    Forall (fun o => dustThreshold cfg < outSat o - feeShare) ext0 ->
    accountForSweep cfg ext0 (sumOutputs ext0) (selectedTotalSat sel) (selFeeSat sel)
      = Ok (map (addSat (- feeShare)) ext0,
            sumOutputs ext0 - feeShare * count ext0,
            feeShare * count ext0) /\
    exists tx,
      run = Ok tx /\
      externalOutputs tx = map (addSat (- feeShare)) ext0 /\
      sumOutputs (changeOutputs tx) + fee tx = feeShare * count ext0))
  /\
  (sumOutputs ext0 <> selectedTotalSat sel ->
   let e := InsufficientFunds (selectedTotalSat sel) (sumOutputs ext0) (selFeeSat sel) in
   run = Throw e /\
   requiredAmount e = Some (sumOutputs ext0 + selFeeSat sel) /\
   availableAmount e = Some (selectedTotalSat sel)).
Proof.
  intros Hv Ha Hs Hshort. cbv zeta.
  set (feeShare := Qceiling (inject_Z (selFeeSat sel) / inject_Z (count ext0))).
  assert (Hgt : (sumOutputs ext0 + selFeeSat sel >? selectedTotalSat sel) = true) by lia.
  assert (Hrun :
    buildPaymentTx isValidAddress toBaseDenominationNumber isConfirmedUtxo sortUtxos cfg
      unusedUtxos desiredOutputs changeAddress rate useAll useUnconf
    = bind (accountForSweep cfg ext0 (sumOutputs ext0) (selectedTotalSat sel) (selFeeSat sel))
        (fun swept =>
           let '(externalOutputs, externalOutputTotal, feeSat) := swept in
           bind (handleChange cfg (count unusedUtxos) (selectedUtxos sel)
                   (map satAddress ext0) changeAddress rate (selectedTotalSat sel)
                   externalOutputTotal feeSat)
             (fun changed =>
                let '(changeOutputs, feeSat, totalChangeSat) := changed in
                Ok {| inputs := selectedUtxos sel;
                      outputs := externalOutputs ++ changeOutputs;
                      fee := feeSat;
                      change := totalChangeSat;
                      changeAddress :=
                        match changeOutputs with
                        | [o] => Some (satAddress o)
                        | _ => None
                        end;
                      changeOutputs := changeOutputs;
                      externalOutputs := externalOutputs;
                      externalOutputTotal := externalOutputTotal;
                      rawHex := EmptyString;
                      rawHash := EmptyString |}))).
  { unfold buildPaymentTx. rewrite Hv. simpl. rewrite Ha. simpl. rewrite Hs. reflexivity. }
  rewrite Hrun. clear Hrun. unfold accountForSweep. rewrite Hgt.
  split.
  - intros Heq. rewrite (proj2 (Z.eqb_eq _ _) Heq).
    destruct (count ext0 =? 0) eqn:E0.
    + apply Z.eqb_eq, count_nil_iff in E0. subst ext0. split.
      * split; [intros (i & sat & H); discriminate | intros H; inversion H].
      * intros Hne. contradiction.
    + fold feeShare.
      destruct (subtractFeeShare cfg 0 feeShare ext0) as [outs|e] eqn:Esub.
      * apply subtractFeeShare_Ok in Esub. destruct Esub as [-> HF].
        assert (Hno : ~ Exists (fun o => outSat o - feeShare <= dustThreshold cfg) ext0).
        { intros Hex. apply List.Exists_exists in Hex. destruct Hex as (o & Ho & Hle).
          rewrite List.Forall_forall in HF.
          specialize (HF (addSat (- feeShare) o) (in_map _ _ _ Ho)). simpl in HF. lia. }
        cbn [bind].
        destruct (handleChange_returns (count unusedUtxos) (selectedUtxos sel)
                    (map satAddress ext0) changeAddress rate (selectedTotalSat sel)
                    (sumOutputs ext0 - feeShare * count ext0) (feeShare * count ext0))
          as [[[changes fee'] change'] Hh].
        { lia. }
        { replace (selectedTotalSat sel - (sumOutputs ext0 - feeShare * count ext0)
                   - feeShare * count ext0) with 0 by lia.
          rewrite allocateChange_zero. lia. }
        rewrite Hh. cbn [bind]. split.
        -- split; [intros (i & sat & H); discriminate | intros H; contradiction].
        -- intros _ _. split; [reflexivity|].
           eexists. split; [reflexivity|]. simpl. split; [reflexivity|].
           apply handleChange_sum in Hh. lia.
      * cbn [bind]. apply subtractFeeShare_Throw in Esub.
        destruct Esub as [(j & sat & ->) Hex]. split.
        -- split; [intros _; exact Hex | intros _; eauto].
        -- intros _ HF. exfalso.
           apply List.Exists_exists in Hex. destruct Hex as (o & Ho & Hle).
           rewrite List.Forall_forall in HF. specialize (HF o Ho). simpl in HF. lia.
  - intros Hne. rewrite (proj2 (Z.eqb_neq _ _) Hne). cbn [bind].
    repeat split.
Qed.

(** *** Loose change *)

(** What the code does with loose change: with at least one surviving
    change output and loose change strictly above their number, each
    gets [floor(loose / changeCount)] and the fee the remainder. *)
Lemma handleChange_redistributes (unusedCount : Z) (inputUtxos : list InputUtxo)
    (addrs : list string) (changeAddress : string) (rate : FeeRate)
    (inputTotal ext feeSat : Z) (changes : list TxOutputSatoshis) (fee' change' : Z) :
  handleChange cfg unusedCount inputUtxos addrs changeAddress rate inputTotal ext feeSat
    = Ok (changes, fee', change') ->
  let T := inputTotal - ext - feeSat in
  let ws := createWeightedChangeOutputs
              (determineTargetChangeOutputCount cfg unusedCount (count inputUtxos))
              changeAddress in
  let kept := allocateChange cfg T (sumZ (map weight ws)) ws in
  let recalculatedFee := estimateTxFee cfg rate (count inputUtxos) (lengthOr1 kept) addrs in
  let fee1 := if feeSat >? recalculatedFee then recalculatedFee else feeSat in
  let loose := T - sumOutputs kept + (feeSat - fee1) in
  0 < count kept ->
  count kept < loose ->
  changes = map (addSat (Z.div loose (count kept))) kept /\
  fee' = fee1 + Z.modulo loose (count kept).
Proof.
  intros H. apply handleChange_inv in H. cbv zeta in *.
  set (T := inputTotal - ext - feeSat) in *.
  set (ws := createWeightedChangeOutputs _ _) in *.
  set (kept := allocateChange cfg T (sumZ (map weight ws)) ws) in *.
  set (recalc := estimateTxFee cfg rate (count inputUtxos) (lengthOr1 kept) addrs) in *.
  set (fee1 := if feeSat >? recalc then recalc else feeSat) in *.
  set (loose := T - sumOutputs kept + (feeSat - fee1)) in *.
  intros Hpos Hlt.
  destruct H as (HT & HL & Hc & [(Hp & _ & -> & Hf) | [(Hn & _) | (Hle & _)]]).
  - split; [reflexivity|]. rewrite Hf, Z.mod_eq by lia. lia.
  - rewrite Hn in Hpos. unfold count in Hpos. simpl in Hpos. lia.
  - specialize (Hle Hpos). lia.
Qed.

(** *** Lower bounds of the final fee *)

Lemma determineTargetChangeOutputCount_pos (unusedCount inputCount : Z) :
  1 <= determineTargetChangeOutputCount cfg unusedCount inputCount.
Proof.
  unfold determineTargetChangeOutputCount.
  destruct (Z.ltb_spec (unusedCount - inputCount) (targetUtxoPoolSize cfg)); lia.
Qed.

Lemma createWeightedChangeOutputs_count (k : Z) (a : string) :
  count (createWeightedChangeOutputs k a) = Z.max 0 k.
Proof.
  unfold count, createWeightedChangeOutputs.
  rewrite List.length_map, List.length_seq. lia.
Qed.

Lemma weight_le_sum (ws : list WeightedChangeOutput) :
  Forall (fun w => 0 <= weight w) ws ->
  Forall (fun w => 0 <= weight w <= sumZ (map weight ws)) ws.
Proof.
  induction 1 as [|w rest Hw Hrest IH]; [constructor|].
  assert (Hs : 0 <= sumZ (map weight rest)).
  { clear IH. induction Hrest as [|x l Hx _ IHl]; simpl; lia. }
  constructor; [simpl; lia|].
  eapply List.Forall_impl; [|exact IH]. simpl. intros x Hx. lia.
Qed.

Lemma createWeightedChangeOutputs_weights (k : Z) (a : string) :
  let ws := createWeightedChangeOutputs k a in
  Forall (fun w => 0 <= weight w <= sumZ (map weight ws)) ws.
Proof.
  cbv zeta. apply weight_le_sum. unfold createWeightedChangeOutputs.
  apply List.Forall_map. apply List.Forall_forall. intros i _. simpl.
  apply Z.pow_nonneg. lia.
Qed.

Lemma changeShare_le (T w W : Z) :
  0 <= T -> 0 <= w <= W -> changeShare T w W <= T.
Proof.
  intros HT Hw. unfold changeShare.
  apply Z.le_trans with (Qfloor (inject_Z T)); [|rewrite Qfloor_Z; lia].
  apply Qfloor_resp_le.
  unfold Qle, Qdiv, Qmult, Qinv, inject_Z. simpl.
  destruct W as [|p|p]; simpl; try lia.
  rewrite !Z.mul_1_r. nia.
Qed.

Lemma allocateChange_all_dropped (T W : Z) (ws : list WeightedChangeOutput) :
  0 <= T -> T <= dustThreshold cfg ->
  Forall (fun w => 0 <= weight w <= W) ws ->
  allocateChange cfg T W ws = [].
Proof.
  intros HT Hd HF. induction HF as [|w rest Hw _ IH]; simpl; [reflexivity|].
  pose proof (changeShare_le T (weight w) W HT Hw) as Hs.
  destruct (changeShare T (weight w) W <=? dustThreshold cfg) eqn:E; [exact IH | lia].
Qed.

Lemma lengthOr1_bounds {A} (l : list A) :
  1 <= lengthOr1 l /\ count l <= lengthOr1 l /\ (l = [] -> lengthOr1 l = 1).
Proof.
  unfold lengthOr1. pose proof (count_nonneg l).
  destruct (Z.eqb_spec (count l) 0) as [E|E].
  - repeat split; lia.
  - repeat split; try lia. intros ->. unfold count in E. simpl in E. lia.
Qed.

Lemma feeRateToSatoshis_mono (m : FeeRate) (i c c' : Z) (addrs : list string) :
  (0 <= feeRate m)%Q -> c <= c' ->
  (feeRateToSatoshis cfg m i c addrs <= feeRateToSatoshis cfg m i c' addrs)%Q.
Proof.
  intros Hm Hc. unfold feeRateToSatoshis.
  destruct (feeRateType m); try apply Qle_refl.
  apply roundDouble_mono.
  rewrite (Qmult_comm (parseFloat (feeRate m))),
    (Qmult_comm (parseFloat (feeRate m)) (inject_Z _)).
  apply Qmult_le_compat_r; [|apply roundDouble_nonneg; exact Hm].
  rewrite <- Zle_Qle. unfold estimateTxSize. lia.
Qed.

Lemma minTxFee_below (m rate : FeeRate) (i c c0 : Z) (addrs : list string) (f : Z) :
  minTxFee cfg = Some m -> (0 <= feeRate m)%Q -> c <= c0 ->
  estimateTxFee cfg rate i c0 addrs <= f ->
  (feeRateToSatoshis cfg m i c addrs <= inject_Z f)%Q.
Proof.
  intros Hm Hr Hc Hf.
  eapply Qle_trans; [apply (feeRateToSatoshis_mono m i c c0 addrs Hr Hc)|].
  eapply Qle_trans; [apply (estimateTxFee_minTxFee rate m i c0 addrs Hm)|].
  rewrite <- Zle_Qle. exact Hf.
Qed.

Lemma map_satAddress_addSat (x : Z) (l : list TxOutputSatoshis) :
  map satAddress (map (addSat x) l) = map satAddress l.
Proof. rewrite map_map. apply map_ext. reflexivity. Qed.

Lemma count_map {A B} (f : A -> B) (l : list A) : count (map f l) = count l.
Proof. unfold count. rewrite List.length_map. reflexivity. Qed.

(** The final fee of a plan with at least one input is at least the
    clamped estimate of some shape [c0]; outside sweep mode that shape
    has at least as many change outputs as the plan. *)
Lemma buildPaymentTx_fee_estimate (unusedUtxos : list UtxoInfo)
    (desiredOutputs : list TxOutput) (changeAddress : string) (rate : FeeRate)
    (useAll useUnconf : option bool) (tx : PaymentTx) :
  buildPaymentTx isValidAddress toBaseDenominationNumber isConfirmedUtxo sortUtxos cfg
    unusedUtxos desiredOutputs changeAddress rate useAll useUnconf = Ok tx ->
  inputs tx <> [] ->
  exists c0,
    estimateTxFee cfg rate (count (inputs tx)) c0 (map satAddress (externalOutputs tx))
      <= fee tx /\
    0 <= c0 /\
    (orFalse useAll = false -> count (changeOutputs tx) <= c0).
Proof.
  intros H Hne. apply buildPaymentTx_inv in H.
  destruct H as (ext0 & sel & feeIn & Hv & Ha & Hs & Hin & Hw & Hc & Ho).
  rewrite Hin in *.
  (* the sweeping block keeps the addresses and does not lower the fee *)
  apply accountForSweep_Ok in Hw.
  assert (Hsw : map satAddress (externalOutputs tx) = map satAddress ext0 /\
                selFeeSat sel <= feeIn /\
                (selectedUtxos sel = [] -> selFeeSat sel = 0 ->
                 selectedTotalSat sel = 0 -> False) /\
                (sumOutputs ext0 + selFeeSat sel <= selectedTotalSat sel ->
                 feeIn = selFeeSat sel /\ externalOutputTotal tx = sumOutputs ext0)).
  { destruct Hw as [(Hfit & -> & -> & ->) | (Hshort & Heq & Hcnt & Hw)].
    - repeat split; try lia; intros He _ _; exact (Hne He).
    - cbv zeta in Hw. destruct Hw as (-> & _ & -> & ->).
      rewrite map_satAddress_addSat.
      pose proof (Qceiling_quot_mul (selFeeSat sel) (count ext0) Hcnt).
      repeat split; try lia; intros He _ _; exact (Hne He). }
  destruct Hsw as (Haddr & Hfee & Hnonempty & Hfit). rewrite Haddr.
  (* the change block *)
  pose proof Hc as Hinv. apply handleChange_inv in Hinv. cbv zeta in Hinv.
  set (addrs := map satAddress ext0) in *.
  set (n := count (selectedUtxos sel)) in *.
  set (T := selectedTotalSat sel - externalOutputTotal tx - feeIn) in *.
  set (k := determineTargetChangeOutputCount cfg (count unusedUtxos) n) in *.
  set (ws := createWeightedChangeOutputs k changeAddress) in *.
  set (kept := allocateChange cfg T (sumZ (map weight ws)) ws) in *.
  set (recalc := estimateTxFee cfg rate n (lengthOr1 kept) addrs) in *.
  set (fee1 := if feeIn >? recalc then recalc else feeIn) in *.
  set (loose1 := T - sumOutputs kept + (feeIn - fee1)) in *.
  pose proof (determineTargetChangeOutputCount_pos (count unusedUtxos) n) as Hk. fold k in Hk.
  assert (Hkept : count kept <= k).
  { pose proof (allocateChange_count T (sumZ (map weight ws)) ws) as Hle. fold kept in Hle.
    pose proof (createWeightedChangeOutputs_count k changeAddress) as Hws. fold ws in Hws.
    lia. }
  destruct (lengthOr1_bounds kept) as (Hl1 & Hl2 & Hl3).
  assert (Hfee1 : (fee1 = recalc /\ recalc < feeIn) \/ (fee1 = feeIn /\ feeIn <= recalc)).
  { unfold fee1. destruct (Z.gtb_spec feeIn recalc); [left | right]; lia. }
  destruct Hinv as (HT & HL & _ & Hcases).
  assert (Hfinal : fee1 <= fee tx /\
                   (count (changeOutputs tx) = count kept \/
                    (kept = [] /\ count (changeOutputs tx) = 1 /\
                     dustThreshold cfg < loose1 /\ fee tx = fee1))).
  { destruct Hcases as [(Hp & Hlt & -> & Hf) | [(Hn & Hd & -> & Hf) | (_ & _ & -> & Hf)]].
    - pose proof (Z.mul_div_le loose1 (count kept) Hp). rewrite count_map.
      split; [lia | now left].
    - split; [lia|]. right. repeat split; try assumption.
    - split; [lia | now left]. }
  destruct Hfinal as [Hge Hcount].
  apply selectInputUtxos_shape in Hs.
  destruct Hs as [(Hall & Hsel) | [(Hall & (u & Hu) & Hsel & Hwin) | [(Hall & He & Hz & Hz') | (Hall & Hn0 & Hsel)]]].
  - (* sweep mode: the estimate has no change output *)
    destruct Hfee1 as [[E1 _]|[E1 _]].
    + exists (lengthOr1 kept). fold recalc. split; [lia|]. split; [lia|].
      rewrite Hall. discriminate.
    + exists 0. fold n in Hsel. rewrite <- Hsel. split; [lia|]. split; [lia|].
      rewrite Hall. discriminate.
  - (* the ideal single input: no change share survives *)
    destruct (Hfit ltac:(lia)) as [Hf0 Ht0].
    assert (HTd : T <= dustThreshold cfg) by (unfold T; lia).
    assert (Hnil : kept = []).
    { apply allocateChange_all_dropped; [exact HT | exact HTd|].
      apply createWeightedChangeOutputs_weights. }
    assert (Hn1 : n = 1) by (unfold n; rewrite Hu; reflexivity).
    assert (Hs0 : sumOutputs kept = 0) by (rewrite Hnil; reflexivity).
    destruct Hcount as [Hcnt0 | (_ & Hc1 & Hd & Hf)].
    + rewrite Hnil in Hcnt0. change (count (@nil TxOutputSatoshis)) with 0 in Hcnt0.
      destruct Hfee1 as [[E1 _]|[E1 _]].
      * exists (lengthOr1 kept). fold recalc. split; [lia|]. split; lia.
      * exists 0. rewrite <- Hn1 in Hsel. rewrite <- Hsel. split; [lia|]. split; lia.
    + destruct Hfee1 as [[E1 _]|[E1 _]].
      * exists (lengthOr1 kept). fold recalc. rewrite (Hl3 Hnil). split; [lia|]. split; lia.
      * exfalso. unfold loose1 in Hd. lia.
  - (* nothing selected: excluded, the plan has an input *)
    exfalso. exact (Hnonempty He Hz Hz').
  - (* the incremental loop: the estimate is for [k] change outputs *)
    fold n k in Hsel.
    destruct Hfee1 as [[E1 _]|[E1 _]].
    + exists (lengthOr1 kept). fold recalc. split; [lia|]. split; [lia|].
      intros _. destruct Hcount as [-> | (Hnil & -> & _)]; [lia|]. lia.
    + exists k. rewrite <- Hsel. split; [lia|]. split; [lia|].
      intros _. destruct Hcount as [-> | (Hnil & -> & _)]; lia.
Qed.

(** C5, as the code has it.  Every fee estimate is clamped from below
    by [minTxFee] (if configured) and [networkMinRelayFee] and then
    ceiled, for the shape it is computed for.  For every plan with at
    least one input that [buildPaymentTx] returns, the final fee is at
    least such an estimate for the plan's inputs and external outputs,
    hence at least [networkMinRelayFee]; and when [minTxFee] is
    configured with a non-negative rate, the final fee is at least its
    base-unit equivalent for the plan's inputs and external outputs
    with no change output, and, outside sweep mode, for the plan's own
    number of change outputs.  The estimates and the equivalent of
    [minTxFee] are the products of doubles that the code forms. *)
Theorem buildPaymentTx_fee_floor (unusedUtxos : list UtxoInfo)
    (desiredOutputs : list TxOutput) (changeAddress : string) (rate : FeeRate)
    (useAll useUnconf : option bool) (tx : PaymentTx) :
  (forall r i c addrs,
     networkMinRelayFee cfg <= estimateTxFee cfg r i c addrs /\
     (forall m, minTxFee cfg = Some m ->
        (feeRateToSatoshis cfg m i c addrs <= inject_Z (estimateTxFee cfg r i c addrs))%Q))
  /\
  (buildPaymentTx isValidAddress toBaseDenominationNumber isConfirmedUtxo sortUtxos cfg
     unusedUtxos desiredOutputs changeAddress rate useAll useUnconf = Ok tx ->
   inputs tx <> [] ->
   let addrs := map satAddress (externalOutputs tx) in
   (exists c0, 0 <= c0 /\ estimateTxFee cfg rate (count (inputs tx)) c0 addrs <= fee tx)
   /\
   networkMinRelayFee cfg <= fee tx
   /\
   (forall m, minTxFee cfg = Some m -> (0 <= feeRate m)%Q ->
      (feeRateToSatoshis cfg m (count (inputs tx)) 0 addrs <= inject_Z (fee tx))%Q /\
      (orFalse useAll = false ->
       (feeRateToSatoshis cfg m (count (inputs tx)) (count (changeOutputs tx)) addrs
          <= inject_Z (fee tx))%Q))).
Proof.
  split.
  - intros r i c addrs. split; [apply estimateTxFee_relay|].
    intros m Hm. apply estimateTxFee_minTxFee. exact Hm.
  - intros H Hne. cbv zeta.
    destruct (buildPaymentTx_fee_estimate _ _ _ _ _ _ _ H Hne) as (c0 & Hest & Hc0 & Hcnt).
    split; [exists c0; split; assumption|]. split.
    + pose proof (estimateTxFee_relay rate (count (inputs tx)) c0
                    (map satAddress (externalOutputs tx))). lia.
    + intros m Hm Hr. split.
      * exact (minTxFee_below m rate _ 0 c0 _ _ Hm Hr Hc0 Hest).
      * intros Hmode. exact (minTxFee_below m rate _ _ c0 _ _ Hm Hr (Hcnt Hmode) Hest).
Qed.

(** *** The two internal assertions never fire *)

Lemma changeShare_div (T w W : Z) :
  0 < W -> changeShare T w W = Z.div (T * w) W.
Proof.
  intros HW. unfold changeShare, Qfloor, Qdiv, Qmult, Qinv, inject_Z.
  destruct W as [|p|p]; try lia. simpl. rewrite !Z.mul_1_r. reflexivity.
Qed.

Lemma div_add_le (a b W : Z) : 0 < W -> Z.div a W + Z.div b W <= Z.div (a + b) W.
Proof.
  intros HW. apply Z.div_le_lower_bound; [exact HW|].
  pose proof (Z.mul_div_le a W HW). pose proof (Z.mul_div_le b W HW). lia.
Qed.

Lemma allocateChange_sum_le (T W : Z) (ws : list WeightedChangeOutput) :
  0 <= T -> 0 < W -> Forall (fun w => 0 <= weight w) ws ->
  sumOutputs (allocateChange cfg T W ws) <= Z.div (T * sumZ (map weight ws)) W.
Proof.
  intros HT HW HF. unfold sumOutputs.
  induction HF as [|w rest Hw Hrest IH]; simpl.
  - rewrite Z.mul_0_r. rewrite Z.div_0_l by lia. lia.
  - assert (Hs : 0 <= sumZ (map weight rest)).
    { clear IH. induction Hrest as [|x l Hx _ IHl]; simpl; lia. }
    fold (sumZ (map weight rest)).
    assert (Hmono : Z.div (T * sumZ (map weight rest)) W
                    <= Z.div (T * (weight w + sumZ (map weight rest))) W).
    { apply Z.div_le_mono; [exact HW | nia]. }
    destruct ((changeShare T (weight w) W <=? dustThreshold cfg)
              || (changeShare T (weight w) W <? minChangeSat cfg)).
    + lia.
    + simpl. fold (sumZ (map outSat (allocateChange cfg T W rest))).
      rewrite (changeShare_div T (weight w) W HW).
      pose proof (div_add_le (T * weight w) (T * sumZ (map weight rest)) W HW) as Hadd.
      replace (T * (weight w + sumZ (map weight rest)))
        with (T * weight w + T * sumZ (map weight rest)) by lia.
      lia.
Qed.

Lemma allocateChange_within (T : Z) (k : Z) (a : string) :
  0 <= T ->
  let ws := createWeightedChangeOutputs k a in
  sumOutputs (allocateChange cfg T (sumZ (map weight ws)) ws) <= T.
Proof.
  intros HT. cbv zeta.
  set (ws := createWeightedChangeOutputs k a).
  assert (HF : Forall (fun w => 0 <= weight w) ws).
  { pose proof (createWeightedChangeOutputs_weights k a) as H. cbv zeta in H. fold ws in H.
    eapply List.Forall_impl; [|exact H]. simpl. intros w Hw. lia. }
  destruct ws as [|w rest] eqn:Ews; [unfold sumOutputs; simpl; lia|].
  rewrite <- Ews in *.
  assert (HW : 0 < sumZ (map weight ws)).
  { assert (Hpos : Forall (fun w => 0 < weight w) ws).
    { unfold ws, createWeightedChangeOutputs. apply List.Forall_map.
      apply List.Forall_forall. intros i _. simpl. apply Z.pow_pos_nonneg; lia. }
    rewrite Ews in Hpos |- *. inversion Hpos as [|w' l' Hw Hl]; subst.
    assert (0 <= sumZ (map weight rest)).
    { clear -Hl. induction Hl as [|x l Hx _ IHl]; simpl; lia. }
    simpl. lia. }
  pose proof (allocateChange_sum_le T (sumZ (map weight ws)) ws HT HW HF) as Hle.
  rewrite Z.div_mul in Hle by lia. exact Hle.
Qed.

Lemma handleChange_total (unusedCount : Z) (inputUtxos : list InputUtxo)
    (addrs : list string) (changeAddress : string) (rate : FeeRate)
    (inputTotal ext feeSat : Z) :
  0 <= inputTotal - ext - feeSat ->
  exists r,
    handleChange cfg unusedCount inputUtxos addrs changeAddress rate inputTotal ext feeSat
      = Ok r.
Proof.
  intros HT. apply handleChange_returns; [exact HT|].
  apply allocateChange_within. exact HT.
Qed.

Lemma validateOutputs_errors (desiredOutputs : list TxOutput) :
  forall i e,
    validateOutputs isValidAddress toBaseDenominationNumber i desiredOutputs = Throw e ->
    assertionError e = false.
Proof.
  induction desiredOutputs as [|d rest IH]; simpl; intros i e H; [discriminate|].
  destruct (negb (isValidAddress (address d))); [injection H as <-; reflexivity|].
  destruct (toBaseDenominationNumber (outValue d)) as [sat|];
    [|injection H as <-; reflexivity].
  destruct (sat <=? 0); [injection H as <-; reflexivity|].
  destruct (validateOutputs _ _ (S i) rest) as [r|e'] eqn:Hr; simpl in H; [discriminate|].
  injection H as <-. exact (IH _ _ Hr).
Qed.

Lemma convertUtxos_errors (useUnconf : bool) (unusedUtxos : list UtxoInfo) :
  forall e,
    convertUtxos toBaseDenominationNumber isConfirmedUtxo useUnconf unusedUtxos = Throw e ->
    assertionError e = false.
Proof.
  induction unusedUtxos as [|x rest IH]; simpl; intros e H; [discriminate|].
  destruct (negb useUnconf && negb (isConfirmedUtxo x)); [exact (IH _ H)|].
  destruct (utxoSatoshis toBaseDenominationNumber x); [|injection H as <-; reflexivity].
  destruct (convertUtxos _ _ useUnconf rest) as [r|e'] eqn:Hr; simpl in H; [discriminate|].
  injection H as <-. exact (IH _ eq_refl).
Qed.

Lemma selectInputUtxos_errors (unusedUtxos : list UtxoInfo) (outputTotal : Z)
    (addrs : list string) (rate : FeeRate) (useAll useUnconf : bool) (e : BuildError) :
  selectInputUtxos toBaseDenominationNumber isConfirmedUtxo sortUtxos cfg
    unusedUtxos outputTotal addrs rate useAll useUnconf = Throw e ->
  assertionError e = false.
Proof.
  unfold selectInputUtxos.
  destruct (convertUtxos _ _ useUnconf unusedUtxos) as [utxos|e'] eqn:Hc; simpl.
  - destruct useAll; [discriminate|]. destruct (findIdeal _ _ utxos); discriminate.
  - intros [= <-]. exact (convertUtxos_errors _ _ _ Hc).
Qed.

Lemma accountForSweep_errors (ext : list TxOutputSatoshis)
    (extTotal inputTotal feeSat : Z) (e : BuildError) :
  accountForSweep cfg ext extTotal inputTotal feeSat = Throw e ->
  assertionError e = false.
Proof.
  unfold accountForSweep.
  destruct (extTotal + feeSat >? inputTotal); [|discriminate].
  destruct (extTotal =? inputTotal); [|intros [= <-]; reflexivity].
  destruct (count ext =? 0); [intros [= <-]; reflexivity|].
  destruct (subtractFeeShare cfg 0 _ ext) as [r|e'] eqn:Hs; simpl; [discriminate|].
  intros [= <-]. apply subtractFeeShare_Throw in Hs.
  destruct Hs as [(j & sat & ->) _]. reflexivity.
Qed.

(** X14.  The change block always returns after the sweeping block: neither
    "totalChangeSat is negative" nor "looseChange should never be
    negative" is ever thrown. *)
Theorem buildPaymentTx_assertions_hold (unusedUtxos : list UtxoInfo)
    (desiredOutputs : list TxOutput) (changeAddress : string) (rate : FeeRate)
    (useAll useUnconf : option bool) (e : BuildError) :
  buildPaymentTx isValidAddress toBaseDenominationNumber isConfirmedUtxo sortUtxos cfg
    unusedUtxos desiredOutputs changeAddress rate useAll useUnconf = Throw e ->
  e <> NegativeTotalChange /\ e <> NegativeLooseChange.
Proof.
  intros H.
  assert (He : assertionError e = false).
  { unfold buildPaymentTx in H.
    destruct (validateOutputs _ _ 0 desiredOutputs) as [ext0|e0] eqn:Hv; simpl in H;
      [|injection H as <-; exact (validateOutputs_errors _ _ _ Hv)].
    destruct (isValidAddress changeAddress); simpl in H; [|injection H as <-; reflexivity].
    destruct (selectInputUtxos _ _ _ _ unusedUtxos _ _ rate _ _) as [sel|e0] eqn:Hs;
      simpl in H; [|injection H as <-; exact (selectInputUtxos_errors _ _ _ _ _ _ _ Hs)].
    destruct (accountForSweep cfg ext0 _ _ _) as [[[outs extT] fee1]|e0] eqn:Hw;
      simpl in H; [|injection H as <-; exact (accountForSweep_errors _ _ _ _ _ Hw)].
    exfalso.
    assert (HT : 0 <= selectedTotalSat sel - extT - fee1).
    { apply accountForSweep_Ok in Hw.
      destruct Hw as [(Hfit & _ & -> & ->) | (_ & Heq & _ & Hw)]; [lia|].
      cbv zeta in Hw. destruct Hw as (_ & _ & -> & ->). lia. }
    destruct (handleChange_total (count unusedUtxos) (selectedUtxos sel)
                (map satAddress ext0) changeAddress rate _ _ _ HT) as [[[c f] t] Hh].
    rewrite Hh in H. simpl in H. discriminate. }
  split; intros ->; discriminate.
Qed.

End PlannerFacts.

(** *** The fixture's [sortUtxos] returns the candidates it was given *)

Module FixtureFacts.
Import Fixture.

Lemma insertUtxo_In (x : InputUtxo) (l : list InputUtxo) :
  forall y, In y (insertUtxo x l) -> y = x \/ In y l.
Proof.
  induction l as [|z rest IH]; simpl; intros y H.
  - destruct H as [<-|[]]. now left.
  - destruct (utxoBefore x z); simpl in H.
    + destruct H as [<-|H]; [now left | now right].
    + destruct H as [<-|H]; [right; now left|].
      destruct (IH _ H) as [->|H']; [now left | right; now right].
Qed.

Lemma sortUtxos_In (l : list InputUtxo) :
  forall x, In x (sortUtxos l) -> In x l.
Proof.
  induction l as [|z rest IH]; simpl; intros x H; [exact H|].
  apply insertUtxo_In in H. destruct H as [->|H]; [now left | right; now apply IH].
Qed.

End FixtureFacts.

(** *** The boundary scenarios of the spec, run on the model *)

Module ScenarioFacts.
Import Fixture Scenario.
Local Open Scope string_scope.

(** Scenario 1: the ideal single input. *)
Example ideal_single_input :
  amountsOf (build config
               [utxo "a" 0 10000 (Some "5"); utxo "b" 0 50000 (Some "5")]
               [out "A" "8000"] "C" (perWeight 10) None None)
  = Ok ([10000], [8000], [], 2000).
Proof. vm_compute. reflexivity. Qed.

(** Scenario 2: sweeping two utxos to one address. *)
Example sweep_two_utxos :
  amountsOf (build config
               [utxo "a" 0 30000 (Some "5"); utxo "b" 0 20000 (Some "5")]
               [out "A" "50000"] "C" (perWeight 10) (Some true) None)
  = Ok ([30000; 20000], [46600], [], 3400).
Proof. vm_compute. reflexivity. Qed.

(** Scenario 3: filling a pool of four with weighted change. *)
Example multi_change_pool_fill :
  amountsOf (build poolOf4 [utxo "a" 0 1000000 (Some "5")]
               [out "A" "100000"] "C" (perWeight 10) None None)
  = Ok ([1000000], [100000], [59781; 119562; 239125; 478250], 3282).
Proof. vm_compute. reflexivity. Qed.

(** Scenario 5: insufficient funds. *)
Example insufficient_funds :
  amountsOf (build config [utxo "a" 0 5000 (Some "5")]
               [out "A" "10000"] "C" (perWeight 10) None None)
  = Throw (InsufficientFunds 5000 10000 2260).
Proof. vm_compute. reflexivity. Qed.

End ScenarioFacts.

(** The conservation theorem applied to scenario 3. *)
Lemma buildPaymentTx_conserves_value_witness :
  exists tx,
    Fixture.build Scenario.poolOf4 [Fixture.utxo "a" 0 1000000 (Some "5"%string)]
      [Scenario.out "A" "100000"] "C" (Fixture.perWeight 10) None None = Ok tx /\
    sumInputs (inputs tx)
      = sumOutputs (externalOutputs tx) + sumOutputs (changeOutputs tx) + fee tx /\
    Forall (fun u => 0 <= inputSat u) (inputs tx) /\
    Forall (fun o => 0 <= outSat o) (externalOutputs tx) /\
    Forall (fun o => 0 <= outSat o) (changeOutputs tx) /\
    0 <= fee tx.
Proof.
  eexists. split; [vm_compute; reflexivity|].
  match goal with |- sumInputs (inputs ?tx) = _ /\ _ =>
    destruct (buildPaymentTx_conserves_value
                Fixture.isValidAddress Fixture.toBaseDenominationNumber
                Fixture.isConfirmedUtxo Fixture.sortUtxos Scenario.poolOf4
                [Fixture.utxo "a" 0 1000000 (Some "5"%string)]
                [Scenario.out "A" "100000"] "C"%string (Fixture.perWeight 10) None None tx
                ltac:(vm_compute; reflexivity)) as [Heq Hnn]
  end.
  split; [exact Heq|].
  apply Hnn.
  - exact FixtureFacts.sortUtxos_In.
  - repeat constructor. intros s0 [= <-]. lia.
  - simpl. lia.
  - simpl. lia.
Defined.

(** The floors applied to scenario 3. *)
Lemma buildPaymentTx_output_floors_witness :
  exists tx,
    Fixture.build Scenario.poolOf4 [Fixture.utxo "a" 0 1000000 (Some "5"%string)]
      [Scenario.out "A" "100000"] "C" (Fixture.perWeight 10) None None = Ok tx /\
    Forall (fun o => 546 < outSat o) (changeOutputs tx) /\
    Forall (fun o => 0 <= outSat o) (changeOutputs tx).
Proof.
  eexists. split; [vm_compute; reflexivity|].
  match goal with |- Forall _ (changeOutputs ?tx) /\ _ =>
    destruct (buildPaymentTx_output_floors
                Fixture.isValidAddress Fixture.toBaseDenominationNumber
                Fixture.isConfirmedUtxo Fixture.sortUtxos Scenario.poolOf4
                [Fixture.utxo "a" 0 1000000 (Some "5"%string)]
                [Scenario.out "A" "100000"] "C"%string (Fixture.perWeight 10) None None tx
                ltac:(vm_compute; reflexivity)) as (Hdust & _ & Hmin)
  end.
  split; [exact Hdust|].
  apply Hmin. vm_compute. discriminate.
Defined.

(** C2 as stated fails: an external output of 100 base units is emitted
    under a dust threshold of 546. *)
Lemma buildPaymentTx_external_dust_counterexample :
  exists tx,
    Fixture.build Fixture.config [Fixture.utxo "a" 0 100000 (Some "5"%string)]
      [Scenario.out "A" "100"] "C" (Fixture.flat 1000) None None = Ok tx /\
    ~ (Forall (fun o => dustThreshold Fixture.config < outSat o) (outputs tx) /\
       (0 < minChangeSat Fixture.config ->
        Forall (fun o => minChangeSat Fixture.config <= outSat o) (changeOutputs tx))).
Proof.
  eexists. split; [vm_compute; reflexivity|].
  intros [H _]. inversion H as [|o l Ho Hl]; subst. simpl in Ho. lia.
Qed.

(** The single change output made of loose change is only compared with
    the dust threshold: here it is 1000 under a [minChangeSat] of 5000. *)
Example loose_change_output_under_minChange :
  Scenario.amountsOf
    (Fixture.build Scenario.withMinChange
       [Fixture.utxo "a" 0 10000 (Some "5"%string)]
       [Scenario.out "A" "8000"] "C" (Fixture.flat 1000) None None)
  = Ok ([10000], [8000], [1000], 1000).
Proof. vm_compute. reflexivity. Qed.

(** The shortfall theorem applied to scenario 2: the whole balance of
    50000 is sent, the fee of 3400 comes out of the single output. *)
Lemma buildPaymentTx_shortfall_witness :
  exists ext0 sel,
    (validateOutputs Fixture.isValidAddress Fixture.toBaseDenominationNumber 0
       [Scenario.out "A" "50000"] = Ok ext0 /\
     Fixture.isValidAddress "C" = true /\
     selectInputUtxos Fixture.toBaseDenominationNumber Fixture.isConfirmedUtxo
       Fixture.sortUtxos Fixture.config
       [Fixture.utxo "a" 0 30000 (Some "5"%string);
        Fixture.utxo "b" 0 20000 (Some "5"%string)]
       (sumOutputs ext0) (map satAddress ext0) (Fixture.perWeight 10)
       (orFalse (Some true)) (orFalse None) = Ok sel /\
     selectedTotalSat sel < sumOutputs ext0 + selFeeSat sel /\
     sumOutputs ext0 = selectedTotalSat sel) /\
    exists tx,
      Fixture.build Fixture.config
        [Fixture.utxo "a" 0 30000 (Some "5"%string);
         Fixture.utxo "b" 0 20000 (Some "5"%string)]
        [Scenario.out "A" "50000"] "C" (Fixture.perWeight 10) (Some true) None = Ok tx /\
      map outSat (externalOutputs tx) = [46600] /\
      sumOutputs (changeOutputs tx) + fee tx = 3400.
Proof.
  eexists. eexists.
  assert (Hv : validateOutputs Fixture.isValidAddress Fixture.toBaseDenominationNumber 0
                 [Scenario.out "A" "50000"]
               = Ok [{| satAddress := "A"; outSat := 50000 |}])
    by (vm_compute; reflexivity).
  assert (Ha : Fixture.isValidAddress "C" = true) by reflexivity.
  split.
  - split; [exact Hv|]. split; [exact Ha|].
    split; [vm_compute; reflexivity|]. split; [vm_compute; reflexivity | reflexivity].
  - destruct (buildPaymentTx_shortfall
                Fixture.isValidAddress Fixture.toBaseDenominationNumber
                Fixture.isConfirmedUtxo Fixture.sortUtxos Fixture.config
                [Fixture.utxo "a" 0 30000 (Some "5"%string);
                 Fixture.utxo "b" 0 20000 (Some "5"%string)]
                [Scenario.out "A" "50000"] "C"%string (Fixture.perWeight 10)
                (Some true) None _ _ Hv Ha
                ltac:(vm_compute; reflexivity) ltac:(vm_compute; reflexivity))
      as [Hsweep _].
    destruct (Hsweep ltac:(reflexivity)) as [_ Hplan].
    destruct Hplan as [_ (tx & Hrun & Hext & Hsum)].
    + discriminate.
    + repeat constructor.
    + exists tx. split; [exact Hrun|]. split.
      * rewrite Hext. reflexivity.
      * rewrite Hsum. reflexivity.
Defined.

(** C4.  One change output survives and the loose change is exactly 1,
    the number of surviving outputs: the claim adds [floor(1/1) = 1] to
    the change output (2 in all) and nothing to the fee; the code
    leaves the change output at 1 and moves the unit of loose change
    into the fee, 1001. *)
Theorem loose_change_equal_to_count_goes_to_fee :
  let cfg := Scenario.noDust in
  let unusedUtxos := [Fixture.utxo "a" 0 10002 (Some "5"%string)] in
  let desiredOutputs := [Scenario.out "A" "9000"] in
  map outSat
    (survivingChange Fixture.isValidAddress Fixture.toBaseDenominationNumber
       Fixture.isConfirmedUtxo Fixture.sortUtxos cfg unusedUtxos desiredOutputs
       "C" (Fixture.flat 1000) None None) = [1]
  /\
  Scenario.amountsOf
    (Fixture.build cfg unusedUtxos desiredOutputs "C" (Fixture.flat 1000) None None)
  = Ok ([10002], [9000], [1], 1001).
Proof. split; vm_compute; reflexivity. Qed.

(** The fee floor applied to scenario 3 under a configured [minTxFee]. *)
Lemma buildPaymentTx_fee_floor_witness :
  exists tx,
    (Fixture.build (Scenario.withMinTxFee 4)
       [Fixture.utxo "a" 0 1000000 (Some "5"%string)]
       [Scenario.out "A" "100000"] "C" (Fixture.perWeight 10) None None = Ok tx /\
     inputs tx <> []) /\
    100 <= fee tx /\
    (feeRateToSatoshis (Scenario.withMinTxFee 4) (Fixture.perWeight 1)
       (count (inputs tx)) (count (changeOutputs tx))
       (map satAddress (externalOutputs tx)) <= inject_Z (fee tx))%Q.
Proof.
  eexists. split; [split; [vm_compute; reflexivity | discriminate]|].
  match goal with |- _ <= fee ?tx /\ _ =>
    destruct (buildPaymentTx_fee_floor
                Fixture.isValidAddress Fixture.toBaseDenominationNumber
                Fixture.isConfirmedUtxo Fixture.sortUtxos (Scenario.withMinTxFee 4)
                [Fixture.utxo "a" 0 1000000 (Some "5"%string)]
                [Scenario.out "A" "100000"] "C"%string (Fixture.perWeight 10) None None tx)
      as [_ Hplan];
    destruct (Hplan ltac:(vm_compute; reflexivity) ltac:(discriminate))
      as (_ & Hrelay & Hmin)
  end.
  split; [exact Hrelay|].
  destruct (Hmin (Fixture.perWeight 1) eq_refl ltac:(discriminate)) as [_ Hshape].
  exact (Hshape eq_refl).
Defined.

(** C5 as stated fails in sweep mode: the fee of 192 was estimated
    without change output, the plan has one, and [minTxFee] for the
    plan's shape is 226. *)
Lemma buildPaymentTx_sweep_fee_counterexample :
  exists tx,
    Fixture.build (Scenario.withMinTxFee 1)
      [Fixture.utxo "a" 0 100000 (Some "5"%string)]
      [Scenario.out "A" "50000"] "C" (Fixture.perWeight 1) (Some true) None = Ok tx /\
    ~ (networkMinRelayFee (Scenario.withMinTxFee 1) <= fee tx /\
       forall m, minTxFee (Scenario.withMinTxFee 1) = Some m ->
         (feeRateToSatoshis (Scenario.withMinTxFee 1) m
            (count (inputs tx)) (count (changeOutputs tx))
            (map satAddress (externalOutputs tx)) <= inject_Z (fee tx))%Q).
Proof.
  eexists. split; [vm_compute; reflexivity|].
  intros [_ H]. specialize (H _ eq_refl). vm_compute in H. apply H. reflexivity.
Qed.

(** The plan of that run: one change output of 49808, fee 192. *)
Example sweep_with_change_keeps_sweep_fee :
  Scenario.amountsOf
    (Fixture.build (Scenario.withMinTxFee 1)
       [Fixture.utxo "a" 0 100000 (Some "5"%string)]
       [Scenario.out "A" "50000"] "C" (Fixture.perWeight 1) (Some true) None)
  = Ok ([100000], [50000], [49808], 192).
Proof. vm_compute. reflexivity. Qed.

(** A plan for no desired output has its inputs and meets the floor:
    the whole input less the fee goes to change. *)
Example plan_without_outputs_pays_the_fee :
  Scenario.amountsOf
    (Fixture.build Fixture.config [Fixture.utxo "a" 0 5000 (Some "5"%string)] []
       "C" (Fixture.flat 1000) None None)
  = Ok ([5000], [], [4000], 1000).
Proof. vm_compute. reflexivity. Qed.

(** With no desired output and no candidate utxo the incremental loop
    never runs and its initial fee of 0 is returned in an empty plan. *)
Example empty_plan_has_no_fee :
  Scenario.amountsOf (Fixture.build Fixture.config [] [] "C" (Fixture.flat 1000) None None)
  = Ok ([], [], [], 0).
Proof. vm_compute. reflexivity. Qed.

End BitcoinishFacts.

(** ** Broadcast *)

Module BroadcastFacts.
Import Broadcast.
Local Open Scope string_scope.

(** A string begins with [p] when it is [p] followed by something. *)
Lemma prefix_app (p s : string) :
  String.prefix p s = true <-> exists rest, s = p ++ rest.
Proof.
  revert s. induction p as [|c p IH]; intros s.
  - split; [intros _; exists s; reflexivity | intros _; destruct s; reflexivity].
  - destruct s as [|c' s]; simpl.
    + split; [discriminate | intros [rest H]; discriminate].
    + destruct (ascii_dec c c') as [->|Hne].
      * rewrite IH. split; intros [rest H]; exists rest.
        -- rewrite H. reflexivity.
        -- change (String c' p ++ rest) with (String c' (p ++ rest)) in H.
           injection H as H. exact H.
      * split; [discriminate|]. intros [rest H].
        change (String c p ++ rest) with (String c (p ++ rest)) in H.
        injection H as H _. congruence.
Qed.

(** C6.  [broadcastTransaction] returns [{id: tx.id}] when [sendTx]
    returns and when it throws an error whose message is [-27]
    followed by anything; an error with no message, or with a message
    that is not [-27] followed by something, is thrown on to the caller
    as it is. *)
Theorem broadcastTransaction_idempotent (coinSymbol : string)
    (sendTx : string -> result JsError string) (tx : SignedTransaction) :
  (forall txId, sendTx (hex tx) = Ok txId ->
     fst (broadcastTransaction coinSymbol sendTx tx) = Ok {| resultId := id tx |})
  /\
  (forall e rest, sendTx (hex tx) = Throw e ->
     message e = Some ("-27" ++ rest) ->
     fst (broadcastTransaction coinSymbol sendTx tx) = Ok {| resultId := id tx |})
  /\
  (forall e, sendTx (hex tx) = Throw e ->
     (forall rest, message e <> Some ("-27" ++ rest)) ->
     fst (broadcastTransaction coinSymbol sendTx tx) = Throw e).
Proof.
  unfold broadcastTransaction. split; [|split].
  - intros txId ->. reflexivity.
  - intros e rest -> Hm.
    assert (Hp : String.prefix "-27" (messageOr e) = true).
    { apply prefix_app. exists rest. unfold messageOr. rewrite Hm. reflexivity. }
    rewrite Hp. reflexivity.
  - intros e -> Hm.
    destruct (String.prefix "-27" (messageOr e)) eqn:Hp; [|reflexivity].
    exfalso. apply prefix_app in Hp. destruct Hp as [rest Hp].
    unfold messageOr in Hp. destruct (message e) as [m|] eqn:Em.
    + apply (Hm rest). rewrite Hp. reflexivity.
    + discriminate.
Qed.

(** A node that has the transaction already, and one that is down. *)
Lemma broadcastTransaction_idempotent_witness :
  (mempoolNode "0200aa"
     = Throw {| errorName := "Error";
                message := Some "-27: transaction already in block chain" |} /\
   Some "-27: transaction already in block chain"
     = Some ("-27" ++ ": transaction already in block chain")) /\
  fst (broadcastTransaction "BTC" mempoolNode {| id := "f00d"; hex := "0200aa" |})
    = Ok {| resultId := "f00d" |} /\
  fst (broadcastTransaction "BTC" mempoolNode {| id := "cafe"; hex := "0200bb" |})
    = Throw {| errorName := "Error"; message := Some "ECONNREFUSED" |}.
Proof.
  split; [split; reflexivity|].
  destruct (broadcastTransaction_idempotent "BTC" mempoolNode
              {| id := "f00d"; hex := "0200aa" |}) as (_ & Hdup & _).
  destruct (broadcastTransaction_idempotent "BTC" mempoolNode
              {| id := "cafe"; hex := "0200bb" |}) as (_ & _ & Hdown).
  split.
  - exact (Hdup _ ": transaction already in block chain" eq_refl eq_refl).
  - apply (Hdown _ eq_refl). intros rest. simpl. intros H. discriminate H.
Defined.

(** C10.  Whenever [broadcastTransaction] returns, the id it returns is
    [tx.id]; when [sendTx] returned another txid, that txid only
    appears in the warning logged. *)
Theorem broadcastTransaction_returns_original_id (coinSymbol : string)
    (sendTx : string -> result JsError string) (tx : SignedTransaction) :
  (forall r, fst (broadcastTransaction coinSymbol sendTx tx) = Ok r -> resultId r = id tx)
  /\
  (forall txId, sendTx (hex tx) = Ok txId -> txId <> id tx ->
     broadcastTransaction coinSymbol sendTx tx
       = (Ok {| resultId := id tx |}, [mismatchWarning coinSymbol txId (id tx)])).
Proof.
  unfold broadcastTransaction. split.
  - intros r. destruct (sendTx (hex tx)) as [txId|e]; simpl.
    + intros [= <-]. reflexivity.
    + destruct (String.prefix "-27" (messageOr e)); simpl; [|discriminate].
      intros [= <-]. reflexivity.
  - intros txId -> Hne.
    destruct (String.eqb_spec (id tx) txId) as [E|E]; [congruence | reflexivity].
Qed.

Lemma broadcastTransaction_returns_original_id_witness :
  (renamingNode "0200aa" = Ok "beef" /\ "beef" <> "f00d") /\
  broadcastTransaction "BTC" renamingNode {| id := "f00d"; hex := "0200aa" |}
    = (Ok {| resultId := "f00d" |},
       [LogWarn "Broadcasted BTC txid beef doesn't match original txid f00d"]).
Proof.
  split; [split; [reflexivity | discriminate]|].
  destruct (broadcastTransaction_returns_original_id "BTC" renamingNode
              {| id := "f00d"; hex := "0200aa" |}) as [_ Hwarn].
  exact (Hwarn "beef" eq_refl ltac:(discriminate)).
Defined.

End BroadcastFacts.

(** ** The Ripple balance monitor *)

Module RippleFacts.
Import Ripple.
Local Open Scope string_scope.

(** *** Lexicographic order *)

Lemma ascii_compare_refl (c : ascii) : Ascii.compare c c = Eq.
Proof. unfold Ascii.compare. apply N.compare_refl. Qed.

Lemma compare_common_prefix (p s1 s2 : string) :
  String.compare (p ++ s1) (p ++ s2) = String.compare s1 s2.
Proof.
  induction p as [|c p IH]; simpl; [reflexivity|].
  rewrite ascii_compare_refl. exact IH.
Qed.

Lemma out_before_in (p : string) : String.compare (p ++ "00") (p ++ "01") = Lt.
Proof. rewrite compare_common_prefix. reflexivity. Qed.

(** *** [padLeft] pads to the width and keeps longer strings *)

Lemma replicate_length (k : nat) (v : ascii) : String.length (replicate k v) = k.
Proof. induction k as [|k IH]; simpl; [reflexivity | now rewrite IH]. Qed.

Lemma append_length (s1 s2 : string) :
  String.length (s1 ++ s2) = (String.length s1 + String.length s2)%nat.
Proof. induction s1 as [|c s1 IH]; simpl; [reflexivity | now rewrite IH]. Qed.

Lemma padLeft_length (x : string) (n : nat) (v : ascii) :
  String.length (padLeft x n v) = Nat.max n (String.length x).
Proof. unfold padLeft. rewrite append_length, replicate_length. lia. Qed.

Lemma padLeft_long (x : string) (n : nat) (v : ascii) :
  (n <= String.length x)%nat -> padLeft x n v = x.
Proof.
  intros H. unfold padLeft.
  replace (n - String.length x)%nat with 0%nat by lia. reflexivity.
Qed.

Section MonitorFacts.

Variable thisNetworkType : string.
Variable getLedger : Z -> result JsError Ledger.

(** What an activity returned by the classifier carries. *)
Lemma paymentToBalanceActivities_Some (addr : string) (tx : Payment)
    (a : BalanceActivity) (logs : list LogEntry) :
  paymentToBalanceActivities thisNetworkType getLedger addr tx = (Ok (Some a), logs) ->
  activitySequence a
    = padLeft (stringOfNumber (ledgerVersion (outcome tx))) 12 "0" ++ "."
      ++ padLeft (stringOfNumber (indexInLedger (outcome tx))) 8 "0" ++ "."
      ++ match type a with ActivityOut => "00" | ActivityIn => "01" end /\
  (type a = ActivityOut <-> endpointAddress (source (specification tx)) = addr) /\
  (type a = ActivityIn <->
     endpointAddress (source (specification tx)) <> addr /\
     endpointAddress (destination (specification tx)) = addr) /\
  networkSymbol a = "TRX" /\
  address a = addr /\
  confirmationNumber a = ledgerVersion (outcome tx).
Proof.
  unfold paymentToBalanceActivities.
  destruct (String.eqb_spec (endpointAddress (source (specification tx))) addr) as [Es|Es].
  - destruct (getLedger _) as [ledger|e]; [|discriminate].
    destruct (List.find _ _) as [bc|]; [|discriminate].
    intros [= <- _]. simpl. repeat split; try congruence; try tauto.
  - destruct (String.eqb_spec (endpointAddress (destination (specification tx))) addr) as [Ed|Ed];
      [|discriminate].
    destruct (getLedger _) as [ledger|e]; [|discriminate].
    destruct (List.find _ _) as [bc|]; [|discriminate].
    intros [= <- _]. simpl. repeat split; try congruence; try tauto.
Qed.

(** C7.  The activity sequence of every activity the classifier makes
    is [zero_pad(ledgerVersion, 12) . zero_pad(indexInLedger, 8) .
    tertiary], with tertiary [00] for an outgoing activity (the source
    address is the monitored address) and [01] for an incoming one (the
    destination address is); so at equal ledger version and index an
    outgoing activity sorts before an incoming one. *)
Theorem activitySequence_orders_out_before_in :
  (forall addr tx a logs,
     paymentToBalanceActivities thisNetworkType getLedger addr tx = (Ok (Some a), logs) ->
     activitySequence a
       = padLeft (stringOfNumber (ledgerVersion (outcome tx))) 12 "0" ++ "."
         ++ padLeft (stringOfNumber (indexInLedger (outcome tx))) 8 "0" ++ "."
         ++ match type a with ActivityOut => "00" | ActivityIn => "01" end
     /\
     (type a = ActivityOut <-> endpointAddress (source (specification tx)) = addr) /\
     (type a = ActivityIn <->
        endpointAddress (source (specification tx)) <> addr /\
        endpointAddress (destination (specification tx)) = addr))
  /\
  (forall addr1 tx1 a1 logs1 addr2 tx2 a2 logs2,
     paymentToBalanceActivities thisNetworkType getLedger addr1 tx1 = (Ok (Some a1), logs1) ->
     paymentToBalanceActivities thisNetworkType getLedger addr2 tx2 = (Ok (Some a2), logs2) ->
     ledgerVersion (outcome tx1) = ledgerVersion (outcome tx2) ->
     indexInLedger (outcome tx1) = indexInLedger (outcome tx2) ->
     type a1 = ActivityOut -> type a2 = ActivityIn ->
     String.compare (activitySequence a1) (activitySequence a2) = Lt).
Proof.
  split.
  - intros addr tx a logs H. apply paymentToBalanceActivities_Some in H.
    destruct H as (Hseq & Hout & Hin & _). split; [exact Hseq | tauto].
  - intros addr1 tx1 a1 logs1 addr2 tx2 a2 logs2 H1 H2 Hl Hi Ht1 Ht2.
    apply paymentToBalanceActivities_Some in H1, H2.
    destruct H1 as (-> & _). destruct H2 as (-> & _).
    rewrite Ht1, Ht2, Hl, Hi.
    rewrite !compare_common_prefix. reflexivity.
Qed.

End MonitorFacts.

(** The payment from [rAlice] to [rBob], seen from both addresses. *)
Lemma activitySequence_orders_out_before_in_witness :
  exists aOut aIn,
    (fst (paymentToBalanceActivities "mainnet" sampleLedger "rAlice" samplePayment)
       = Ok (Some aOut) /\
     fst (paymentToBalanceActivities "mainnet" sampleLedger "rBob" samplePayment)
       = Ok (Some aIn) /\
     type aOut = ActivityOut /\ type aIn = ActivityIn) /\
    activitySequence aOut = "000001234567.00000003.00" /\
    activitySequence aIn = "000001234567.00000003.01" /\
    String.compare (activitySequence aOut) (activitySequence aIn) = Lt.
Proof.
  eexists. eexists.
  split; [repeat split; vm_compute; reflexivity|].
  destruct (activitySequence_orders_out_before_in "mainnet" sampleLedger) as [Hfmt Hord].
  match goal with |- activitySequence ?aOut = _ /\ activitySequence ?aIn = _ /\ _ =>
    assert (H1 : paymentToBalanceActivities "mainnet" sampleLedger "rAlice" samplePayment
                 = (Ok (Some aOut), [])) by (vm_compute; reflexivity);
    assert (H2 : paymentToBalanceActivities "mainnet" sampleLedger "rBob" samplePayment
                 = (Ok (Some aIn), [])) by (vm_compute; reflexivity)
  end.
  split; [|split].
  - destruct (Hfmt _ _ _ _ H1) as [Hseq _]. rewrite Hseq. vm_compute. reflexivity.
  - destruct (Hfmt _ _ _ _ H2) as [Hseq _]. rewrite Hseq. vm_compute. reflexivity.
  - exact (Hord _ _ _ _ _ _ _ _ H1 H2 eq_refl eq_refl eq_refl eq_refl).
Defined.

(** C9.  The activity made for [rAlice] from the sample payment, an XRP
    payment on the Ripple ledger, has network symbol [TRX]; the claim
    asks for the symbol of the Ripple network. *)
Theorem networkSymbol_is_TRX :
  exists a,
    fst (paymentToBalanceActivities "mainnet" sampleLedger "rAlice" samplePayment)
      = Ok (Some a) /\
    assetSymbol a = "XRP" /\
    networkSymbol a = "TRX" /\
    networkSymbol a <> rippleSymbol.
Proof.
  eexists. split; [vm_compute; reflexivity|].
  simpl. repeat split. discriminate.
Qed.

(** *** The ledger window *)

(** The window for a [completeLedgers] string whose two pieces parse. *)
Lemma resolveFromToLedgers_parsed (info : ServerInfo) (options : Options)
    (minLedger maxLedger : Z) :
  parseInt (nth_error (splitOn "-" (completeLedgers info)) 0) = Some minLedger ->
  parseInt (nth_error (splitOn "-" (completeLedgers info)) 1) = Some maxLedger ->
  let requestedFrom := requested (from options) in
  let requestedTo := requested (to options) in
  let lo := match requestedFrom with Some r => Z.max r minLedger | None => minLedger end in
  let hi := match requestedTo with Some r => Z.min r maxLedger | None => maxLedger end in
  exists logs,
    resolveFromToLedgers (Ok info) options
      = (Ok {| resolvedFrom := Some lo; resolvedTo := Some hi |}, logs) /\
    (forall v : Z,
       (lo <= v <= hi)%Z <->
       ((forall r, requestedFrom = Some r -> (r <= v)%Z) /\
        (forall r, requestedTo = Some r -> (v <= r)%Z) /\
        (minLedger <= v <= maxLedger)%Z)) /\
    (forall r, requestedFrom = Some r ->
       ((r < minLedger)%Z <->
        In (LogWarn ("Server balance activity doesn't go back to ledger "
                     ++ stringOfNumber r ++ ", using " ++ stringOfNumber minLedger
                     ++ " instead")) logs)) /\
    (forall r, requestedTo = Some r ->
       ((maxLedger < r)%Z <->
        In (LogWarn ("Server balance activity doesn't go up to ledger "
                     ++ stringOfNumber r ++ ", using " ++ stringOfNumber maxLedger
                     ++ " instead")) logs)).
Proof.
  intros Hmin Hmax. cbv zeta. unfold resolveFromToLedgers. rewrite Hmin, Hmax.
  destruct (requested (from options)) as [rf|];
    destruct (requested (to options)) as [rt|];
    cbn [ltNumber gtNumber];
    repeat match goal with
           | |- context [(?a <? ?b)%Z] => destruct (Z.ltb_spec a b)
           | |- context [(?a >? ?b)%Z] => destruct (Z.gtb_spec a b)
           end;
    repeat match goal with
           | |- context [Z.max ?a ?b] =>
               first [rewrite (Z.max_r a b) by lia | rewrite (Z.max_l a b) by lia]
           | |- context [Z.min ?a ?b] =>
               first [rewrite (Z.min_r a b) by lia | rewrite (Z.min_l a b) by lia]
           end;
    (eexists; split; [reflexivity|]);
    (split; [intros v; split;
             [intros Hv; repeat split; try lia; intros r Hr; inversion Hr; lia
             | intros (H1 & H2 & H3);
               try specialize (H1 _ eq_refl); try specialize (H2 _ eq_refl); lia]|]);
    split; intros r Hr; inversion Hr; subst; simpl;
    (split; [intros Hlt; try lia; tauto | intros Hin; try lia]);
    repeat match goal with
           | H : _ \/ _ |- _ => destruct H
           | H : False |- _ => destruct H
           | H : LogWarn _ = LogWarn _ |- _ => discriminate H
           end.
Qed.

(** *** The server's [completeLedgers] string parses back to its range *)

Lemma parseDigits_acc (d : Decimal.uint) :
  forall (a : positive) (s' : string),
    parseDigits (Some (Zpos a)) (NilEmpty.string_of_uint d ++ s')
    = parseDigits (Some (Zpos (Pos.of_uint_acc d a))) s'.
Proof.
  induction d; intros a s'; simpl; try reflexivity;
    match goal with
    | |- parseDigits (Some ?v) _ = parseDigits (Some (Zpos (Pos.of_uint_acc _ ?a'))) _ =>
        replace v with (Zpos a') by lia; apply IHd
    end.
Qed.

Lemma parseDigits_zero (d : Decimal.uint) :
  forall s' : string,
    parseDigits (Some 0%Z) (NilEmpty.string_of_uint d ++ s')
    = parseDigits (Some (Z.of_N (Pos.of_uint d))) s'.
Proof.
  induction d; intros s'; simpl; try reflexivity; try apply IHd;
    apply (parseDigits_acc d _ s').
Qed.

Lemma parseDigits_uint (d : Decimal.uint) (s' : string) :
  d <> Decimal.Nil ->
  parseDigits None (NilEmpty.string_of_uint d ++ s')
  = parseDigits (Some (Z.of_N (Pos.of_uint d))) s'.
Proof.
  intros Hd. rewrite <- parseDigits_zero. destruct d; try contradiction; reflexivity.
Qed.

Lemma splitOn_uint (d : Decimal.uint) (s' : string) :
  splitOn "-" (NilEmpty.string_of_uint d ++ String "-" s')
  = NilEmpty.string_of_uint d :: splitOn "-" s'.
Proof.
  induction d; simpl; try reflexivity; rewrite IHd; reflexivity.
Qed.

Lemma splitOn_uint_last (d : Decimal.uint) :
  splitOn "-" (NilEmpty.string_of_uint d) = [NilEmpty.string_of_uint d].
Proof.
  induction d; simpl; try reflexivity; rewrite IHd; reflexivity.
Qed.

Lemma stringOfNumber_nonneg (n : Z) :
  (0 <= n)%Z ->
  exists d, d <> Decimal.Nil /\ stringOfNumber n = NilEmpty.string_of_uint d /\
            Z.of_N (Pos.of_uint d) = n.
Proof.
  intros Hn. unfold stringOfNumber. destruct n as [|p|p]; try lia.
  - exists (Decimal.D0 Decimal.Nil). repeat split. discriminate.
  - exists (Pos.to_uint p). pose proof (DecimalPos.Unsigned.to_uint_nonnil p) as Hnn.
    split; [exact Hnn|]. split.
    + simpl. destruct (Pos.to_uint p); try reflexivity. contradiction.
    + rewrite DecimalPos.Unsigned.of_to. reflexivity.
Qed.

Lemma append_empty_r (s : string) : s ++ EmptyString = s.
Proof.
  induction s as [|c s IH]; [reflexivity|].
  change (String c (s ++ EmptyString) = String c s). now rewrite IH.
Qed.

(** A string of decimal digits has no white space, sign or [0x] for
    [parseInt] to read. *)
Lemma parseInt_uint (d : Decimal.uint) :
  d <> Decimal.Nil ->
  parseInt (Some (NilEmpty.string_of_uint d)) = Some (Z.of_N (Pos.of_uint d)).
Proof.
  intros Hd.
  assert (H : parseInt (Some (NilEmpty.string_of_uint d))
              = option_map (Z.mul 1) (parseDigits None (NilEmpty.string_of_uint d))).
  { destruct d as [|d|d|d|d|d|d|d|d|d|d]; [contradiction|..]; destruct d; reflexivity. }
  rewrite H. rewrite <- (append_empty_r (NilEmpty.string_of_uint d)).
  rewrite parseDigits_uint by exact Hd. cbn [parseDigits option_map].
  f_equal. apply Z.mul_1_l.
Qed.

(** What [parseInt] reads besides decimal digits. *)
Example parseInt_reads_space_sign_and_hex :
  map parseInt [Some " 12"; Some "0x10"; Some "-7"; Some "+7x"; Some "0x"; Some "x1"; None]
  = [Some 12; Some 16; Some (-7); Some 7; None; None; None]%Z.
Proof. reflexivity. Qed.

Lemma rangeString_parses (minLedger maxLedger : Z) :
  (0 <= minLedger)%Z -> (0 <= maxLedger)%Z ->
  parseInt (nth_error (splitOn "-" (rangeString minLedger maxLedger)) 0) = Some minLedger /\
  parseInt (nth_error (splitOn "-" (rangeString minLedger maxLedger)) 1) = Some maxLedger.
Proof.
  intros Hlo Hhi. unfold rangeString.
  destruct (stringOfNumber_nonneg _ Hlo) as (d1 & Hd1 & -> & <-).
  destruct (stringOfNumber_nonneg _ Hhi) as (d2 & Hd2 & -> & <-).
  change (NilEmpty.string_of_uint d1 ++ "-" ++ NilEmpty.string_of_uint d2)
    with (NilEmpty.string_of_uint d1 ++ String "-" (NilEmpty.string_of_uint d2)).
  rewrite splitOn_uint, splitOn_uint_last.
  cbn [nth_error]. rewrite !parseInt_uint by assumption. split; reflexivity.
Qed.

(** C8.  With a server that retains [minLedger .. maxLedger],
    [resolveFromToLedgers] returns [from = max(requestedFrom,
    minLedger)] and [to = min(requestedTo, maxLedger)], the server's
    bound where nothing is requested: the ledgers of the window are
    those of the requested range that the server retains.  A requested
    bound is the number given or the [confirmationNumber] of the
    record given.  A request beyond a bound logs a warning and never
    throws. *)
Theorem resolveFromToLedgers_window (info : ServerInfo) (options : Options)
    (minLedger maxLedger : Z) :
  (0 <= minLedger)%Z -> (0 <= maxLedger)%Z ->
  completeLedgers info = rangeString minLedger maxLedger ->
  let requestedFrom :=
    match from options with
    | None => None
    | Some (RefNumber n) => Some n
    | Some (RefActivity record) => Some (confirmationNumber record)
    end in
  let requestedTo :=
    match to options with
    | None => None
    | Some (RefNumber n) => Some n
    | Some (RefActivity record) => Some (confirmationNumber record)
    end in
  let lo := match requestedFrom with Some r => Z.max r minLedger | None => minLedger end in
  let hi := match requestedTo with Some r => Z.min r maxLedger | None => maxLedger end in
  exists logs,
    resolveFromToLedgers (Ok info) options
      = (Ok {| resolvedFrom := Some lo; resolvedTo := Some hi |}, logs) /\
    (forall v : Z,
       (lo <= v <= hi)%Z <->
       ((forall r, requestedFrom = Some r -> (r <= v)%Z) /\
        (forall r, requestedTo = Some r -> (v <= r)%Z) /\
        (minLedger <= v <= maxLedger)%Z)) /\
    (forall r, requestedFrom = Some r ->
       ((r < minLedger)%Z <->
        In (LogWarn ("Server balance activity doesn't go back to ledger "
                     ++ stringOfNumber r ++ ", using " ++ stringOfNumber minLedger
                     ++ " instead")) logs)) /\
    (forall r, requestedTo = Some r ->
       ((maxLedger < r)%Z <->
        In (LogWarn ("Server balance activity doesn't go up to ledger "
                     ++ stringOfNumber r ++ ", using " ++ stringOfNumber maxLedger
                     ++ " instead")) logs)).
Proof.
  intros Hlo Hhi Hinfo.
  destruct (rangeString_parses minLedger maxLedger Hlo Hhi) as [Hmin Hmax].
  rewrite <- Hinfo in Hmin, Hmax.
  exact (resolveFromToLedgers_parsed info options minLedger maxLedger Hmin Hmax).
Qed.

(** Scenario 6: the server retains 1000-2000 and the caller asks for
    the ledgers from that of an activity confirmed in ledger 500 up to
    ledger 2500. *)
Lemma resolveFromToLedgers_window_witness :
  ((0 <= 1000)%Z /\ (0 <= 2000)%Z /\
   completeLedgers {| completeLedgers := "1000-2000" |} = rangeString 1000 2000) /\
  resolveFromToLedgers (Ok {| completeLedgers := "1000-2000" |})
    {| from := Some (RefActivity (activityConfirmedAt 500));
       to := Some (RefNumber 2500) |}
  = (Ok {| resolvedFrom := Some 1000%Z; resolvedTo := Some 2000%Z |},
     [LogWarn "Server balance activity doesn't go back to ledger 500, using 1000 instead";
      LogWarn "Server balance activity doesn't go up to ledger 2500, using 2000 instead"]).
Proof.
  split; [repeat split; lia|].
  destruct (resolveFromToLedgers_window {| completeLedgers := "1000-2000" |}
              {| from := Some (RefActivity (activityConfirmedAt 500));
                 to := Some (RefNumber 2500) |}
              1000 2000 ltac:(lia) ltac:(lia) eq_refl) as (logs & Hrun & _).
  rewrite Hrun. vm_compute in Hrun. injection Hrun as <-. reflexivity.
Defined.

End RippleFacts.

(** ** More on the UTXO planner *)

Module PlannerMore.
Import Bitcoinish BitcoinishFacts.

(** *** Fee estimates grow with the transaction *)

Lemma Qclamp_mono (a b lo lo' : Q) :
  (a <= b)%Q -> (lo <= lo')%Q ->
  ((if Qltb a lo then lo else a) <= (if Qltb b lo' then lo' else b))%Q.
Proof.
  intros Hab Hlo.
  destruct (Qltb a lo) eqn:Ea; destruct (Qltb b lo') eqn:Eb;
    try apply Qltb_lt in Ea; try apply Qltb_ge in Ea;
    try apply Qltb_lt in Eb; try apply Qltb_ge in Eb.
  - exact Hlo.
  - eapply Qle_trans; [exact Hlo | exact Eb].
  - eapply Qle_trans; [exact Hab | apply Qlt_le_weak; exact Eb].
  - exact Hab.
Qed.

Section PlannerMoreFacts.

Variable isValidAddress : string -> bool.
Variable toBaseDenominationNumber : string -> option Z.
Variable isConfirmedUtxo : UtxoInfo -> bool.
Variable sortUtxos : list InputUtxo -> list InputUtxo.
Variable cfg : Config.

Lemma feeRateToSatoshis_size_mono (r : FeeRate) (i c i' c' : Z) (a a' : list string) :
  (0 <= feeRate r)%Q ->
  estimateTxSize i c a <= estimateTxSize i' c' a' ->
  (feeRateToSatoshis cfg r i c a <= feeRateToSatoshis cfg r i' c' a')%Q.
Proof.
  intros Hr Hs. unfold feeRateToSatoshis.
  destruct (feeRateType r); try apply Qle_refl.
  apply roundDouble_mono.
  rewrite (Qmult_comm (parseFloat (feeRate r))),
    (Qmult_comm (parseFloat (feeRate r)) (inject_Z _)).
  apply Qmult_le_compat_r; [|apply roundDouble_nonneg; exact Hr].
  rewrite <- Zle_Qle. exact Hs.
Qed.

Lemma estimateTxFee_size_mono (rate : FeeRate) (i c i' c' : Z) (a a' : list string) :
  (0 <= feeRate rate)%Q ->
  (forall m, minTxFee cfg = Some m -> (0 <= feeRate m)%Q) ->
  estimateTxSize i c a <= estimateTxSize i' c' a' ->
  estimateTxFee cfg rate i c a <= estimateTxFee cfg rate i' c' a'.
Proof.
  intros Hr Hm Hs.
  unfold estimateTxFee. apply Qceiling_resp_le.
  apply Qclamp_mono; [|apply Qle_refl].
  destruct (minTxFee cfg) as [m|].
  - apply Qclamp_mono; apply feeRateToSatoshis_size_mono; auto.
  - apply feeRateToSatoshis_size_mono; assumption.
Qed.

(** X1.  With non-negative rates, the fee estimate never decreases when
    the transaction gets more inputs, change outputs or external
    outputs. *)
Theorem estimateTxFee_monotone (rate : FeeRate) (i c i' c' : Z) (a a' : list string) :
  (0 <= feeRate rate)%Q ->
  (forall m, minTxFee cfg = Some m -> (0 <= feeRate m)%Q) ->
  i <= i' -> c <= c' -> count a <= count a' ->
  estimateTxFee cfg rate i c a <= estimateTxFee cfg rate i' c' a'.
Proof.
  intros Hr Hm Hi Hc Ha. apply estimateTxFee_size_mono; try assumption.
  unfold estimateTxSize. lia.
Qed.

(** *** Which utxos are selected *)

Lemma convertUtxos_infos (useUnconf : bool) (unusedUtxos : list UtxoInfo) :
  forall utxos,
    convertUtxos toBaseDenominationNumber isConfirmedUtxo useUnconf unusedUtxos = Ok utxos ->
    map utxoInfo utxos = List.filter (fun u => useUnconf || isConfirmedUtxo u) unusedUtxos.
Proof.
  induction unusedUtxos as [|x rest IH]; simpl; intros utxos H.
  - injection H as <-. reflexivity.
  - destruct useUnconf; destruct (isConfirmedUtxo x); simpl in *;
      try (destruct (utxoSatoshis toBaseDenominationNumber x); [|discriminate];
           apply bind_Ok_inv in H; destruct H as [r [Hr H]]; injection H as <-;
           simpl; f_equal; exact (IH _ Hr)).
    exact (IH _ H).
Qed.

Lemma selectInputUtxos_cases (unusedUtxos : list UtxoInfo) (outputTotal : Z)
    (addrs : list string) (rate : FeeRate) (useAll useUnconf : bool) (sel : Selection) :
  selectInputUtxos toBaseDenominationNumber isConfirmedUtxo sortUtxos cfg
    unusedUtxos outputTotal addrs rate useAll useUnconf = Ok sel ->
  exists utxos,
    convertUtxos toBaseDenominationNumber isConfirmedUtxo useUnconf unusedUtxos = Ok utxos /\
    let fee0 := estimateTxFee cfg rate 1 0 addrs in
    let lo := outputTotal + fee0 in
    let hi := lo + dustThreshold cfg in
    ((useAll = true /\
      sel = {| selectedUtxos := utxos; selectedTotalSat := sumInputs utxos;
               selFeeSat := estimateTxFee cfg rate (count utxos) 0 addrs |})
     \/
     (useAll = false /\ exists u,
        findIdeal lo hi utxos = Some u /\
        sel = {| selectedUtxos := [u]; selectedTotalSat := inputSat u; selFeeSat := fee0 |})
     \/
     (useAll = false /\ findIdeal lo hi utxos = None /\
      sel = accumulate cfg (count unusedUtxos) outputTotal addrs rate (sortUtxos utxos)
              {| selectedUtxos := []; selectedTotalSat := 0; selFeeSat := 0 |})).
Proof.
  unfold selectInputUtxos. intros H.
  apply bind_Ok_inv in H. destruct H as [utxos [Hc H]].
  exists utxos. split; [exact Hc|]. cbv zeta.
  destruct useAll.
  - injection H as <-. left. split; reflexivity.
  - destruct (findIdeal _ _ utxos) as [u|] eqn:E; injection H as <-.
    + right. left. split; [reflexivity|]. exists u. split; reflexivity.
    + right. right. repeat split.
Qed.

Lemma findIdeal_None (lo hi : Z) (utxos : list InputUtxo) :
  findIdeal lo hi utxos = None ->
  Forall (fun u => ~ (lo <= inputSat u <= hi)) utxos.
Proof.
  induction utxos as [|x rest IH]; simpl; intros H; [constructor|].
  destruct ((inputSat x >=? lo) && (inputSat x <=? hi)) eqn:E; [discriminate|].
  constructor; [|exact (IH H)].
  apply andb_false_iff in E. destruct E as [E|E]; lia.
Qed.

(** The incremental loop takes a prefix of the sorted candidates: it
    stops at the first prefix that covers the outputs and its own fee. *)
Lemma accumulate_prefix (unusedCount outputTotal : Z) (addrs : list string)
    (rate : FeeRate) (sorted : list InputUtxo) :
  forall sel0,
    let r := accumulate cfg unusedCount outputTotal addrs rate sorted sel0 in
    exists taken rest,
      sorted = taken ++ rest /\
      selectedUtxos r = selectedUtxos sel0 ++ taken /\
      selectedTotalSat r = selectedTotalSat sel0 + sumInputs taken /\
      (rest <> [] -> outputTotal + selFeeSat r <= selectedTotalSat r) /\
      (forall p q, taken = p ++ q -> p <> [] -> q <> [] ->
         selectedTotalSat sel0 + sumInputs p
         < outputTotal
           + estimateTxFee cfg rate (count (selectedUtxos sel0 ++ p))
               (determineTargetChangeOutputCount cfg unusedCount
                  (count (selectedUtxos sel0 ++ p))) addrs).
Proof.
  induction sorted as [|utxo rest IH]; intros sel0; cbv zeta.
  - exists [], []. simpl. rewrite app_nil_r. unfold sumInputs. simpl.
    split; [reflexivity|]. split; [reflexivity|]. split; [lia|].
    split; [intros H; contradiction|].
    intros p q H Hp _. symmetry in H. apply app_eq_nil in H. tauto.
  - simpl.
    set (sel' := {| selectedUtxos := selectedUtxos sel0 ++ [utxo];
                    selectedTotalSat := selectedTotalSat sel0 + inputSat utxo;
                    selFeeSat := _ |}).
    match goal with |- context [if ?b then _ else _] => destruct b eqn:E end.
    + exists [utxo], rest. simpl. unfold sumInputs. simpl.
      split; [reflexivity|]. split; [reflexivity|]. split; [lia|]. split; [intros _; lia|].
      intros p q H Hp Hq. destruct p as [|x p]; [contradiction|].
      injection H as _ H. symmetry in H. apply app_eq_nil in H. destruct H as [_ ->].
      contradiction.
    + destruct (IH sel') as (taken & rest' & Hsplit & Hsel & Htot & Hcov & Hmin).
      exists (utxo :: taken), rest'. simpl in Hsel, Htot.
      split; [simpl; now rewrite Hsplit|].
      split; [rewrite Hsel, <- app_assoc; reflexivity|].
      split; [rewrite Htot; unfold sumInputs; simpl; lia|].
      split; [exact Hcov|].
      intros p q H Hp Hq. destruct p as [|x p]; [contradiction|].
      injection H as <- H.
      destruct p as [|y p].
      * unfold sumInputs. simpl. simpl in E. lia.
      * specialize (Hmin (y :: p) q H ltac:(discriminate) Hq).
        simpl in Hmin. rewrite <- app_assoc in Hmin. simpl in Hmin.
        unfold sumInputs in *. simpl in *. lia.
Qed.

Lemma findIdeal_Some_of_Exists (lo hi : Z) (utxos : list InputUtxo) :
  Exists (fun u => lo <= inputSat u <= hi) utxos ->
  exists u, findIdeal lo hi utxos = Some u.
Proof.
  intros H. destruct (findIdeal lo hi utxos) as [u|] eqn:E; [eauto|].
  apply findIdeal_None in E. apply List.Exists_exists in H.
  destruct H as (u & Hu & Hw). rewrite List.Forall_forall in E.
  exfalso. exact (E u Hu Hw).
Qed.

(** X2.  When [useUnconfirmedUtxos] is false or left out, every input
    of a returned plan is a confirmed utxo. *)
Theorem buildPaymentTx_skips_unconfirmed (unusedUtxos : list UtxoInfo)
    (desiredOutputs : list TxOutput) (changeAddress : string) (rate : FeeRate)
    (useAll useUnconf : option bool) (tx : PaymentTx) :
  (forall l x, In x (sortUtxos l) -> In x l) ->
  orFalse useUnconf = false ->
  buildPaymentTx isValidAddress toBaseDenominationNumber isConfirmedUtxo sortUtxos cfg
    unusedUtxos desiredOutputs changeAddress rate useAll useUnconf = Ok tx ->
  Forall (fun u => isConfirmedUtxo (utxoInfo u) = true /\ In (utxoInfo u) unusedUtxos)
         (inputs tx).
Proof.
  intros Hsort Hunc H. apply buildPaymentTx_inv in H.
  destruct H as (ext0 & sel & fee1 & _ & _ & Hs & Hin & _).
  rewrite Hin, Hunc in *. clear Hin.
  apply selectInputUtxos_cases in Hs. destruct Hs as (utxos & Hc & Hs). cbv zeta in Hs.
  assert (Hconf : forall u, In u utxos ->
            isConfirmedUtxo (utxoInfo u) = true /\ In (utxoInfo u) unusedUtxos).
  { intros u Hu. pose proof (convertUtxos_infos _ _ _ Hc) as Hf.
    assert (Hi : In (utxoInfo u) (map utxoInfo utxos)) by (apply in_map; exact Hu).
    rewrite Hf in Hi. apply filter_In in Hi. simpl in Hi. tauto. }
  apply List.Forall_forall. intros u Hu. apply Hconf.
  destruct Hs as [(_ & ->) | [(_ & w & Hw & ->) | (_ & _ & ->)]].
  - exact Hu.
  - apply findIdeal_In in Hw. simpl in Hu. destruct Hu as [<-|[]]. tauto.
  - apply (accumulate_In sortUtxos) in Hu. simpl in Hu. destruct Hu as [[]|Hu]. apply Hsort. exact Hu.
Qed.

(** X3.  With [useAllUtxos], the inputs of a returned plan are all the
    candidates that pass the confirmation filter, in the order given:
    every candidate when [useUnconfirmedUtxos] is set. *)
Theorem buildPaymentTx_sweep_uses_all (unusedUtxos : list UtxoInfo)
    (desiredOutputs : list TxOutput) (changeAddress : string) (rate : FeeRate)
    (useAll useUnconf : option bool) (tx : PaymentTx) :
  orFalse useAll = true ->
  buildPaymentTx isValidAddress toBaseDenominationNumber isConfirmedUtxo sortUtxos cfg
    unusedUtxos desiredOutputs changeAddress rate useAll useUnconf = Ok tx ->
  map utxoInfo (inputs tx)
    = List.filter (fun u => orFalse useUnconf || isConfirmedUtxo u) unusedUtxos
  /\
  (orFalse useUnconf = true -> map utxoInfo (inputs tx) = unusedUtxos).
Proof.
  intros Hall H. apply buildPaymentTx_inv in H.
  destruct H as (ext0 & sel & fee1 & _ & _ & Hs & Hin & _).
  rewrite Hin, Hall in *. clear Hin.
  apply selectInputUtxos_cases in Hs. destruct Hs as (utxos & Hc & Hs). cbv zeta in Hs.
  destruct Hs as [(_ & ->) | [(Hf & _) | (Hf & _)]]; try discriminate.
  simpl. pose proof (convertUtxos_infos _ _ _ Hc) as Hi. split; [exact Hi|].
  intros Hu. rewrite Hi, Hu. simpl. clear.
  induction unusedUtxos as [|x l IH]; simpl; [reflexivity | now rewrite IH].
Qed.

(** X4.  Outside sweep mode and when no single utxo is ideal, the
    selected inputs are a prefix of the sorted candidates, and the
    shortest one that covers the outputs and its own fee: the loop
    goes on to the end only when no prefix covers, and no shorter
    prefix of the selection covers. *)
Theorem selectInputUtxos_first_covering_prefix (unusedUtxos : list UtxoInfo)
    (outputTotal : Z) (addrs : list string) (rate : FeeRate) (useUnconf : bool)
    (utxos : list InputUtxo) (sel : Selection) :
  convertUtxos toBaseDenominationNumber isConfirmedUtxo useUnconf unusedUtxos = Ok utxos ->
  Forall (fun u =>
            ~ (outputTotal + estimateTxFee cfg rate 1 0 addrs <= inputSat u
               <= outputTotal + estimateTxFee cfg rate 1 0 addrs + dustThreshold cfg))
         utxos ->
  selectInputUtxos toBaseDenominationNumber isConfirmedUtxo sortUtxos cfg
    unusedUtxos outputTotal addrs rate false useUnconf = Ok sel ->
  exists rest,
    sortUtxos utxos = selectedUtxos sel ++ rest /\
    selectedTotalSat sel = sumInputs (selectedUtxos sel) /\
    (rest <> [] -> outputTotal + selFeeSat sel <= selectedTotalSat sel) /\
    (forall p q, selectedUtxos sel = p ++ q -> p <> [] -> q <> [] ->
       sumInputs p
       < outputTotal
         + estimateTxFee cfg rate (count p)
             (determineTargetChangeOutputCount cfg (count unusedUtxos) (count p)) addrs).
Proof.
  intros Hc Hno Hs.
  apply selectInputUtxos_cases in Hs. destruct Hs as (utxos' & Hc' & Hs). cbv zeta in Hs.
  rewrite Hc in Hc'. injection Hc' as <-.
  destruct Hs as [(Hf & _) | [(_ & u & Hu & _) | (_ & _ & ->)]]; [discriminate| |].
  - exfalso. apply findIdeal_In in Hu. destruct Hu as [Hin Hw].
    rewrite List.Forall_forall in Hno. exact (Hno u Hin Hw).
  - match goal with |- context [accumulate _ ?a ?b ?c ?d ?e ?f] =>
      destruct (accumulate_prefix a b c d e f)
        as (taken & rest & Hsplit & Hsel & Htot & Hcov & Hmin);
      set (r := accumulate _ a b c d e f) in *
    end.
    simpl in Hsel, Htot, Hmin. exists rest. rewrite Hsel.
    split; [exact Hsplit|]. split; [lia|]. split; [exact Hcov|].
    intros p q Hpq Hp Hq. exact (Hmin p q Hpq Hp Hq).
Qed.

(** The plan of a run that finds an ideal single input. *)
Lemma ideal_single_input_plan (unusedUtxos : list UtxoInfo)
    (desiredOutputs : list TxOutput) (changeAddress : string) (rate : FeeRate)
    (useAll useUnconf : option bool) (tx : PaymentTx)
    (ext0 : list TxOutputSatoshis) (utxos : list InputUtxo) :
  (0 <= feeRate rate)%Q ->
  (forall m, minTxFee cfg = Some m -> (0 <= feeRate m)%Q) ->
  orFalse useAll = false ->
  validateOutputs isValidAddress toBaseDenominationNumber 0 desiredOutputs = Ok ext0 ->
  convertUtxos toBaseDenominationNumber isConfirmedUtxo (orFalse useUnconf) unusedUtxos
    = Ok utxos ->
  let fee0 := estimateTxFee cfg rate 1 0 (map satAddress ext0) in
  Exists (fun u => sumOutputs ext0 + fee0 <= inputSat u
                   <= sumOutputs ext0 + fee0 + dustThreshold cfg) utxos ->
  buildPaymentTx isValidAddress toBaseDenominationNumber isConfirmedUtxo sortUtxos cfg
    unusedUtxos desiredOutputs changeAddress rate useAll useUnconf = Ok tx ->
  exists u,
    In u utxos /\
    sumOutputs ext0 + fee0 <= inputSat u <= sumOutputs ext0 + fee0 + dustThreshold cfg /\
    inputs tx = [u] /\
    externalOutputs tx = ext0 /\
    changeOutputs tx = [] /\
    fee tx = inputSat u - sumOutputs ext0.
Proof.
  intros Hrate Hmin Hall Hv Hc fee0 Hex H. apply buildPaymentTx_inv in H.
  destruct H as (ext0' & sel & fee1 & Hv' & _ & Hs & Hin & Hw & Hch & _).
  rewrite Hv in Hv'. injection Hv' as <-. rewrite Hall in Hs.
  apply selectInputUtxos_cases in Hs. destruct Hs as (utxos' & Hc' & Hs). cbv zeta in Hs.
  rewrite Hc in Hc'. injection Hc' as <-. fold fee0 in Hs.
  destruct (findIdeal_Some_of_Exists _ _ _ Hex) as [u Hu].
  destruct Hs as [(Hf & _) | [(_ & u' & Hu' & ->) | (_ & Hn & _)]];
    [discriminate | | congruence].
  rewrite Hu in Hu'. injection Hu' as <-.
  apply findIdeal_In in Hu. destruct Hu as [Huin Hwin].
  simpl in *. exists u. split; [exact Huin|]. split; [exact Hwin|]. split; [exact Hin|].
  apply accountForSweep_Ok in Hw.
  destruct Hw as [(_ & Hext & HextT & Hfee) | (Hshort & _)]; [|lia].
  split; [exact Hext|]. rewrite HextT, Hfee in Hch. clear Hext HextT Hfee.
  apply handleChange_inv in Hch. cbv zeta in Hch.
  set (T := inputSat u - sumOutputs ext0 - fee0) in *.
  set (ws := createWeightedChangeOutputs _ _) in *.
  assert (Hkept : allocateChange cfg T (sumZ (map weight ws)) ws = []).
  { apply allocateChange_all_dropped; [unfold T; lia | unfold T; lia|].
    apply createWeightedChangeOutputs_weights. }
  rewrite Hkept in Hch.
  assert (Hre : fee0 <= estimateTxFee cfg rate (count [u])
                          (lengthOr1 (@nil TxOutputSatoshis)) (map satAddress ext0)).
  { unfold fee0. apply estimateTxFee_size_mono; try assumption.
    unfold estimateTxSize, lengthOr1, count. simpl. lia. }
  set (recalc := estimateTxFee cfg rate (count [u]) _ _) in *.
  assert (Hf1 : (if fee0 >? recalc then recalc else fee0) = fee0).
  { destruct (Z.gtb_spec fee0 recalc); [lia | reflexivity]. }
  rewrite Hf1 in Hch. unfold sumOutputs in Hch. simpl in Hch.
  destruct Hch as (HT & HL & _ & [(Hp & _) | [(_ & Hd & _) | (_ & _ & Hcs & Hf)]]).
  - unfold count in Hp. simpl in Hp. lia.
  - unfold T in Hd. lia.
  - split; [exact Hcs|]. rewrite Hf. unfold T. lia.
Qed.

(** Such a run returns. *)
Lemma ideal_single_input_returns (unusedUtxos : list UtxoInfo)
    (desiredOutputs : list TxOutput) (changeAddress : string) (rate : FeeRate)
    (useAll useUnconf : option bool)
    (ext0 : list TxOutputSatoshis) (utxos : list InputUtxo) :
  orFalse useAll = false ->
  validateOutputs isValidAddress toBaseDenominationNumber 0 desiredOutputs = Ok ext0 ->
  isValidAddress changeAddress = true ->
  convertUtxos toBaseDenominationNumber isConfirmedUtxo (orFalse useUnconf) unusedUtxos
    = Ok utxos ->
  let fee0 := estimateTxFee cfg rate 1 0 (map satAddress ext0) in
  Exists (fun u => sumOutputs ext0 + fee0 <= inputSat u
                   <= sumOutputs ext0 + fee0 + dustThreshold cfg) utxos ->
  exists tx,
    buildPaymentTx isValidAddress toBaseDenominationNumber isConfirmedUtxo sortUtxos cfg
      unusedUtxos desiredOutputs changeAddress rate useAll useUnconf = Ok tx.
Proof.
  intros Hall Hv Ha Hc fee0 Hex.
  destruct (findIdeal_Some_of_Exists _ _ _ Hex) as [u Hu].
  pose proof Hu as Hwin. apply findIdeal_In in Hwin. destruct Hwin as [_ Hwin].
  unfold buildPaymentTx. rewrite Hv. cbn [bind]. rewrite Ha. cbn [negb].
  unfold selectInputUtxos. rewrite Hc, Hall. cbn [bind]. fold fee0. rewrite Hu.
  cbn [bind selectedUtxos selectedTotalSat selFeeSat].
  unfold accountForSweep.
  destruct (Z.gtb_spec (sumOutputs ext0 + fee0) (inputSat u)) as [Hgt|_]; [lia|].
  cbn [bind].
  destruct (handleChange_total cfg (count unusedUtxos) [u] (map satAddress ext0)
              changeAddress rate (inputSat u) (sumOutputs ext0) fee0 ltac:(lia))
    as [[[changes fee'] change'] Hh].
  rewrite Hh. cbn [bind]. eexists. reflexivity.
Qed.

(** X5.  Outside sweep mode and with non-negative rates, for valid
    desired outputs and a valid change address, when some candidate
    lies in the ideal window [[outputs + fee, outputs + fee +
    dustThreshold]] (fee for one input and no change),
    [buildPaymentTx] returns a plan that has such a candidate as its
    single input, pays the desired amounts, has no change output, and
    whose fee is all the input leaves. *)
Theorem buildPaymentTx_ideal_single_input (unusedUtxos : list UtxoInfo)
    (desiredOutputs : list TxOutput) (changeAddress : string) (rate : FeeRate)
    (useAll useUnconf : option bool)
    (ext0 : list TxOutputSatoshis) (utxos : list InputUtxo) :
  (0 <= feeRate rate)%Q ->
  (forall m, minTxFee cfg = Some m -> (0 <= feeRate m)%Q) ->
  orFalse useAll = false ->
  validateOutputs isValidAddress toBaseDenominationNumber 0 desiredOutputs = Ok ext0 ->
  isValidAddress changeAddress = true ->
  convertUtxos toBaseDenominationNumber isConfirmedUtxo (orFalse useUnconf) unusedUtxos
    = Ok utxos ->
  let fee0 := estimateTxFee cfg rate 1 0 (map satAddress ext0) in
  Exists (fun u => sumOutputs ext0 + fee0 <= inputSat u
                   <= sumOutputs ext0 + fee0 + dustThreshold cfg) utxos ->
  exists tx u,
    buildPaymentTx isValidAddress toBaseDenominationNumber isConfirmedUtxo sortUtxos cfg
      unusedUtxos desiredOutputs changeAddress rate useAll useUnconf = Ok tx /\
    In u utxos /\
    sumOutputs ext0 + fee0 <= inputSat u <= sumOutputs ext0 + fee0 + dustThreshold cfg /\
    inputs tx = [u] /\
    externalOutputs tx = ext0 /\
    changeOutputs tx = [] /\
    fee tx = inputSat u - sumOutputs ext0.
Proof.
  intros Hrate Hmin Hall Hv Ha Hc fee0 Hex.
  destruct (ideal_single_input_returns unusedUtxos desiredOutputs changeAddress rate
              useAll useUnconf ext0 utxos Hall Hv Ha Hc Hex) as [tx Htx].
  destruct (ideal_single_input_plan unusedUtxos desiredOutputs changeAddress rate
              useAll useUnconf tx ext0 utxos Hrate Hmin Hall Hv Hc Hex Htx)
    as (u & Hu).
  exists tx, u. split; [exact Htx | exact Hu].
Qed.

(** *** Which block of [buildPaymentTx] throws what *)

Lemma validateOutputs_Throw (desiredOutputs : list TxOutput) :
  forall j e,
    validateOutputs isValidAddress toBaseDenominationNumber j desiredOutputs = Throw e ->
    exists i d,
      nth_error desiredOutputs i = Some d /\
      Forall (fun d' => isValidAddress (address d') = true /\
                        exists s, toBaseDenominationNumber (outValue d') = Some s /\ 0 < s)
             (firstn i desiredOutputs) /\
      ((isValidAddress (address d) = false /\
        e = InvalidOutputAddress (j + i) (address d))
       \/
       (isValidAddress (address d) = true /\
        toBaseDenominationNumber (outValue d) = None /\
        e = InvalidOutputValue (j + i) (address d))
       \/
       (isValidAddress (address d) = true /\
        (exists s, toBaseDenominationNumber (outValue d) = Some s /\ s <= 0) /\
        e = NonPositiveOutputValue (j + i) (address d))).
Proof.
  induction desiredOutputs as [|d rest IH]; simpl; intros j e H; [discriminate|].
  destruct (isValidAddress (address d)) eqn:Ea; simpl in H.
  - destruct (toBaseDenominationNumber (outValue d)) as [sat|] eqn:Es.
    + destruct (sat <=? 0) eqn:E0.
      * injection H as <-. exists 0%nat, d. rewrite Nat.add_0_r. simpl.
        split; [reflexivity|]. split; [constructor|]. right. right.
        split; [exact Ea|]. split; [exists sat; split; [exact Es | lia] | reflexivity].
      * destruct (validateOutputs _ _ (S j) rest) as [r|e'] eqn:Hr; simpl in H;
          [discriminate|]. injection H as <-.
        destruct (IH _ _ Hr) as (i & d' & Hn & HF & Hcase).
        exists (S i), d'. simpl. split; [exact Hn|]. split.
        -- constructor; [|exact HF]. split; [exact Ea|]. exists sat. split; [exact Es | lia].
        -- replace (j + S i)%nat with (S j + i)%nat by lia. exact Hcase.
    + injection H as <-. exists 0%nat, d. rewrite Nat.add_0_r. simpl.
      split; [reflexivity|]. split; [constructor|]. right. left. tauto.
  - injection H as <-. exists 0%nat, d. rewrite Nat.add_0_r. simpl.
    split; [reflexivity|]. split; [constructor|]. left. tauto.
Qed.

Lemma validateOutputs_valid (desiredOutputs : list TxOutput) :
  forall j ext,
    validateOutputs isValidAddress toBaseDenominationNumber j desiredOutputs = Ok ext ->
    Forall (fun d => isValidAddress (address d) = true /\
                     exists s, toBaseDenominationNumber (outValue d) = Some s /\ 0 < s)
           desiredOutputs /\
    map satAddress ext = map address desiredOutputs.
Proof.
  induction desiredOutputs as [|d rest IH]; simpl; intros j ext H.
  - injection H as <-. split; [constructor | reflexivity].
  - destruct (isValidAddress (address d)) eqn:Ea; simpl in H; [|discriminate].
    destruct (toBaseDenominationNumber (outValue d)) as [sat|] eqn:Es; [|discriminate].
    destruct (sat <=? 0) eqn:E0; [discriminate|].
    apply bind_Ok_inv in H. destruct H as [r [Hr H]]. injection H as <-.
    destruct (IH _ _ Hr) as [HF Hm]. split.
    + constructor; [|exact HF]. split; [exact Ea|]. exists sat. split; [exact Es | lia].
    + simpl. now rewrite Hm.
Qed.

(** How far a throwing run got. *)
Lemma buildPaymentTx_Throw_inv (unusedUtxos : list UtxoInfo) (desiredOutputs : list TxOutput)
    (changeAddress : string) (rate : FeeRate) (useAll useUnconf : option bool)
    (e : BuildError) :
  buildPaymentTx isValidAddress toBaseDenominationNumber isConfirmedUtxo sortUtxos cfg
    unusedUtxos desiredOutputs changeAddress rate useAll useUnconf = Throw e ->
  validateOutputs isValidAddress toBaseDenominationNumber 0 desiredOutputs = Throw e
  \/
  exists ext0,
    validateOutputs isValidAddress toBaseDenominationNumber 0 desiredOutputs = Ok ext0 /\
    ((isValidAddress changeAddress = false /\ e = InvalidChangeAddress changeAddress)
     \/
     (isValidAddress changeAddress = true /\
      (selectInputUtxos toBaseDenominationNumber isConfirmedUtxo sortUtxos cfg
         unusedUtxos (sumOutputs ext0) (map satAddress ext0) rate
         (orFalse useAll) (orFalse useUnconf) = Throw e
       \/
       exists sel,
         selectInputUtxos toBaseDenominationNumber isConfirmedUtxo sortUtxos cfg
           unusedUtxos (sumOutputs ext0) (map satAddress ext0) rate
           (orFalse useAll) (orFalse useUnconf) = Ok sel /\
         accountForSweep cfg ext0 (sumOutputs ext0) (selectedTotalSat sel) (selFeeSat sel)
           = Throw e))).
Proof.
  intros H. unfold buildPaymentTx in H.
  destruct (validateOutputs _ _ 0 desiredOutputs) as [ext0|e0] eqn:Hv; simpl in H;
    [|left; congruence].
  right. exists ext0. split; [reflexivity|].
  destruct (isValidAddress changeAddress); simpl in H;
    [|left; split; [reflexivity | congruence]].
  right. split; [reflexivity|].
  destruct (selectInputUtxos _ _ _ _ unusedUtxos _ _ rate _ _) as [sel|e0] eqn:Hs;
    simpl in H; [|left; congruence].
  right. exists sel. split; [reflexivity|].
  destruct (accountForSweep cfg ext0 _ _ _) as [[[outs extT] fee1]|e0] eqn:Hw;
    simpl in H; [|congruence].
  exfalso.
  assert (HT : 0 <= selectedTotalSat sel - extT - fee1).
  { apply accountForSweep_Ok in Hw.
    destruct Hw as [(Hfit & _ & -> & ->) | (_ & Heq & _ & Hw)]; [lia|].
    cbv zeta in Hw. destruct Hw as (_ & _ & -> & ->). lia. }
  destruct (handleChange_total cfg (count unusedUtxos) (selectedUtxos sel)
              (map satAddress ext0) changeAddress rate _ _ _ HT) as [[[c f] t] Hh].
  rewrite Hh in H. simpl in H. discriminate.
Qed.

Lemma convertUtxos_Throw (useUnconf : bool) (unusedUtxos : list UtxoInfo) :
  forall e,
    convertUtxos toBaseDenominationNumber isConfirmedUtxo useUnconf unusedUtxos = Throw e ->
    exists u, In u unusedUtxos /\ utxoSatoshis toBaseDenominationNumber u = None /\
              e = InvalidUtxoValue u.
Proof.
  induction unusedUtxos as [|x rest IH]; simpl; intros e H; [discriminate|].
  destruct (negb useUnconf && negb (isConfirmedUtxo x)).
  - destruct (IH _ H) as (u & Hu & Hn & ->). exists u. tauto.
  - destruct (utxoSatoshis toBaseDenominationNumber x) eqn:Ex.
    + destruct (convertUtxos _ _ useUnconf rest) as [r|e'] eqn:Hr; simpl in H;
        [discriminate|]. injection H as <-.
      destruct (IH _ eq_refl) as (u & Hu & Hn & ->). exists u. tauto.
    + injection H as <-. exists x. split; [now left | tauto].
Qed.

Lemma selectInputUtxos_Throw (unusedUtxos : list UtxoInfo) (outputTotal : Z)
    (addrs : list string) (rate : FeeRate) (useAll useUnconf : bool) (e : BuildError) :
  selectInputUtxos toBaseDenominationNumber isConfirmedUtxo sortUtxos cfg
    unusedUtxos outputTotal addrs rate useAll useUnconf = Throw e ->
  exists u, In u unusedUtxos /\ utxoSatoshis toBaseDenominationNumber u = None /\
            e = InvalidUtxoValue u.
Proof.
  unfold selectInputUtxos.
  destruct (convertUtxos _ _ useUnconf unusedUtxos) as [utxos|e'] eqn:Hc; simpl.
  - destruct useAll; [discriminate|]. destruct (findIdeal _ _ utxos); discriminate.
  - intros [= <-]. exact (convertUtxos_Throw _ _ _ Hc).
Qed.

Lemma accountForSweep_Insufficient (ext : list TxOutputSatoshis)
    (extTotal inputTotal feeSat a o f : Z) :
  accountForSweep cfg ext extTotal inputTotal feeSat = Throw (InsufficientFunds a o f) ->
  a = inputTotal /\ o = extTotal /\ f = feeSat /\ inputTotal < extTotal + feeSat /\
  extTotal <> inputTotal.
Proof.
  unfold accountForSweep.
  destruct (Z.gtb_spec (extTotal + feeSat) inputTotal); [|discriminate].
  destruct (Z.eqb_spec extTotal inputTotal).
  - destruct (count ext =? 0); [discriminate|].
    destruct (subtractFeeShare cfg 0 _ ext) as [r|e'] eqn:Hs; simpl; [discriminate|].
    intros [= ->]. apply subtractFeeShare_Throw in Hs.
    destruct Hs as [(j & sat & Hd) _]. discriminate.
  - intros [= <- <- <-]. repeat split; solve [lia | assumption].
Qed.

Lemma sumInputs_Permutation (l l' : list InputUtxo) :
  Permutation l l' -> sumInputs l = sumInputs l'.
Proof.
  unfold sumInputs. induction 1; simpl; try lia.
Qed.

(** X6.  The insufficient-funds error is thrown only when the desired
    total plus the fee exceeds the total of all usable candidates, and
    it reports that total: the planner never gives up while an unused
    usable utxo is left. *)
Theorem buildPaymentTx_insufficient_only_when_short (unusedUtxos : list UtxoInfo)
    (desiredOutputs : list TxOutput) (changeAddress : string) (rate : FeeRate)
    (useAll useUnconf : option bool) (a o f : Z) :
  (forall l, Permutation (sortUtxos l) l) ->
  buildPaymentTx isValidAddress toBaseDenominationNumber isConfirmedUtxo sortUtxos cfg
    unusedUtxos desiredOutputs changeAddress rate useAll useUnconf
    = Throw (InsufficientFunds a o f) ->
  exists ext0 utxos,
    validateOutputs isValidAddress toBaseDenominationNumber 0 desiredOutputs = Ok ext0 /\
    convertUtxos toBaseDenominationNumber isConfirmedUtxo (orFalse useUnconf) unusedUtxos
      = Ok utxos /\
    o = sumOutputs ext0 /\
    a = sumInputs utxos /\
    a < o + f /\ a <> o.
Proof.
  intros Hperm H. apply buildPaymentTx_Throw_inv in H.
  destruct H as [H | (ext0 & Hv & [(_ & H) | (_ & [H | (sel & Hs & Hw)])])].
  - apply validateOutputs_Throw in H. destruct H as (i & d & _ & _ & [H|[H|H]]);
      destruct H as (_ & H); try destruct H as (_ & H); discriminate.
  - discriminate.
  - apply selectInputUtxos_Throw in H. destruct H as (u & _ & _ & H). discriminate.
  - apply accountForSweep_Insufficient in Hw. destruct Hw as (-> & -> & -> & Hshort & Hne).
    pose proof (selectInputUtxos_total _ _ _ _ _ _ _ _ _ _ _ Hs) as Htot.
    apply selectInputUtxos_cases in Hs. destruct Hs as (utxos & Hc & Hs). cbv zeta in Hs.
    exists ext0, utxos. split; [exact Hv|]. split; [exact Hc|]. split; [reflexivity|].
    split; [|split; [lia | congruence]].
    destruct Hs as [(_ & ->) | [(_ & u & Hu & ->) | (_ & _ & Hacc)]].
    + reflexivity.
    + apply findIdeal_In in Hu. simpl in *. lia.
    + match type of Hacc with _ = accumulate _ ?a ?b ?c ?d ?e ?f =>
        destruct (accumulate_prefix a b c d e f)
          as (taken & rest & Hsplit & Hsel & Htot' & Hcov & _)
      end.
      rewrite <- Hacc in Hsel, Htot', Hcov. simpl in Hsel, Htot'.
      destruct rest as [|x rest].
      * rewrite app_nil_r in Hsplit. rewrite Htot', <- Hsplit.
        rewrite (sumInputs_Permutation _ _ (Hperm utxos)). lia.
      * specialize (Hcov ltac:(discriminate)). lia.
Qed.

Lemma subtractFeeShare_first (feeShare : Z) (ext : list TxOutputSatoshis) :
  forall i e,
    subtractFeeShare cfg i feeShare ext = Throw e ->
    exists j o,
      nth_error ext j = Some o /\
      e = DustOutput (i + j) (outSat o - feeShare) feeShare /\
      outSat o - feeShare <= dustThreshold cfg /\
      Forall (fun o' => dustThreshold cfg < outSat o' - feeShare) (firstn j ext).
Proof.
  induction ext as [|o rest IH]; simpl; intros i e H; [discriminate|].
  destruct (Z.leb_spec (outSat o - feeShare) (dustThreshold cfg)) as [Hle|Hgt].
  - injection H as <-. exists 0%nat, o. rewrite Nat.add_0_r. simpl.
    split; [reflexivity|]. split; [reflexivity|]. split; [exact Hle | constructor].
  - destruct (subtractFeeShare cfg (S i) feeShare rest) as [r|e'] eqn:Hr; simpl in H;
      [discriminate|]. injection H as <-.
    destruct (IH _ _ Hr) as (j & o' & Hn & -> & Hle & HF).
    exists (S j), o'. simpl. split; [exact Hn|].
    split; [f_equal; lia|]. split; [exact Hle|]. constructor; assumption.
Qed.

(** X7.  The dust error comes only from a sweep, where the desired
    total equals the total of the selected inputs and the fee is taken
    out of the outputs in equal shares: it names the first desired
    output that its share would leave at or under the dust threshold,
    with what would be left of it. *)
Theorem buildPaymentTx_dust_error (unusedUtxos : list UtxoInfo)
    (desiredOutputs : list TxOutput) (changeAddress : string) (rate : FeeRate)
    (useAll useUnconf : option bool) (j : nat) (sat share : Z) :
  buildPaymentTx isValidAddress toBaseDenominationNumber isConfirmedUtxo sortUtxos cfg
    unusedUtxos desiredOutputs changeAddress rate useAll useUnconf
    = Throw (DustOutput j sat share) ->
  exists ext0 sel o,
    validateOutputs isValidAddress toBaseDenominationNumber 0 desiredOutputs = Ok ext0 /\
    selectInputUtxos toBaseDenominationNumber isConfirmedUtxo sortUtxos cfg
      unusedUtxos (sumOutputs ext0) (map satAddress ext0) rate
      (orFalse useAll) (orFalse useUnconf) = Ok sel /\
    sumOutputs ext0 = selectedTotalSat sel /\
    share = Qceiling (inject_Z (selFeeSat sel) / inject_Z (count ext0)) /\
    nth_error ext0 j = Some o /\
    sat = outSat o - share /\ sat <= dustThreshold cfg /\
    Forall (fun o' => dustThreshold cfg < outSat o' - share) (firstn j ext0).
Proof.
  intros H. apply buildPaymentTx_Throw_inv in H.
  destruct H as [H | (ext0 & Hv & [(_ & H) | (_ & [H | (sel & Hs & Hw)])])].
  - apply validateOutputs_Throw in H. destruct H as (i & d & _ & _ & [H|[H|H]]);
      destruct H as (_ & H); try destruct H as (_ & H); discriminate.
  - discriminate.
  - apply selectInputUtxos_Throw in H. destruct H as (u & _ & _ & H). discriminate.
  - unfold accountForSweep in Hw.
    destruct (_ >? _); [|discriminate].
    destruct (Z.eqb_spec (sumOutputs ext0) (selectedTotalSat sel)) as [Heq|Hne];
      [|discriminate].
    destruct (count ext0 =? 0); [discriminate|].
    destruct (subtractFeeShare cfg 0 _ ext0) as [r|e'] eqn:Hsub; simpl in Hw;
      [discriminate|]. injection Hw as ->.
    apply subtractFeeShare_first in Hsub.
    destruct Hsub as (k & o & Hn & He & Hle & HF). simpl in He.
    injection He as -> -> Hshare.
    subst share. exists ext0, sel, o.
    split; [exact Hv|]. split; [exact Hs|]. split; [exact Heq|].
    split; [reflexivity|]. split; [exact Hn|]. split; [reflexivity|].
    split; [exact Hle | exact HF].
Qed.

(** *** The change outputs of a plan *)

Lemma allocateChange_addresses (T W : Z) (ws : list WeightedChangeOutput) (a : string) :
  Forall (fun w => changeTo w = a) ws ->
  Forall (fun o => satAddress o = a) (allocateChange cfg T W ws).
Proof.
  induction 1 as [|w rest Hw _ IH]; simpl; [constructor|].
  destruct ((_ <=? _) || (_ <? _)); [exact IH|]. constructor; [exact Hw | exact IH].
Qed.

Lemma createWeightedChangeOutputs_changeTo (k : Z) (a : string) :
  Forall (fun w => changeTo w = a) (createWeightedChangeOutputs k a).
Proof.
  unfold createWeightedChangeOutputs. apply List.Forall_forall. intros w Hw.
  apply in_map_iff in Hw. destruct Hw as (i & <- & _). reflexivity.
Qed.

Lemma handleChange_addresses (unusedCount : Z) (inputUtxos : list InputUtxo)
    (addrs : list string) (changeAddress : string) (rate : FeeRate)
    (inputTotal ext feeSat : Z) (changes : list TxOutputSatoshis) (fee' change' : Z) :
  handleChange cfg unusedCount inputUtxos addrs changeAddress rate inputTotal ext feeSat
    = Ok (changes, fee', change') ->
  Forall (fun o => satAddress o = changeAddress) changes /\
  count changes
    <= Z.max 1 (determineTargetChangeOutputCount cfg unusedCount (count inputUtxos)).
Proof.
  intros H. apply handleChange_inv in H. cbv zeta in H.
  destruct H as (_ & _ & _ & H).
  set (k := determineTargetChangeOutputCount cfg unusedCount (count inputUtxos)) in *.
  set (ws := createWeightedChangeOutputs k changeAddress) in *.
  set (T := inputTotal - ext - feeSat) in *.
  pose proof (allocateChange_addresses T (sumZ (map weight ws)) ws changeAddress
                (createWeightedChangeOutputs_changeTo k changeAddress)) as Ha.
  pose proof (allocateChange_count cfg T (sumZ (map weight ws)) ws) as Hc.
  pose proof (createWeightedChangeOutputs_count k changeAddress) as Hk. fold ws in Hk.
  destruct H as [(_ & _ & -> & _) | [(_ & _ & -> & _) | (_ & _ & -> & _)]].
  - split.
    + apply List.Forall_map. revert Ha. apply List.Forall_impl. intros o Ho. exact Ho.
    + rewrite count_map. lia.
  - split; [repeat constructor|]. unfold count. simpl. lia.
  - split; [exact Ha | lia].
Qed.

Lemma count_app {A} (l l' : list A) : count (l ++ l') = count l + count l'.
Proof. unfold count. rewrite List.length_app. lia. Qed.

Lemma count_Permutation {A} (l l' : list A) : Permutation l l' -> count l = count l'.
Proof. intros H. unfold count. now rewrite (Permutation_length H). Qed.

Lemma convertUtxos_count (useUnconf : bool) (unusedUtxos : list UtxoInfo)
    (utxos : list InputUtxo) :
  convertUtxos toBaseDenominationNumber isConfirmedUtxo useUnconf unusedUtxos = Ok utxos ->
  count utxos <= count unusedUtxos.
Proof.
  intros H. apply convertUtxos_infos in H.
  rewrite <- (count_map utxoInfo utxos), H. unfold count.
  pose proof (List.filter_length_le (fun u => useUnconf || isConfirmedUtxo u) unusedUtxos).
  lia.
Qed.

Lemma selectInputUtxos_count (unusedUtxos : list UtxoInfo) (outputTotal : Z)
    (addrs : list string) (rate : FeeRate) (useAll useUnconf : bool) (sel : Selection) :
  (forall l, Permutation (sortUtxos l) l) ->
  selectInputUtxos toBaseDenominationNumber isConfirmedUtxo sortUtxos cfg
    unusedUtxos outputTotal addrs rate useAll useUnconf = Ok sel ->
  count (selectedUtxos sel) <= count unusedUtxos.
Proof.
  intros Hperm H. apply selectInputUtxos_cases in H.
  destruct H as (utxos & Hc & H). cbv zeta in H.
  pose proof (convertUtxos_count _ _ _ Hc) as Hle.
  destruct H as [(_ & ->) | [(_ & u & Hu & ->) | (_ & _ & ->)]]; simpl.
  - exact Hle.
  - apply findIdeal_In in Hu. destruct Hu as [Hu _].
    destruct utxos as [|x utxos]; [contradiction|].
    unfold count in *. simpl in *. lia.
  - match goal with |- context [accumulate _ ?a ?b ?c ?d ?e ?f] =>
      destruct (accumulate_prefix a b c d e f) as (taken & rest & Hsplit & -> & _)
    end.
    simpl. pose proof (count_Permutation _ _ (Hperm utxos)) as Hp.
    rewrite Hsplit, count_app in Hp. pose proof (count_nonneg rest). lia.
Qed.

(** X8.  Every change output of a plan pays the change address, and
    when the sort only reorders its argument a plan has at most
    [max 1 targetUtxoPoolSize] change outputs. *)
Theorem buildPaymentTx_change_outputs (unusedUtxos : list UtxoInfo)
    (desiredOutputs : list TxOutput) (changeAddress : string) (rate : FeeRate)
    (useAll useUnconf : option bool) (tx : PaymentTx) :
  (forall l, Permutation (sortUtxos l) l) ->
  buildPaymentTx isValidAddress toBaseDenominationNumber isConfirmedUtxo sortUtxos cfg
    unusedUtxos desiredOutputs changeAddress rate useAll useUnconf = Ok tx ->
  Forall (fun o => satAddress o = changeAddress) (changeOutputs tx) /\
  count (changeOutputs tx) <= Z.max 1 (targetUtxoPoolSize cfg).
Proof.
  intros Hperm H. apply buildPaymentTx_inv in H.
  destruct H as (ext0 & sel & fee1 & _ & _ & Hs & _ & _ & Hh & _).
  apply handleChange_addresses in Hh. destruct Hh as [Ha Hc]. split; [exact Ha|].
  pose proof (selectInputUtxos_count _ _ _ _ _ _ _ Hperm Hs) as Hle.
  unfold determineTargetChangeOutputCount in Hc.
  destruct (Z.ltb_spec (count unusedUtxos - count (selectedUtxos sel))
              (targetUtxoPoolSize cfg)); lia.
Qed.

(** X9.  The derived fields of a plan agree with its output lists:
    [outputs] is the external outputs followed by the change outputs,
    [change] and [externalOutputTotal] are the sums of the two lists,
    and there is one external output for each desired output. *)
Theorem buildPaymentTx_fields_agree (unusedUtxos : list UtxoInfo)
    (desiredOutputs : list TxOutput) (changeAddress : string) (rate : FeeRate)
    (useAll useUnconf : option bool) (tx : PaymentTx) :
  buildPaymentTx isValidAddress toBaseDenominationNumber isConfirmedUtxo sortUtxos cfg
    unusedUtxos desiredOutputs changeAddress rate useAll useUnconf = Ok tx ->
  outputs tx = externalOutputs tx ++ changeOutputs tx /\
  change tx = sumOutputs (changeOutputs tx) /\
  externalOutputTotal tx = sumOutputs (externalOutputs tx) /\
  sumOutputs (outputs tx) = externalOutputTotal tx + change tx /\
  count (externalOutputs tx) = count desiredOutputs.
Proof.
  intros H. apply buildPaymentTx_inv in H.
  destruct H as (ext0 & sel & fee1 & Hv & _ & _ & _ & Hw & Hh & Ho).
  apply handleChange_sum in Hh. destruct Hh as [_ Hch].
  pose proof (accountForSweep_sum _ _ _ _ _ _ _ Hw) as Hext.
  split; [exact Ho|]. split; [exact Hch|]. split; [now rewrite Hext|]. split.
  - rewrite Ho. unfold sumOutputs in *. rewrite map_app, sumZ_app. lia.
  - apply validateOutputs_valid in Hv. destruct Hv as [_ Hm].
    apply accountForSweep_Ok in Hw.
    rewrite <- (count_map address desiredOutputs), <- Hm, count_map.
    destruct Hw as [(_ & -> & _) | (_ & _ & _ & Hw)]; [reflexivity|].
    cbv zeta in Hw. destruct Hw as (-> & _). now rewrite count_map.
Qed.

Lemma map_addSat_0 (l : list TxOutputSatoshis) : map (addSat (- 0)) l = l.
Proof.
  induction l as [|[a v] l IH]; simpl; [reflexivity|]. rewrite IH. unfold addSat. simpl.
  f_equal. f_equal. lia.
Qed.

(** X10.  A plan names the desired recipients, in order, and pays each
    the desired amount less one common fee share; the share is zero
    unless the desired total equals the total of the selected inputs. *)
Theorem buildPaymentTx_pays_recipients (unusedUtxos : list UtxoInfo)
    (desiredOutputs : list TxOutput) (changeAddress : string) (rate : FeeRate)
    (useAll useUnconf : option bool) (tx : PaymentTx) :
  buildPaymentTx isValidAddress toBaseDenominationNumber isConfirmedUtxo sortUtxos cfg
    unusedUtxos desiredOutputs changeAddress rate useAll useUnconf = Ok tx ->
  map satAddress (externalOutputs tx) = map address desiredOutputs /\
  exists ext0 share,
    validateOutputs isValidAddress toBaseDenominationNumber 0 desiredOutputs = Ok ext0 /\
    externalOutputs tx = map (addSat (- share)) ext0 /\
    (sumOutputs ext0 <> sumInputs (inputs tx) -> share = 0) /\
    (0 <= networkMinRelayFee cfg -> 0 <= share).
Proof.
  intros H. apply buildPaymentTx_inv in H.
  destruct H as (ext0 & sel & fee1 & Hv & _ & Hs & Hin & Hw & _ & _).
  pose proof Hs as Htot. apply selectInputUtxos_total in Htot.
  pose proof (validateOutputs_valid _ _ _ Hv) as [_ Hm].
  apply accountForSweep_Ok in Hw.
  destruct Hw as [(_ & Hout & _) | (_ & Heq & Hpos & Hw)].
  - split; [now rewrite Hout|]. exists ext0, 0. split; [exact Hv|].
    split; [now rewrite map_addSat_0|]. split; intros; lia.
  - cbv zeta in Hw. destruct Hw as (Hout & _).
    split; [now rewrite Hout, map_satAddress_addSat|].
    exists ext0, (Qceiling (inject_Z (selFeeSat sel) / inject_Z (count ext0))).
    split; [exact Hv|]. split; [exact Hout|]. split.
    + intros Hne. exfalso. apply Hne. rewrite Hin, Htot. exact Heq.
    + intros Hrelay. apply Qceiling_quot_nonneg; [exact Hpos|].
      revert Hs. apply selectInputUtxos_fee_nonneg. exact Hrelay.
Qed.

(** X11.  A plan is returned only for a valid change address and
    desired outputs that all have a valid address and a positive
    amount; an output-validation error names the first desired output
    that fails, with the reason that fits it. *)
Theorem buildPaymentTx_first_bad_output (unusedUtxos : list UtxoInfo)
    (desiredOutputs : list TxOutput) (changeAddress : string) (rate : FeeRate)
    (useAll useUnconf : option bool) :
  let good d := isValidAddress (address d) = true /\
                exists s, toBaseDenominationNumber (outValue d) = Some s /\ 0 < s in
  let run := buildPaymentTx isValidAddress toBaseDenominationNumber isConfirmedUtxo
               sortUtxos cfg unusedUtxos desiredOutputs changeAddress rate
               useAll useUnconf in
  (forall tx, run = Ok tx ->
     isValidAddress changeAddress = true /\ Forall good desiredOutputs) /\
  (forall e i a,
     run = Throw e ->
     e = InvalidOutputAddress i a \/ e = InvalidOutputValue i a \/
     e = NonPositiveOutputValue i a ->
     exists d,
       nth_error desiredOutputs i = Some d /\ address d = a /\
       Forall good (firstn i desiredOutputs) /\
       (e = InvalidOutputAddress i a <-> isValidAddress a = false) /\
       (e = InvalidOutputValue i a <->
        isValidAddress a = true /\ toBaseDenominationNumber (outValue d) = None) /\
       (e = NonPositiveOutputValue i a <->
        isValidAddress a = true /\
        exists s, toBaseDenominationNumber (outValue d) = Some s /\ s <= 0)).
Proof.
  cbv zeta. split.
  - intros tx H. apply buildPaymentTx_inv in H.
    destruct H as (ext0 & sel & fee1 & Hv & Ha & _).
    split; [exact Ha|]. exact (proj1 (validateOutputs_valid _ _ _ Hv)).
  - intros e i a H Hkind. apply buildPaymentTx_Throw_inv in H.
    destruct H as [H | (ext0 & Hv & [(_ & H) | (_ & [H | (sel & Hs & Hw)])])].
    + apply validateOutputs_Throw in H. destruct H as (k & d & Hn & HF & Hcase).
      simpl in Hcase.
      assert (Hik : i = k /\ a = address d).
      { destruct Hcase as [(_ & ->) | [(_ & _ & ->) | (_ & _ & ->)]];
          destruct Hkind as [Hk | [Hk | Hk]]; try discriminate;
          injection Hk as <- <-; split; reflexivity. }
      destruct Hik as [-> ->]. exists d.
      split; [exact Hn|]. split; [reflexivity|]. split; [exact HF|].
      destruct Hcase as [(Hbad & ->) | [(Hok & Hnone & ->) | (Hok & (s & Hs & Hle) & ->)]].
      * split; [tauto|]. split; (split; [discriminate | intros [Hc _]; congruence]).
      * split; [split; [discriminate | congruence]|].
        split; [tauto|]. split; [discriminate|].
        intros (_ & s & Hs & _). congruence.
      * split; [split; [discriminate | congruence]|].
        split; [split; [discriminate | intros [_ Hc]; congruence]|].
        split; [intros _; split; [exact Hok | exists s; tauto] | reflexivity].
    + subst e. destruct Hkind as [Hk | [Hk | Hk]]; discriminate.
    + apply selectInputUtxos_Throw in H. destruct H as (u & _ & _ & ->).
      destruct Hkind as [Hk | [Hk | Hk]]; discriminate.
    + exfalso. unfold accountForSweep in Hw.
      destruct (_ >? _); [|discriminate].
      destruct (_ =? _); [|injection Hw as <-; destruct Hkind as [Hk | [Hk | Hk]]; discriminate].
      destruct (count ext0 =? 0);
        [injection Hw as <-; destruct Hkind as [Hk | [Hk | Hk]]; discriminate|].
      destruct (subtractFeeShare cfg 0 _ ext0) as [r|e'] eqn:Hsub; simpl in Hw;
        [discriminate|]. injection Hw as <-.
      apply subtractFeeShare_Throw in Hsub. destruct Hsub as [(j & sat & ->) _].
      destruct Hkind as [Hk | [Hk | Hk]]; discriminate.
Qed.

(** *** The weights of the change outputs *)

Lemma sumZ_pow2_seq (n s : nat) :
  sumZ (map (fun i => 2 ^ Z.of_nat i) (seq s n)) = 2 ^ Z.of_nat (s + n) - 2 ^ Z.of_nat s.
Proof.
  revert s. induction n as [|n IH]; intros s; simpl.
  - rewrite Nat.add_0_r. lia.
  - rewrite IH. replace (s + S n)%nat with (S s + n)%nat by lia.
    replace (Z.of_nat (S s)) with (Z.succ (Z.of_nat s)) by lia.
    rewrite Z.pow_succ_r by lia.
    replace (Z.of_nat (S s + n)) with (Z.succ (Z.of_nat (s + n))) by lia.
    rewrite Z.pow_succ_r by lia. lia.
Qed.

End PlannerMoreFacts.

Lemma createWeightedChangeOutputs_sum (k : Z) (a : string) :
  0 <= k -> sumZ (map weight (createWeightedChangeOutputs k a)) = 2 ^ k - 1.
Proof.
  intros Hk. unfold createWeightedChangeOutputs.
  rewrite map_map. simpl. rewrite sumZ_pow2_seq. simpl. rewrite Z2Nat.id by lia. lia.
Qed.

(** X12.  The [k] change weights are the powers of two from 1 to
    [2^(k-1)], smallest first: they add up to [2^k - 1], and each one
    is more than all the earlier ones together. *)
Theorem createWeightedChangeOutputs_total_weight (k : Z) (a : string) :
  0 <= k ->
  sumZ (map weight (createWeightedChangeOutputs k a)) = 2 ^ k - 1 /\
  forall i w, nth_error (createWeightedChangeOutputs k a) i = Some w ->
    weight w = 2 ^ Z.of_nat i /\
    sumZ (map weight (firstn i (createWeightedChangeOutputs k a))) < weight w.
Proof.
  intros Hk. split; [now apply createWeightedChangeOutputs_sum|].
  unfold createWeightedChangeOutputs.
  intros i w Hn.
  pose proof (nth_error_Some (map (fun i => {| changeTo := a; weight := 2 ^ Z.of_nat i |})
                                  (seq 0 (Z.to_nat k))) i) as Hlen.
  rewrite Hn in Hlen. rewrite List.length_map, List.length_seq in Hlen.
  assert (Hi : (i < Z.to_nat k)%nat) by (apply Hlen; discriminate).
  rewrite nth_error_map, nth_error_seq in Hn.
  destruct (Nat.ltb_spec i (Z.to_nat k)); [|lia]. simpl in Hn. injection Hn as <-.
  simpl. split; [reflexivity|].
  rewrite firstn_map, take_seq, map_map. simpl. rewrite sumZ_pow2_seq.
  rewrite Nat.min_l by lia. simpl. lia.
Qed.

Section ChangeOrder.

Variable cfg : Config.

Lemma allocateChange_from (T W : Z) (ws : list WeightedChangeOutput) :
  Forall (fun o => exists w, In w ws /\ outSat o = changeShare T (weight w) W)
         (allocateChange cfg T W ws).
Proof.
  induction ws as [|w rest IH]; simpl; [constructor|].
  assert (IH' : Forall (fun o => exists w', (w = w' \/ In w' rest) /\
                                  outSat o = changeShare T (weight w') W)
                       (allocateChange cfg T W rest)).
  { revert IH. apply List.Forall_impl. intros o (w' & Hin & Ho). exists w'. tauto. }
  destruct ((_ <=? _) || (_ <? _)); [exact IH'|].
  constructor; [|exact IH']. exists w. simpl. tauto.
Qed.

Lemma allocateChange_sorted (T W : Z) (ws : list WeightedChangeOutput) :
  0 <= T -> 0 < W ->
  StronglySorted (fun a b => weight a <= weight b) ws ->
  StronglySorted (fun a b => outSat a <= outSat b) (allocateChange cfg T W ws).
Proof.
  intros HT HW. induction 1 as [|w rest Hs IH Hall]; simpl; [constructor|].
  destruct ((_ <=? _) || (_ <? _)); [exact IH|].
  constructor; [exact IH|]. simpl.
  pose proof (allocateChange_from T W rest) as Hfrom.
  apply List.Forall_forall. intros o Ho.
  rewrite List.Forall_forall in Hfrom, Hall.
  destruct (Hfrom o Ho) as (w' & Hin & ->).
  rewrite !changeShare_div by exact HW.
  apply Z.div_le_mono; [exact HW|]. specialize (Hall w' Hin). nia.
Qed.

Lemma createWeightedChangeOutputs_sorted (k : Z) (a : string) :
  StronglySorted (fun x y => weight x <= weight y) (createWeightedChangeOutputs k a).
Proof.
  unfold createWeightedChangeOutputs. generalize 0%nat as s.
  induction (Z.to_nat k) as [|n IH]; intros s; simpl; constructor; [apply IH|].
  apply List.Forall_forall. intros w Hw. apply in_map_iff in Hw.
  destruct Hw as (i & <- & Hi). apply in_seq in Hi. simpl.
  apply Z.pow_le_mono_r; lia.
Qed.

Lemma StronglySorted_addSat (x : Z) (l : list TxOutputSatoshis) :
  StronglySorted (fun a b => outSat a <= outSat b) l ->
  StronglySorted (fun a b => outSat a <= outSat b) (map (addSat x) l).
Proof.
  induction 1 as [|o rest Hs IH Hall]; simpl; constructor; [exact IH|].
  apply List.Forall_map. revert Hall. apply List.Forall_impl. intros o'. simpl. lia.
Qed.

End ChangeOrder.

Section ChangeOrderOfPlans.

Variable isValidAddress : string -> bool.
Variable toBaseDenominationNumber : string -> option Z.
Variable isConfirmedUtxo : UtxoInfo -> bool.
Variable sortUtxos : list InputUtxo -> list InputUtxo.
Variable cfg : Config.

(** X13.  The change outputs of a plan are listed smallest first, as
    their weights are. *)
Theorem buildPaymentTx_change_ascending (unusedUtxos : list UtxoInfo)
    (desiredOutputs : list TxOutput) (changeAddress : string) (rate : FeeRate)
    (useAll useUnconf : option bool) (tx : PaymentTx) :
  buildPaymentTx isValidAddress toBaseDenominationNumber isConfirmedUtxo sortUtxos cfg
    unusedUtxos desiredOutputs changeAddress rate useAll useUnconf = Ok tx ->
  StronglySorted (fun a b => outSat a <= outSat b) (changeOutputs tx).
Proof.
  intros H. apply buildPaymentTx_inv in H.
  destruct H as (ext0 & sel & fee1 & _ & _ & _ & _ & _ & Hh & _).
  apply handleChange_inv in Hh. cbv zeta in Hh. destruct Hh as (HT & _ & _ & Hh).
  set (k := determineTargetChangeOutputCount cfg (count unusedUtxos)
              (count (selectedUtxos sel))) in *.
  assert (Hk : 1 <= k) by apply determineTargetChangeOutputCount_pos.
  assert (HW : 0 < sumZ (map weight (createWeightedChangeOutputs k changeAddress))).
  { rewrite createWeightedChangeOutputs_sum by lia.
    assert (2 ^ 1 <= 2 ^ k) by (apply Z.pow_le_mono_r; lia). lia. }
  pose proof (allocateChange_sorted cfg _ _ _ HT HW
                (createWeightedChangeOutputs_sorted k changeAddress)) as Hsorted.
  destruct Hh as [(_ & _ & -> & _) | [(_ & _ & -> & _) | (_ & _ & -> & _)]].
  - apply StronglySorted_addSat. exact Hsorted.
  - repeat constructor.
  - exact Hsorted.
Qed.

End ChangeOrderOfPlans.


(** *** The theorems on the example coin *)

Lemma insertUtxo_Permutation (x : InputUtxo) (l : list InputUtxo) :
  Permutation (Fixture.insertUtxo x l) (x :: l).
Proof.
  induction l as [|y rest IH]; simpl; [reflexivity|].
  destruct (Fixture.utxoBefore x y); [reflexivity|].
  rewrite IH. apply perm_swap.
Qed.

Lemma sortUtxos_Permutation (l : list InputUtxo) : Permutation (Fixture.sortUtxos l) l.
Proof.
  unfold Fixture.sortUtxos. induction l as [|x l IH]; simpl; [reflexivity|].
  rewrite insertUtxo_Permutation. now constructor.
Qed.

Local Open Scope string_scope.

(** The fee estimate for one input and no change against two inputs
    and one change output. *)
Lemma estimateTxFee_monotone_witness :
  estimateTxFee Fixture.config (Fixture.perWeight 10) 1 0 ["A"]
  <= estimateTxFee Fixture.config (Fixture.perWeight 10) 2 1 ["A"; "B"].
Proof.
  apply (estimateTxFee_monotone Fixture.config (Fixture.perWeight 10) 1 0 2 1
           ["A"] ["A"; "B"]).
  - vm_compute. discriminate.
  - intros m Hm. vm_compute in Hm. discriminate.
  - lia.
  - lia.
  - vm_compute. discriminate.
Defined.

(** An unconfirmed utxo of the ideal size is passed over. *)
Lemma buildPaymentTx_skips_unconfirmed_witness :
  exists tx,
    Fixture.build Fixture.config
      [Fixture.utxo "a" 0 10000 None; Fixture.utxo "b" 0 50000 (Some "5")]
      [Scenario.out "A" "8000"] "C" (Fixture.perWeight 10) None None = Ok tx /\
    Forall (fun u => Fixture.isConfirmedUtxo (utxoInfo u) = true /\
                     In (utxoInfo u)
                        [Fixture.utxo "a" 0 10000 None;
                         Fixture.utxo "b" 0 50000 (Some "5")])
           (inputs tx).
Proof.
  eexists. split; [vm_compute; reflexivity|].
  apply (buildPaymentTx_skips_unconfirmed
           Fixture.isValidAddress Fixture.toBaseDenominationNumber
           Fixture.isConfirmedUtxo Fixture.sortUtxos Fixture.config
           [Fixture.utxo "a" 0 10000 None; Fixture.utxo "b" 0 50000 (Some "5")]
           [Scenario.out "A" "8000"] "C" (Fixture.perWeight 10) None None).
  - exact FixtureFacts.sortUtxos_In.
  - reflexivity.
  - vm_compute. reflexivity.
Defined.

(** Scenario 2, with an unconfirmed utxo among the candidates. *)
Lemma buildPaymentTx_sweep_uses_all_witness :
  exists tx,
    Fixture.build Fixture.config
      [Fixture.utxo "a" 0 30000 (Some "5"); Fixture.utxo "b" 0 20000 None]
      [Scenario.out "A" "50000"] "C" (Fixture.perWeight 10) (Some true) (Some true)
      = Ok tx /\
    map utxoInfo (inputs tx)
      = [Fixture.utxo "a" 0 30000 (Some "5"); Fixture.utxo "b" 0 20000 None].
Proof.
  eexists. split; [vm_compute; reflexivity|].
  apply (buildPaymentTx_sweep_uses_all
           Fixture.isValidAddress Fixture.toBaseDenominationNumber
           Fixture.isConfirmedUtxo Fixture.sortUtxos Fixture.config
           [Fixture.utxo "a" 0 30000 (Some "5"); Fixture.utxo "b" 0 20000 None]
           [Scenario.out "A" "50000"] "C" (Fixture.perWeight 10) (Some true) (Some true)).
  - reflexivity.
  - vm_compute. reflexivity.
  - reflexivity.
Defined.

(** Scenario 1. *)
Lemma buildPaymentTx_ideal_single_input_witness :
  exists tx u,
    Fixture.build Fixture.config
      [Fixture.utxo "a" 0 10000 (Some "5"); Fixture.utxo "b" 0 50000 (Some "5")]
      [Scenario.out "A" "8000"] "C" (Fixture.perWeight 10) None None = Ok tx /\
    inputs tx = [u] /\ inputSat u = 10000 /\
    changeOutputs tx = [] /\ fee tx = 2000.
Proof.
  destruct (buildPaymentTx_ideal_single_input
              Fixture.isValidAddress Fixture.toBaseDenominationNumber
              Fixture.isConfirmedUtxo Fixture.sortUtxos Fixture.config
              [Fixture.utxo "a" 0 10000 (Some "5"); Fixture.utxo "b" 0 50000 (Some "5")]
              [Scenario.out "A" "8000"] "C" (Fixture.perWeight 10) None None
              [{| satAddress := "A"; outSat := 8000 |}]
              [{| utxoInfo := Fixture.utxo "a" 0 10000 (Some "5"); inputSat := 10000 |};
               {| utxoInfo := Fixture.utxo "b" 0 50000 (Some "5"); inputSat := 50000 |}])
    as (tx & u & Hb & Hin & Hwin & Hinputs & Hext & Hchange & Hfee).
  - vm_compute. discriminate.
  - intros m Hm. vm_compute in Hm. discriminate.
  - reflexivity.
  - vm_compute. reflexivity.
  - vm_compute. reflexivity.
  - vm_compute. reflexivity.
  - apply Exists_cons_hd. vm_compute. split; discriminate.
  - exists tx, u. split; [exact Hb|]. split; [exact Hinputs|].
    assert (Hu : inputSat u = 10000).
    { destruct Hin as [<- | [<- | []]]; [reflexivity|].
      exfalso. vm_compute in Hwin. destruct Hwin as [_ Hwin]. apply Hwin. reflexivity. }
    split; [exact Hu|]. split; [exact Hchange|].
    rewrite Hfee, Hu. reflexivity.
Defined.

(** Two utxos are needed, a third is left. *)
Lemma selectInputUtxos_first_covering_prefix_witness :
  exists sel rest,
    selectInputUtxos Fixture.toBaseDenominationNumber Fixture.isConfirmedUtxo
      Fixture.sortUtxos Fixture.config
      [Fixture.utxo "a" 0 1000 (Some "5"); Fixture.utxo "b" 0 8000 (Some "5");
       Fixture.utxo "c" 0 9000 (Some "5")]
      8000 ["A"] (Fixture.perWeight 10) false false = Ok sel /\
    Fixture.sortUtxos
      [{| utxoInfo := Fixture.utxo "a" 0 1000 (Some "5"); inputSat := 1000 |};
       {| utxoInfo := Fixture.utxo "b" 0 8000 (Some "5"); inputSat := 8000 |};
       {| utxoInfo := Fixture.utxo "c" 0 9000 (Some "5"); inputSat := 9000 |}]
      = (selectedUtxos sel ++ rest)%list /\
    selectedTotalSat sel = sumInputs (selectedUtxos sel).
Proof.
  assert (Hs : exists sel,
             selectInputUtxos Fixture.toBaseDenominationNumber Fixture.isConfirmedUtxo
               Fixture.sortUtxos Fixture.config
               [Fixture.utxo "a" 0 1000 (Some "5"); Fixture.utxo "b" 0 8000 (Some "5");
                Fixture.utxo "c" 0 9000 (Some "5")]
               8000 ["A"] (Fixture.perWeight 10) false false = Ok sel)
    by (eexists; vm_compute; reflexivity).
  destruct Hs as [sel Hs]. exists sel.
  destruct (selectInputUtxos_first_covering_prefix
              Fixture.toBaseDenominationNumber Fixture.isConfirmedUtxo
              Fixture.sortUtxos Fixture.config
              [Fixture.utxo "a" 0 1000 (Some "5"); Fixture.utxo "b" 0 8000 (Some "5");
               Fixture.utxo "c" 0 9000 (Some "5")]
              8000 ["A"] (Fixture.perWeight 10) false
              [{| utxoInfo := Fixture.utxo "a" 0 1000 (Some "5"); inputSat := 1000 |};
               {| utxoInfo := Fixture.utxo "b" 0 8000 (Some "5"); inputSat := 8000 |};
               {| utxoInfo := Fixture.utxo "c" 0 9000 (Some "5"); inputSat := 9000 |}]
              sel)
    as (rest & Hsplit & Htot & _).
  - vm_compute. reflexivity.
  - repeat constructor; vm_compute; intros [H1 H2];
      first [apply H1; reflexivity | apply H2; reflexivity].
  - exact Hs.
  - exists rest. split; [exact Hs|]. split; [exact Hsplit | exact Htot].
Defined.

(** At 2.2 base units per vbyte four utxos of 11474 in all do not
    cover 10000 and the fee of 1475 for four inputs (the product
    2.2 * 670 of doubles is above 1474): the fifth is taken. *)
Example accumulate_takes_the_fifth_utxo :
  estimateTxFee Fixture.config (Fixture.perWeight (22 # 10)) 4 1 ["A"] = 1475 /\
  Scenario.amountsOf
    (Fixture.build Fixture.config
       [Fixture.utxo "a" 0 3000 (Some "5"); Fixture.utxo "b" 0 3000 (Some "5");
        Fixture.utxo "c" 0 3000 (Some "5"); Fixture.utxo "d" 0 2474 (Some "5");
        Fixture.utxo "e" 0 2000 (Some "5")]
       [Scenario.out "A" "10000"] "C" (Fixture.perWeight (22 # 10)) None None)
  = Ok ([3000; 3000; 3000; 2474; 2000], [10000], [1674], 1800).
Proof. split; vm_compute; reflexivity. Qed.

(** Scenario 5. *)
Lemma buildPaymentTx_insufficient_only_when_short_witness :
  exists ext0 utxos,
    Fixture.build Fixture.config [Fixture.utxo "a" 0 5000 (Some "5")]
      [Scenario.out "A" "10000"] "C" (Fixture.perWeight 10) None None
      = Throw (InsufficientFunds 5000 10000 2260) /\
    validateOutputs Fixture.isValidAddress Fixture.toBaseDenominationNumber 0
      [Scenario.out "A" "10000"] = Ok ext0 /\
    10000 = sumOutputs ext0 /\ 5000 = sumInputs utxos.
Proof.
  destruct (buildPaymentTx_insufficient_only_when_short
              Fixture.isValidAddress Fixture.toBaseDenominationNumber
              Fixture.isConfirmedUtxo Fixture.sortUtxos Fixture.config
              [Fixture.utxo "a" 0 5000 (Some "5")]
              [Scenario.out "A" "10000"] "C" (Fixture.perWeight 10) None None
              5000 10000 2260 sortUtxos_Permutation ltac:(vm_compute; reflexivity))
    as (ext0 & utxos & Hv & _ & Ho & Ha & _).
  exists ext0, utxos. split; [vm_compute; reflexivity|]. tauto.
Defined.

(** Scenario 3: four change outputs to the change address. *)
Lemma buildPaymentTx_change_outputs_witness :
  exists tx,
    Fixture.build Scenario.poolOf4 [Fixture.utxo "a" 0 1000000 (Some "5")]
      [Scenario.out "A" "100000"] "C" (Fixture.perWeight 10) None None = Ok tx /\
    Forall (fun o => satAddress o = "C") (changeOutputs tx) /\
    count (changeOutputs tx) <= 4.
Proof.
  eexists. split; [vm_compute; reflexivity|].
  apply (buildPaymentTx_change_outputs
           Fixture.isValidAddress Fixture.toBaseDenominationNumber
           Fixture.isConfirmedUtxo Fixture.sortUtxos Scenario.poolOf4
           [Fixture.utxo "a" 0 1000000 (Some "5")]
           [Scenario.out "A" "100000"] "C" (Fixture.perWeight 10) None None).
  - exact sortUtxos_Permutation.
  - vm_compute. reflexivity.
Defined.

(** Scenario 3. *)
Lemma buildPaymentTx_fields_agree_witness :
  exists tx,
    Fixture.build Scenario.poolOf4 [Fixture.utxo "a" 0 1000000 (Some "5")]
      [Scenario.out "A" "100000"] "C" (Fixture.perWeight 10) None None = Ok tx /\
    outputs tx = (externalOutputs tx ++ changeOutputs tx)%list /\
    change tx = sumOutputs (changeOutputs tx) /\
    externalOutputTotal tx = sumOutputs (externalOutputs tx) /\
    sumOutputs (outputs tx) = externalOutputTotal tx + change tx /\
    count (externalOutputs tx) = 1.
Proof.
  eexists. split; [vm_compute; reflexivity|].
  apply (buildPaymentTx_fields_agree
           Fixture.isValidAddress Fixture.toBaseDenominationNumber
           Fixture.isConfirmedUtxo Fixture.sortUtxos Scenario.poolOf4
           [Fixture.utxo "a" 0 1000000 (Some "5")]
           [Scenario.out "A" "100000"] "C" (Fixture.perWeight 10) None None).
  vm_compute. reflexivity.
Defined.

(** Scenario 2: the recipient of a sweep is paid less the fee. *)
Lemma buildPaymentTx_pays_recipients_witness :
  exists tx,
    Fixture.build Fixture.config
      [Fixture.utxo "a" 0 30000 (Some "5"); Fixture.utxo "b" 0 20000 (Some "5")]
      [Scenario.out "A" "50000"] "C" (Fixture.perWeight 10) (Some true) None = Ok tx /\
    map satAddress (externalOutputs tx) = ["A"].
Proof.
  eexists. split; [vm_compute; reflexivity|].
  apply (buildPaymentTx_pays_recipients
           Fixture.isValidAddress Fixture.toBaseDenominationNumber
           Fixture.isConfirmedUtxo Fixture.sortUtxos Fixture.config
           [Fixture.utxo "a" 0 30000 (Some "5"); Fixture.utxo "b" 0 20000 (Some "5")]
           [Scenario.out "A" "50000"] "C" (Fixture.perWeight 10) (Some true) None).
  vm_compute. reflexivity.
Defined.

(** Four weights: 1, 2, 4, 8. *)
Lemma createWeightedChangeOutputs_total_weight_witness :
  sumZ (map weight (createWeightedChangeOutputs 4 "C")) = 15.
Proof.
  apply (createWeightedChangeOutputs_total_weight 4 "C"). lia.
Defined.

(** Scenario 3. *)
Lemma buildPaymentTx_change_ascending_witness :
  exists tx,
    Fixture.build Scenario.poolOf4 [Fixture.utxo "a" 0 1000000 (Some "5")]
      [Scenario.out "A" "100000"] "C" (Fixture.perWeight 10) None None = Ok tx /\
    StronglySorted (fun a b => outSat a <= outSat b) (changeOutputs tx).
Proof.
  eexists. split; [vm_compute; reflexivity|].
  apply (buildPaymentTx_change_ascending
           Fixture.isValidAddress Fixture.toBaseDenominationNumber
           Fixture.isConfirmedUtxo Fixture.sortUtxos Scenario.poolOf4
           [Fixture.utxo "a" 0 1000000 (Some "5")]
           [Scenario.out "A" "100000"] "C" (Fixture.perWeight 10) None None).
  vm_compute. reflexivity.
Defined.

(** Scenario 5 throws neither of the two errors. *)
Lemma buildPaymentTx_assertions_hold_witness :
  InsufficientFunds 5000 10000 2260 <> NegativeTotalChange /\
  InsufficientFunds 5000 10000 2260 <> NegativeLooseChange.
Proof.
  apply (buildPaymentTx_assertions_hold
           Fixture.isValidAddress Fixture.toBaseDenominationNumber
           Fixture.isConfirmedUtxo Fixture.sortUtxos Fixture.config
           [Fixture.utxo "a" 0 5000 (Some "5")]
           [Scenario.out "A" "10000"] "C" (Fixture.perWeight 10) None None).
  vm_compute. reflexivity.
Defined.

(** A sweep of 2000 base units cannot pay its fee of 2260. *)
Lemma buildPaymentTx_dust_error_witness :
  exists ext0 o,
    Fixture.build Fixture.config [Fixture.utxo "a" 0 2000 (Some "5")]
      [Scenario.out "A" "2000"] "C" (Fixture.perWeight 10) None None
      = Throw (DustOutput 0 (-260) 2260) /\
    validateOutputs Fixture.isValidAddress Fixture.toBaseDenominationNumber 0
      [Scenario.out "A" "2000"] = Ok ext0 /\
    nth_error ext0 0 = Some o /\ -260 = outSat o - 2260.
Proof.
  destruct (buildPaymentTx_dust_error
              Fixture.isValidAddress Fixture.toBaseDenominationNumber
              Fixture.isConfirmedUtxo Fixture.sortUtxos Fixture.config
              [Fixture.utxo "a" 0 2000 (Some "5")]
              [Scenario.out "A" "2000"] "C" (Fixture.perWeight 10) None None
              0%nat (-260) 2260 ltac:(vm_compute; reflexivity))
    as (ext0 & sel & o & Hv & _ & _ & _ & Hn & Hsat & _).
  exists ext0, o. split; [vm_compute; reflexivity|]. tauto.
Defined.

End PlannerMore.

(** ** More on the Ripple monitor *)

Module RippleScanFacts.
Import Ripple RippleFacts RippleScan.
Local Open Scope string_scope.

Lemma requestsOf_app (l l' : list Event) :
  requestsOf (l ++ l') = (requestsOf l ++ requestsOf l')%list.
Proof. apply flat_map_app. Qed.

Lemma deliveredOf_app (l l' : list Event) :
  deliveredOf (l ++ l') = (deliveredOf l ++ deliveredOf l')%list.
Proof. apply flat_map_app. Qed.

Lemma requestsOf_Logged (logs : list LogEntry) : requestsOf (map Logged logs) = [].
Proof. induction logs as [|l logs IH]; simpl; [reflexivity | exact IH]. Qed.

Lemma deliveredOf_Logged (logs : list LogEntry) : deliveredOf (map Logged logs) = [].
Proof. induction logs as [|l logs IH]; simpl; [reflexivity | exact IH]. Qed.

Section RetrieveFacts.

Variable thisNetworkType : string.
Variable getLedger : Z -> result JsError Ledger.
Variable assertValidAddress : string -> result JsError unit.
Variable getServerInfo : result JsError ServerInfo.
Variable getTransactions :
  nat -> string -> GetTransactionsOptions -> result JsError (list Transaction).
Variable callbackFn : BalanceActivity -> result JsError unit.

Local Abbreviation classify := (paymentToBalanceActivities thisNetworkType getLedger).
Local Abbreviation page := (forTransactions thisNetworkType getLedger callbackFn).
Local Abbreviation loop := (scan thisNetworkType getLedger getTransactions callbackFn).

(** *** One page *)

Lemma forTransactions_sound (addr : string) (from to : option Z)
    (lastTx : option Transaction) (transactions : list Transaction) :
  forall r events,
    page addr from to lastTx transactions = (r, events) ->
    requestsOf events = [] /\
    Forall (fun a => exists tx logs,
                In tx transactions /\ skipped from to lastTx tx = false /\
                classify addr (txPayment tx) = (Ok (Some a), logs))
           (deliveredOf events).
Proof.
  induction transactions as [|tx rest IH]; simpl; intros r events H.
  - injection H as <- <-. split; [reflexivity | constructor].
  - assert (Hrest : forall r' ev',
              page addr from to lastTx rest = (r', ev') ->
              requestsOf ev' = [] /\
              Forall (fun a => exists tx' logs,
                          (tx = tx' \/ In tx' rest) /\ skipped from to lastTx tx' = false /\
                          classify addr (txPayment tx') = (Ok (Some a), logs))
                     (deliveredOf ev')).
    { intros r' ev' H'. destruct (IH _ _ H') as [Hq Hd]. split; [exact Hq|].
      revert Hd. apply List.Forall_impl. intros a (tx' & logs & Hin & Hs & Hc).
      exists tx', logs. tauto. }
    destruct (skipped from to lastTx tx) eqn:Eskip; [exact (Hrest _ _ H)|].
    destruct (classify addr (txPayment tx)) as [[[a|]|e] logs] eqn:Ec.
    + destruct (callbackFn a) as [u|e] eqn:Ecb.
      * destruct (page addr from to lastTx rest) as [r' ev'] eqn:Er.
        injection H as <- <-. destruct (Hrest _ _ eq_refl) as [Hq Hd].
        rewrite requestsOf_app, deliveredOf_app, requestsOf_Logged, deliveredOf_Logged.
        simpl. split; [exact Hq|]. constructor; [|exact Hd].
        exists tx, logs. tauto.
      * injection H as <- <-.
        rewrite requestsOf_app, deliveredOf_app, requestsOf_Logged, deliveredOf_Logged.
        simpl. split; [reflexivity|]. constructor; [|constructor].
        exists tx, logs. tauto.
    + destruct (page addr from to lastTx rest) as [r' ev'] eqn:Er.
      injection H as <- <-. destruct (Hrest _ _ eq_refl) as [Hq Hd].
      rewrite requestsOf_app, deliveredOf_app, requestsOf_Logged, deliveredOf_Logged.
      simpl. split; [exact Hq | exact Hd].
    + injection H as <- <-. rewrite requestsOf_Logged, deliveredOf_Logged.
      split; [reflexivity | constructor].
Qed.

Lemma forTransactions_complete (addr : string) (from to : option Z)
    (lastTx : option Transaction) (transactions : list Transaction) :
  forall u events,
    page addr from to lastTx transactions = (Ok u, events) ->
    forall tx a logs,
      In tx transactions -> skipped from to lastTx tx = false ->
      classify addr (txPayment tx) = (Ok (Some a), logs) ->
      In a (deliveredOf events) /\ exists v, callbackFn a = Ok v.
Proof.
  induction transactions as [|tx rest IH]; simpl; intros u events H tx' a' logs' Hin Hs Hc;
    [contradiction|].
  destruct (skipped from to lastTx tx) eqn:Eskip.
  - destruct Hin as [<-|Hin]; [congruence|]. exact (IH _ _ H _ _ _ Hin Hs Hc).
  - destruct (classify addr (txPayment tx)) as [[[a|]|e] logs] eqn:Ec.
    + destruct (callbackFn a) as [v|e] eqn:Ecb; [|discriminate].
      destruct (page addr from to lastTx rest) as [r' ev'] eqn:Er.
      injection H as -> <-. rewrite deliveredOf_app, deliveredOf_Logged. simpl.
      destruct Hin as [<-|Hin].
      * rewrite Ec in Hc. injection Hc as <- _. split; [now left | now exists v].
      * destruct (IH _ _ eq_refl _ _ _ Hin Hs Hc) as [Hd Hv]. split; [now right | exact Hv].
    + destruct (page addr from to lastTx rest) as [r' ev'] eqn:Er.
      injection H as -> <-. rewrite deliveredOf_app, deliveredOf_Logged. simpl.
      destruct Hin as [<-|Hin]; [congruence|].
      exact (IH _ _ eq_refl _ _ _ Hin Hs Hc).
    + discriminate.
Qed.

Lemma forTransactions_abort (addr : string) (from to : option Z)
    (lastTx : option Transaction) (transactions : list Transaction) :
  forall r events a e,
    page addr from to lastTx transactions = (r, events) ->
    In a (deliveredOf events) -> callbackFn a = Throw e ->
    r = Throw e /\ exists pre, events = (pre ++ [CalledBack a])%list.
Proof.
  induction transactions as [|tx rest IH]; simpl; intros r events a0 e0 H Hin Hcb.
  - injection H as <- <-. contradiction.
  - destruct (skipped from to lastTx tx); [exact (IH _ _ _ _ H Hin Hcb)|].
    destruct (classify addr (txPayment tx)) as [[[a|]|e] logs] eqn:Ec.
    + destruct (callbackFn a) as [v|e] eqn:Ecb.
      * destruct (page addr from to lastTx rest) as [r' ev'] eqn:Er.
        injection H as <- <-. rewrite deliveredOf_app, deliveredOf_Logged in Hin.
        simpl in Hin. destruct Hin as [<-|Hin]; [congruence|].
        destruct (IH _ _ _ _ eq_refl Hin Hcb) as [-> [pre ->]].
        split; [reflexivity|]. exists (map Logged logs ++ CalledBack a :: pre)%list.
        rewrite <- app_assoc. reflexivity.
      * injection H as <- <-. rewrite deliveredOf_app, deliveredOf_Logged in Hin.
        simpl in Hin. destruct Hin as [<-|[]].
        split; [congruence|]. exists (map Logged logs). reflexivity.
    + destruct (page addr from to lastTx rest) as [r' ev'] eqn:Er.
      injection H as <- <-. rewrite deliveredOf_app, deliveredOf_Logged in Hin.
      simpl in Hin. destruct (IH _ _ _ _ eq_refl Hin Hcb) as [-> [pre ->]].
      split; [reflexivity|]. exists (map Logged logs ++ pre)%list.
      rewrite <- app_assoc. reflexivity.
    + injection H as <- <-. rewrite deliveredOf_Logged in Hin. contradiction.
Qed.

(** *** The loop *)

Lemma scan_inv (fuel n : nat) (addr : string) (from to : option Z)
    (lastTx : option Transaction) (transactions : option (list Transaction))
    (r : result JsError (option unit)) (events : list Event) :
  loop fuel n addr from to lastTx transactions = (r, events) ->
  (continues to transactions lastTx = false /\ r = Ok (Some tt) /\ events = [])
  \/
  (continues to transactions lastTx = true /\
   ((fuel = O /\ r = Ok None /\ events = [])
    \/
    exists fuel', fuel = S fuel' /\
      let options := getTransactionOptions from to lastTx in
      ((exists e, getTransactions n addr options = Throw e /\
                  r = Throw e /\ events = [Requested options])
       \/
       (exists txs e evp,
          getTransactions n addr options = Ok txs /\
          page addr from to lastTx txs = (Throw e, evp) /\
          r = Throw e /\ events = Requested options :: evp)
       \/
       (exists txs u evp ev',
          getTransactions n addr options = Ok txs /\
          page addr from to lastTx txs = (Ok u, evp) /\
          loop fuel' (S n) addr from to (lastOf txs) (Some txs) = (r, ev') /\
          events = (Requested options :: evp ++ ev')%list)))).
Proof.
  destruct fuel as [|fuel']; simpl;
    destruct (continues to transactions lastTx); intros H.
  - right. split; [reflexivity|]. left. injection H as <- <-. tauto.
  - left. injection H as <- <-. tauto.
  - right. split; [reflexivity|]. right. exists fuel'. split; [reflexivity|]. cbv zeta.
    destruct (getTransactions n addr _) as [txs|e].
    + destruct (page addr from to lastTx txs) as [[u|e] evp] eqn:Ep.
      * destruct (loop fuel' (S n) addr from to (lastOf txs) (Some txs)) as [r' ev'] eqn:El.
        injection H as <- <-. right. right. exists txs, u, evp, ev'. tauto.
      * injection H as <- <-. right. left. exists txs, e, evp. tauto.
    + injection H as <- <-. left. exists e. tauto.
  - left. injection H as <- <-. tauto.
Qed.

Lemma requestsOf_step (addr : string) (from to : option Z) (lastTx : option Transaction)
    (txs : list Transaction) (r : result JsError unit) (evp ev' : list Event)
    (o : GetTransactionsOptions) :
  page addr from to lastTx txs = (r, evp) ->
  requestsOf (Requested o :: evp ++ ev') = o :: requestsOf ev'.
Proof.
  intros H. apply forTransactions_sound in H. destruct H as [Hq _].
  change (Requested o :: evp ++ ev')%list with ([Requested o] ++ evp ++ ev')%list.
  rewrite !requestsOf_app, Hq. reflexivity.
Qed.

Lemma getTransactionOptions_inj (from to : option Z) (l l' : option Transaction) :
  getTransactionOptions from to l = getTransactionOptions from to l' -> l = l'.
Proof.
  unfold getTransactionOptions. intros H.
  destruct l, l'; try reflexivity; injection H as H; congruence.
Qed.

Lemma continues_Some (to : option Z) (txs : list Transaction) (lastTx : option Transaction) :
  continues to (Some txs) lastTx = true ->
  Z.of_nat (List.length txs) = 10%Z /\
  exists tx t, lastTx = Some tx /\ to = Some t /\ (txLedgerVersion tx <= t)%Z.
Proof.
  unfold continues, pageLimit. intros H. apply andb_true_iff in H. destruct H as [Hl Ht].
  apply Z.eqb_eq in Hl. split; [exact Hl|].
  destruct lastTx as [tx|]; [|discriminate]. destruct to as [t|]; [|discriminate].
  simpl in Ht. apply Z.leb_le in Ht. exists tx, t. tauto.
Qed.

Lemma scan_sound (addr : string) (from to : option Z) :
  forall fuel n lastTx transactions r events,
    loop fuel n addr from to lastTx transactions = (r, events) ->
    Forall (fun a => exists i lastTx' txs tx logs,
                nth_error (requestsOf events) i
                  = Some (getTransactionOptions from to lastTx') /\
                getTransactions (n + i) addr (getTransactionOptions from to lastTx')
                  = Ok txs /\
                In tx txs /\ skipped from to lastTx' tx = false /\
                classify addr (txPayment tx) = (Ok (Some a), logs))
           (deliveredOf events).
Proof.
  induction fuel as [|fuel IH]; intros n lastTx transactions r events H;
    apply scan_inv in H;
    destruct H as [(_ & _ & ->) | (_ & [(Hf & _ & ->) | (fuel' & Hf & H)])];
    try (simpl; constructor); try discriminate.
  injection Hf as <-. cbv zeta in H.
  destruct H as [(e & _ & _ & ->) | [(txs & e & evp & Hg & Hp & _ & ->)
                                    | (txs & u & evp & ev' & Hg & Hp & Hl & ->)]].
  - simpl. constructor.
  - pose proof (requestsOf_step _ _ _ _ _ _ _ [] (getTransactionOptions from to lastTx) Hp)
      as Hq. rewrite app_nil_r in Hq. rewrite Hq.
    apply forTransactions_sound in Hp. destruct Hp as [_ Hd].
    change (deliveredOf (Requested (getTransactionOptions from to lastTx) :: evp))
      with (deliveredOf evp).
    revert Hd. apply List.Forall_impl. intros a (tx & logs & Hin & Hs & Hc).
    exists 0%nat, lastTx, txs, tx, logs. rewrite Nat.add_0_r. simpl. tauto.
  - rewrite (requestsOf_step _ _ _ _ _ _ _ ev' (getTransactionOptions from to lastTx) Hp).
    change (Requested (getTransactionOptions from to lastTx) :: evp ++ ev')%list
      with ([Requested (getTransactionOptions from to lastTx)] ++ evp ++ ev')%list.
    rewrite !deliveredOf_app. simpl. apply Forall_app. split.
    + apply forTransactions_sound in Hp. destruct Hp as [_ Hd].
      revert Hd. apply List.Forall_impl. intros a (tx & logs & Hin & Hs & Hc).
      exists 0%nat, lastTx, txs, tx, logs. rewrite Nat.add_0_r. simpl. tauto.
    + apply IH in Hl. revert Hl. apply List.Forall_impl.
      intros a (i & l' & txs' & tx & logs & Hn & Hg' & Hin & Hs & Hc).
      exists (S i), l', txs', tx, logs. simpl.
      replace (n + S i)%nat with (S n + i)%nat by lia. tauto.
Qed.

Lemma scan_complete (addr : string) (from to : option Z) :
  forall fuel n lastTx transactions u events,
    loop fuel n addr from to lastTx transactions = (Ok u, events) ->
    forall i lastTx' txs tx a logs,
      nth_error (requestsOf events) i = Some (getTransactionOptions from to lastTx') ->
      getTransactions (n + i) addr (getTransactionOptions from to lastTx') = Ok txs ->
      In tx txs -> skipped from to lastTx' tx = false ->
      classify addr (txPayment tx) = (Ok (Some a), logs) ->
      In a (deliveredOf events) /\ exists v, callbackFn a = Ok v.
Proof.
  induction fuel as [|fuel IH]; intros n lastTx transactions u events H;
    apply scan_inv in H;
    destruct H as [(_ & _ & ->) | (_ & [(Hf & _ & ->) | (fuel' & Hf & H)])];
    try (intros [|i] ? ? ? ? ? Hn; simpl in Hn; discriminate); try discriminate.
  injection Hf as <-. cbv zeta in H.
  destruct H as [(e & _ & He & _) | [(txs & e & evp & _ & _ & He & _)
                                    | (txs & u' & evp & ev' & Hg & Hp & Hl & ->)]];
    try discriminate.
  intros i lastTx' txs' tx a logs Hn Hg' Hin Hs Hc.
  rewrite (requestsOf_step _ _ _ _ _ _ _ ev' (getTransactionOptions from to lastTx) Hp) in Hn.
  change (Requested (getTransactionOptions from to lastTx) :: evp ++ ev')%list
    with ([Requested (getTransactionOptions from to lastTx)] ++ evp ++ ev')%list.
  rewrite !deliveredOf_app. simpl.
  destruct i as [|i]; simpl in Hn.
  - assert (Hn' : getTransactionOptions from to lastTx
                  = getTransactionOptions from to lastTx') by congruence.
    apply getTransactionOptions_inj in Hn'. subst lastTx'.
    rewrite Nat.add_0_r, Hg in Hg'. injection Hg' as <-.
    destruct (forTransactions_complete _ _ _ _ _ _ _ Hp _ _ _ Hin Hs Hc) as [Hd Hv].
    split; [|exact Hv]. apply in_or_app. now left.
  - replace (n + S i)%nat with (S n + i)%nat in Hg' by lia.
    destruct (IH _ _ _ _ _ Hl _ _ _ _ _ _ Hn Hg' Hin Hs Hc) as [Hd Hv].
    split; [|exact Hv]. apply in_or_app. now right.
Qed.

Lemma scan_protocol (addr : string) (from to : option Z) :
  forall fuel n lastTx transactions r events,
    loop fuel n addr from to lastTx transactions = (r, events) ->
    (List.length (requestsOf events) <= fuel)%nat /\
    (forall o, nth_error (requestsOf events) 0 = Some o ->
       o = getTransactionOptions from to lastTx /\
       continues to transactions lastTx = true) /\
    (forall i o, nth_error (requestsOf events) (S i) = Some o ->
       exists o' txs tx t,
         nth_error (requestsOf events) i = Some o' /\
         getTransactions (n + i) addr o' = Ok txs /\
         Z.of_nat (List.length txs) = 10%Z /\
         lastOf txs = Some tx /\ to = Some t /\ (txLedgerVersion tx <= t)%Z /\
         o = getTransactionOptions from to (Some tx)).
Proof.
  induction fuel as [|fuel IH]; intros n lastTx transactions r events H;
    apply scan_inv in H;
    destruct H as [(_ & _ & ->) | (Hcont & [(Hf & _ & ->) | (fuel' & Hf & H)])];
    try (simpl; split; [lia|]; split; [intros ? [=] | intros [|?] ? [=]]);
    try discriminate.
  injection Hf as <-. cbv zeta in H.
  destruct H as [(e & _ & _ & ->) | [(txs & e & evp & Hg & Hp & _ & ->)
                                    | (txs & u & evp & ev' & Hg & Hp & Hl & ->)]].
  - simpl. split; [lia|]. split.
    + intros o [= <-]. tauto.
    + intros [|i] o [=].
  - pose proof (requestsOf_step _ _ _ _ _ _ _ [] (getTransactionOptions from to lastTx) Hp)
      as Hq. rewrite app_nil_r in Hq. rewrite Hq. simpl. split; [lia|]. split.
    + intros o [= <-]. tauto.
    + intros [|i] o [=].
  - rewrite (requestsOf_step _ _ _ _ _ _ _ ev' (getTransactionOptions from to lastTx) Hp).
    destruct (IH _ _ _ _ _ Hl) as (Hlen & Hhead & Hnext). simpl. split; [lia|]. split.
    + intros o [= <-]. tauto.
    + intros [|i] o Hn; simpl in Hn.
      * destruct (Hhead _ Hn) as [-> Hc]. apply continues_Some in Hc.
        destruct Hc as (Hten & tx & t & Hlast & -> & Hle).
        exists (getTransactionOptions from (Some t) lastTx), txs, tx, t.
        rewrite Nat.add_0_r, Hlast. simpl. tauto.
      * destruct (Hnext _ _ Hn) as (o' & txs' & tx & t & Hn' & Hg' & Hten & Hlast & -> & Hle & ->).
        exists o', txs', tx, t. simpl.
        replace (n + S (S i))%nat with (S n + S i)%nat by lia.
        replace (n + S i)%nat with (S n + i)%nat by lia. tauto.
Qed.

Lemma scan_short_page (addr : string) (from to : option Z) :
  forall fuel n lastTx transactions r events k,
    loop fuel n addr from to lastTx transactions = (r, events) ->
    (n <= k < n + fuel)%nat ->
    (forall o txs, getTransactions k addr o = Ok txs ->
                   Z.of_nat (List.length txs) <> 10%Z) ->
    r <> Ok None /\ (List.length (requestsOf events) <= S k - n)%nat.
Proof.
  induction fuel as [|fuel IH]; intros n lastTx transactions r events k H Hk Hshort;
    [lia|].
  apply scan_inv in H.
  destruct H as [(_ & -> & ->) | (_ & [(Hf & _) | (fuel' & Hf & H)])];
    [simpl; split; [discriminate | lia] | discriminate |].
  injection Hf as <-. cbv zeta in H.
  destruct H as [(e & _ & -> & ->) | [(txs & e & evp & Hg & Hp & -> & ->)
                                    | (txs & u & evp & ev' & Hg & Hp & Hl & ->)]].
  - simpl. split; [discriminate | lia].
  - pose proof (requestsOf_step _ _ _ _ _ _ _ [] (getTransactionOptions from to lastTx) Hp)
      as Hq. rewrite app_nil_r in Hq. rewrite Hq. simpl. split; [discriminate | lia].
  - rewrite (requestsOf_step _ _ _ _ _ _ _ ev' (getTransactionOptions from to lastTx) Hp).
    simpl. destruct (Nat.eq_dec k n) as [->|Hne].
    + apply Hshort in Hg. apply scan_inv in Hl.
      destruct Hl as [(_ & -> & ->) | (Hc & _)].
      * simpl. split; [discriminate | lia].
      * apply continues_Some in Hc. tauto.
    + destruct (IH _ _ _ _ _ k Hl ltac:(lia) Hshort) as [Hr Hlen]. split; [exact Hr | lia].
Qed.

Lemma scan_abort (addr : string) (from to : option Z) :
  forall fuel n lastTx transactions r events a e,
    loop fuel n addr from to lastTx transactions = (r, events) ->
    In a (deliveredOf events) -> callbackFn a = Throw e ->
    r = Throw e /\ exists pre, events = (pre ++ [CalledBack a])%list.
Proof.
  induction fuel as [|fuel IH]; intros n lastTx transactions r events a e H Hin Hcb;
    apply scan_inv in H;
    destruct H as [(_ & _ & ->) | (_ & [(Hf & _ & ->) | (fuel' & Hf & H)])];
    try contradiction; try discriminate.
  injection Hf as <-. cbv zeta in H.
  destruct H as [(e' & _ & _ & ->) | [(txs & e' & evp & Hg & Hp & -> & ->)
                                     | (txs & u & evp & ev' & Hg & Hp & Hl & ->)]].
  - simpl in Hin. contradiction.
  - simpl in Hin.
    destruct (forTransactions_abort _ _ _ _ _ _ _ _ _ Hp Hin Hcb) as [Hr [pre ->]].
    split; [congruence|]. exists (Requested (getTransactionOptions from to lastTx) :: pre).
    reflexivity.
  - change (Requested (getTransactionOptions from to lastTx) :: evp ++ ev')%list
      with ([Requested (getTransactionOptions from to lastTx)] ++ evp ++ ev')%list in Hin.
    rewrite !deliveredOf_app in Hin. simpl in Hin. apply in_app_or in Hin.
    destruct Hin as [Hin|Hin].
    + destruct (forTransactions_abort _ _ _ _ _ _ _ _ _ Hp Hin Hcb) as [Hr _]. discriminate.
    + destruct (IH _ _ _ _ _ _ _ Hl Hin Hcb) as [-> [pre ->]].
      split; [reflexivity|].
      exists (Requested (getTransactionOptions from to lastTx) :: evp ++ pre)%list.
      simpl. rewrite <- app_assoc. reflexivity.
Qed.

Lemma retrieveBalanceActivities_inv (fuel : nat) (addr : string) (options : Options)
    (c : Completion) (events : list Event) :
  retrieveBalanceActivities thisNetworkType getLedger assertValidAddress getServerInfo
    getTransactions callbackFn fuel addr options = (c, events) ->
  (exists e, assertValidAddress addr = Throw e /\ c = Threw e /\ events = [])
  \/
  (exists e logs, resolveFromToLedgers getServerInfo options = (Throw e, logs) /\
                  c = Threw e /\ events = map Logged logs)
  \/
  (exists w logs r ev',
     assertValidAddress addr = Ok tt /\
     resolveFromToLedgers getServerInfo options = (Ok w, logs) /\
     loop fuel 0 addr (resolvedFrom w) (resolvedTo w) None None = (r, ev') /\
     events = (map Logged logs ++ ev')%list /\
     c = match r with
         | Throw e => Threw e
         | Ok None => OutOfFuel
         | Ok (Some _) => Returned w
         end).
Proof.
  unfold retrieveBalanceActivities. intros H.
  destruct (assertValidAddress addr) as [[]|e].
  - destruct (resolveFromToLedgers getServerInfo options) as [[w|e] logs].
    + destruct (loop fuel 0 addr (resolvedFrom w) (resolvedTo w) None None)
        as [r ev'] eqn:El.
      injection H as <- <-. right. right. exists w, logs, r, ev'. tauto.
    + injection H as <- <-. right. left. exists e, logs. tauto.
  - injection H as <- <-. left. exists e. tauto.
Qed.

Lemma skipped_false (from to : option Z) (lastTx : option Transaction) (tx : Transaction) :
  skipped from to lastTx tx = false <->
  txType tx = "payment" /\
  (forall l, lastTx = Some l -> txId tx <> txId l) /\
  (forall f, from = Some f -> (f <= txLedgerVersion tx)%Z) /\
  (forall t, to = Some t -> (txLedgerVersion tx <= t)%Z).
Proof.
  unfold skipped. rewrite !orb_false_iff, negb_false_iff. split.
  - intros [[[Ht Hl] Hf] Hg]. split; [now apply String.eqb_eq|]. split; [|split].
    + intros l ->. now apply String.eqb_neq.
    + intros f ->. simpl in Hf. lia.
    + intros t ->. simpl in Hg. lia.
  - intros (Ht & Hl & Hf & Hg). repeat split.
    + now apply String.eqb_eq.
    + destruct lastTx as [l|]; [|reflexivity]. apply String.eqb_neq. now apply Hl.
    + destruct from as [f|]; [|reflexivity]. simpl. specialize (Hf f eq_refl). lia.
    + destruct to as [t|]; [|reflexivity]. simpl. specialize (Hg t eq_refl). lia.
Qed.

Lemma paymentToBalanceActivities_id (addr : string) (tx : Payment)
    (a : BalanceActivity) (logs : list LogEntry) :
  classify addr tx = (Ok (Some a), logs) ->
  externalId a = paymentId tx /\ networkType a = thisNetworkType.
Proof.
  unfold paymentToBalanceActivities.
  destruct (String.eqb _ addr).
  - destruct (getLedger _) as [ledger|e]; [|discriminate].
    destruct (List.find _ _) as [bc|]; [|discriminate].
    intros [= <- _]. split; reflexivity.
  - destruct (String.eqb _ addr); [|discriminate].
    destruct (getLedger _) as [ledger|e]; [|discriminate].
    destruct (List.find _ _) as [bc|]; [|discriminate].
    intros [= <- _]. split; reflexivity.
Qed.

Lemma scan_request_shape (addr : string) (from to : option Z)
    (fuel n : nat) (lastTx : option Transaction) (transactions : option (list Transaction))
    (r : result JsError (option unit)) (events : list Event) (i : nat)
    (o : GetTransactionsOptions) :
  loop fuel n addr from to lastTx transactions = (r, events) ->
  nth_error (requestsOf events) i = Some o ->
  exists l, o = getTransactionOptions from to l /\
            (lastTx = None -> forall tx, cursor o = AfterTx tx -> l = Some tx).
Proof.
  intros H Hn. apply scan_protocol in H. destruct H as (_ & Hhead & Hnext).
  destruct i as [|i].
  - destruct (Hhead _ Hn) as [-> _]. exists lastTx. split; [reflexivity|].
    intros -> tx Hc. discriminate.
  - destruct (Hnext _ _ Hn) as (o' & txs & tx & t & _ & _ & _ & _ & _ & _ & ->).
    exists (Some tx). split; [reflexivity|]. intros _ tx' [= ->]. reflexivity.
Qed.

(** X15.  Every activity handed to the callback is about the address
    asked for and comes from a payment the server listed in answer to
    one of the requests of the run; the payment is not the one the
    request starts after, and its ledger version lies within the
    resolved window. *)
Theorem retrieveBalanceActivities_sound (fuel : nat) (addr : string) (options : Options)
    (c : Completion) (events : list Event) :
  retrieveBalanceActivities thisNetworkType getLedger assertValidAddress getServerInfo
    getTransactions callbackFn fuel addr options = (c, events) ->
  Forall (fun a =>
            address a = addr /\
            exists w logs i o txs tx,
              resolveFromToLedgers getServerInfo options = (Ok w, logs) /\
              nth_error (requestsOf events) i = Some o /\
              getTransactions i addr o = Ok txs /\
              In tx txs /\ txType tx = "payment" /\
              externalId a = txId tx /\
              confirmationNumber a = txLedgerVersion tx /\
              (forall l, cursor o = AfterTx l -> txId tx <> txId l) /\
              (forall f, resolvedFrom w = Some f -> (f <= confirmationNumber a)%Z) /\
              (forall t, resolvedTo w = Some t -> (confirmationNumber a <= t)%Z))
         (deliveredOf events).
Proof.
  intros H. apply retrieveBalanceActivities_inv in H.
  destruct H as [(e & _ & _ & ->) | [(e & logs & _ & _ & ->)
                                    | (w & logs & r & ev' & _ & Hres & Hl & -> & _)]].
  - constructor.
  - rewrite deliveredOf_Logged. constructor.
  - rewrite deliveredOf_app, requestsOf_app, deliveredOf_Logged, requestsOf_Logged. simpl.
    apply scan_sound in Hl. revert Hl. apply List.Forall_impl.
    intros a (i & l' & txs & tx & logs' & Hn & Hg & Hin & Hs & Hc).
    apply skipped_false in Hs. destruct Hs as (Hty & Hlast & Hfrom & Hto).
    pose proof (paymentToBalanceActivities_id _ _ _ _ Hc) as [Hid _].
    apply paymentToBalanceActivities_Some in Hc.
    destruct Hc as (_ & _ & _ & _ & Haddr & Hconf).
    split; [exact Haddr|].
    exists w, logs, i, (getTransactionOptions (resolvedFrom w) (resolvedTo w) l'), txs, tx.
    split; [exact Hres|]. split; [exact Hn|]. split; [exact Hg|]. split; [exact Hin|].
    split; [exact Hty|]. split; [exact Hid|]. split; [exact Hconf|].
    split; [|split].
    + intros l Hcur. apply Hlast. destruct l' as [l'|]; simpl in Hcur; congruence.
    + intros f Hf. rewrite Hconf. now apply Hfrom.
    + intros t Ht. rewrite Hconf. now apply Hto.
Qed.

(** X16.  A run that does not throw misses nothing: of every page the
    server returned, each payment in the resolved window, other than
    the one the request starts after, for which the classifier makes an
    activity has had that activity handed to the callback. *)
Theorem retrieveBalanceActivities_complete (fuel : nat) (addr : string) (options : Options)
    (c : Completion) (events : list Event) (w : FromTo) (logs : list LogEntry)
    (i : nat) (o : GetTransactionsOptions) (txs : list Transaction) :
  retrieveBalanceActivities thisNetworkType getLedger assertValidAddress getServerInfo
    getTransactions callbackFn fuel addr options = (c, events) ->
  (forall e, c <> Threw e) ->
  resolveFromToLedgers getServerInfo options = (Ok w, logs) ->
  nth_error (requestsOf events) i = Some o ->
  getTransactions i addr o = Ok txs ->
  Forall (fun tx =>
            txType tx = "payment" ->
            (forall l, cursor o = AfterTx l -> txId tx <> txId l) ->
            (forall f, resolvedFrom w = Some f -> (f <= txLedgerVersion tx)%Z) ->
            (forall t, resolvedTo w = Some t -> (txLedgerVersion tx <= t)%Z) ->
            forall a logs',
              classify addr (txPayment tx) = (Ok (Some a), logs') ->
              In a (deliveredOf events))
         txs.
Proof.
  intros H Hc Hres Hn Hg. apply retrieveBalanceActivities_inv in H.
  destruct H as [(e & _ & -> & _) | [(e & logs0 & _ & -> & _)
                                    | (w' & logs0 & r & ev' & _ & Hres' & Hl & -> & ->)]];
    try (exfalso; eapply Hc; reflexivity).
  rewrite Hres in Hres'. injection Hres' as <- <-.
  rewrite requestsOf_app, requestsOf_Logged in Hn. simpl in Hn.
  destruct r as [u|e]; [|exfalso; eapply Hc; reflexivity].
  destruct (scan_request_shape _ _ _ _ _ _ _ _ _ _ _ Hl Hn) as (l & -> & Hcur).
  apply List.Forall_forall. intros tx Hin Hty Hlast Hfrom Hto a logs' Hcl.
  rewrite deliveredOf_app, deliveredOf_Logged. simpl.
  refine (proj1 (scan_complete _ _ _ _ _ _ _ _ _ Hl _ _ _ _ _ _ Hn Hg Hin _ Hcl)).
  apply skipped_false. split; [exact Hty|]. split; [|split; assumption].
  intros l0 ->. apply Hlast. reflexivity.
Qed.


(** X18.  Once the server answers a request with a page that is not
    full the loop ends: if its [k]-th answer (counting from zero) is
    never a full page, a run with more than [k] units of fuel returns
    or throws, after at most [k + 1] requests. *)
Theorem retrieveBalanceActivities_ends_at_short_page (fuel k : nat) (addr : string)
    (options : Options) (c : Completion) (events : list Event) :
  (k < fuel)%nat ->
  (forall o txs, getTransactions k addr o = Ok txs ->
                 Z.of_nat (List.length txs) <> 10%Z) ->
  retrieveBalanceActivities thisNetworkType getLedger assertValidAddress getServerInfo
    getTransactions callbackFn fuel addr options = (c, events) ->
  c <> OutOfFuel /\ (List.length (requestsOf events) <= S k)%nat.
Proof.
  intros Hk Hshort H. apply retrieveBalanceActivities_inv in H.
  destruct H as [(e & _ & -> & ->) | [(e & logs0 & _ & -> & ->)
                                    | (w & logs0 & r & ev' & _ & _ & Hl & -> & ->)]].
  - simpl. split; [discriminate | lia].
  - rewrite requestsOf_Logged. simpl. split; [discriminate | lia].
  - rewrite requestsOf_app, requestsOf_Logged. simpl.
    destruct (scan_short_page _ _ _ _ _ _ _ _ _ k Hl ltac:(lia) Hshort) as [Hr Hlen].
    split; [|lia]. destruct r as [[u|]|e]; [discriminate | congruence | discriminate].
Qed.

(** X19.  A callback that throws ends the run: the call is the last
    event of the run, and the run throws the callback's error. *)
Theorem retrieveBalanceActivities_callback_error_aborts (fuel : nat) (addr : string)
    (options : Options) (c : Completion) (events : list Event)
    (a : BalanceActivity) (e : JsError) :
  retrieveBalanceActivities thisNetworkType getLedger assertValidAddress getServerInfo
    getTransactions callbackFn fuel addr options = (c, events) ->
  In a (deliveredOf events) -> callbackFn a = Throw e ->
  c = Threw e /\ exists pre, events = (pre ++ [CalledBack a])%list.
Proof.
  intros H Hin Hcb. apply retrieveBalanceActivities_inv in H.
  destruct H as [(e0 & _ & _ & ->) | [(e0 & logs0 & _ & _ & ->)
                                     | (w & logs0 & r & ev' & _ & _ & Hl & -> & ->)]].
  - contradiction.
  - rewrite deliveredOf_Logged in Hin. contradiction.
  - rewrite deliveredOf_app, deliveredOf_Logged in Hin. simpl in Hin.
    destruct (scan_abort _ _ _ _ _ _ _ _ _ _ _ Hl Hin Hcb) as [-> [pre ->]].
    split; [reflexivity|]. exists (map Logged logs0 ++ pre)%list.
    rewrite <- app_assoc. reflexivity.
Qed.

(** X20.  What the classifier answers for a payment: [null], without
    consulting the server, when the payment has neither end at the
    address; otherwise the error of the ledger request when that fails,
    even if nothing would have been reported; otherwise [null] when the
    address has no XRP balance change, and else an activity carrying
    the first XRP balance change of the address, the payment's id and
    the hash and close time of the ledger. *)
Theorem paymentToBalanceActivities_cases (addr : string) (tx : Payment) :
  let concerns := endpointAddress (source (specification tx)) = addr \/
                  endpointAddress (destination (specification tx)) = addr in
  let change := List.find (fun bc => String.eqb (currency bc) "XRP")
                  (default [] (balanceChanges (outcome tx) !! addr)) in
  (~ concerns -> fst (classify addr tx) = Ok None) /\
  (concerns ->
   match getLedger (ledgerVersion (outcome tx)) with
   | Throw e => fst (classify addr tx) = Throw e
   | Ok ledger =>
       match change with
       | None => fst (classify addr tx) = Ok None
       | Some bc =>
           exists a, classify addr tx = (Ok (Some a), []) /\
                     amount a = changeValue bc /\ assetSymbol a = "XRP" /\
                     externalId a = paymentId tx /\
                     confirmationId a = ledgerHash ledger /\
                     timestamp a = closeTime ledger /\
                     (extraId a = None <->
                      tag (if String.eqb (endpointAddress (source (specification tx))) addr
                           then source (specification tx)
                           else destination (specification tx)) = None)
       end
   end).
Proof.
  cbv zeta. unfold paymentToBalanceActivities. split.
  - intros Hn.
    destruct (String.eqb_spec (endpointAddress (source (specification tx))) addr);
      [tauto|].
    destruct (String.eqb_spec (endpointAddress (destination (specification tx))) addr);
      [tauto|]. reflexivity.
  - intros Hc.
    assert (Hfind : forall bc,
              List.find (fun c => String.eqb (currency c) "XRP")
                (match balanceChanges (outcome tx) !! addr with
                 | Some l => l | None => [] end) = Some bc ->
              currency bc = "XRP").
    { intros bc Hf. apply find_some in Hf. now apply String.eqb_eq. }
    unfold default.
    destruct (String.eqb_spec (endpointAddress (source (specification tx))) addr) as [Es|Es].
    + destruct (getLedger _) as [ledger|e]; [|reflexivity].
      destruct (List.find _ _) as [bc|] eqn:Ef; [|reflexivity].
      eexists. split; [reflexivity|]. simpl. rewrite (Hfind bc eq_refl).
      repeat split; try reflexivity;
        destruct (tag (source (specification tx))); simpl; congruence.
    + destruct (String.eqb_spec (endpointAddress (destination (specification tx))) addr)
        as [Ed|Ed]; [|tauto].
      destruct (getLedger _) as [ledger|e]; [|reflexivity].
      destruct (List.find _ _) as [bc|] eqn:Ef; [|reflexivity].
      eexists. split; [reflexivity|]. simpl. rewrite (Hfind bc eq_refl).
      repeat split; try reflexivity;
        destruct (tag (destination (specification tx))); simpl; congruence.
Qed.

End RetrieveFacts.

(** *** The theorems on the two-page server *)

(** Eleven activities are handed over, all about [rBob]. *)
Lemma retrieveBalanceActivities_sound_witness :
  exists c events,
    retrieve acceptAll 5 noBounds = (c, events) /\
    List.length (deliveredOf events) = 11%nat /\
    Forall (fun a => address a = "rBob") (deliveredOf events).
Proof.
  assert (Hr : exists c events, retrieve acceptAll 5 noBounds = (c, events) /\
                                List.length (deliveredOf events) = 11%nat)
    by (eexists; eexists; split; vm_compute; reflexivity).
  destruct Hr as (c & events & Hr & Hlen). exists c, events.
  split; [exact Hr|]. split; [exact Hlen|].
  pose proof (retrieveBalanceActivities_sound "mainnet" sampleLedger anyAddress
                retainedLedgers pagedServer acceptAll 5 "rBob" noBounds c events Hr)
    as Hall.
  revert Hall. apply List.Forall_impl. intros a [Ha _]. exact Ha.
Defined.

(** The second page: the payment [111] is reported, the repeated
    payment [109] and the order are not asked about. *)
Lemma retrieveBalanceActivities_complete_witness :
  exists c events a,
    retrieve acceptAll 5 noBounds = (c, events) /\
    externalId a = "111" /\ In a (deliveredOf events).
Proof.
  assert (Hr : exists c events, retrieve acceptAll 5 noBounds = (c, events) /\
                                (forall e, c <> Threw e) /\
                                nth_error (requestsOf events) 1
                                  = Some (getTransactionOptions (Some 50%Z) (Some 500%Z)
                                            (lastOf (fullPage 100))))
    by (eexists; eexists; split; [vm_compute; reflexivity|];
        split; [intros e; discriminate | vm_compute; reflexivity]).
  destruct Hr as (c & events & Hr & Hc & Hn). exists c, events.
  assert (Hcl : exists a,
             paymentToBalanceActivities "mainnet" sampleLedger "rBob"
               (txPayment (paymentAt "111" "rBob" "rCarol" 111 0)) = (Ok (Some a), []) /\
             externalId a = "111")
    by (eexists; split; vm_compute; reflexivity).
  destruct Hcl as (a & Hcl & Hid). exists a.
  split; [exact Hr|]. split; [exact Hid|].
  pose proof (retrieveBalanceActivities_complete "mainnet" sampleLedger anyAddress
                retainedLedgers pagedServer acceptAll 5 "rBob" noBounds c events
                {| resolvedFrom := Some 50%Z; resolvedTo := Some 500%Z |} [] 1
                (getTransactionOptions (Some 50%Z) (Some 500%Z) (lastOf (fullPage 100)))
                _ Hr Hc ltac:(vm_compute; reflexivity) Hn
                ltac:(vm_compute; reflexivity)) as Hall.
  rewrite List.Forall_forall in Hall.
  apply (Hall (paymentAt "111" "rBob" "rCarol" 111 0)) with (logs' := []).
  - right. right. left. reflexivity.
  - reflexivity.
  - intros l Hl. vm_compute in Hl. injection Hl as <-. vm_compute. discriminate.
  - intros f [= <-]. vm_compute. discriminate.
  - intros t [= <-]. vm_compute. discriminate.
  - exact Hcl.
Defined.


(** The second answer of the server is short. *)
Lemma retrieveBalanceActivities_ends_at_short_page_witness :
  exists c events,
    retrieve acceptAll 5 noBounds = (c, events) /\
    c <> OutOfFuel /\ (List.length (requestsOf events) <= 2)%nat.
Proof.
  eexists. eexists. split; [vm_compute; reflexivity|].
  apply (retrieveBalanceActivities_ends_at_short_page "mainnet" sampleLedger anyAddress
           retainedLedgers pagedServer acceptAll 5 1 "rBob" noBounds).
  - lia.
  - intros o txs H. unfold pagedServer in H.
    destruct (cursor o); injection H as <-; simpl; lia.
  - vm_compute. reflexivity.
Defined.

(** The callback fails at the payment [104]. *)
Lemma retrieveBalanceActivities_callback_error_aborts_witness :
  exists c events a e,
    retrieve (rejectId "104") 5 noBounds = (c, events) /\
    externalId a = "104" /\ rejectId "104" a = Throw e /\
    c = Threw e /\ exists pre, events = (pre ++ [CalledBack a])%list.
Proof.
  assert (Hr : exists c events a e,
             retrieve (rejectId "104") 5 noBounds = (c, events) /\
             externalId a = "104" /\ rejectId "104" a = Throw e /\
             In a (deliveredOf events)).
  { do 4 eexists. split; [vm_compute; reflexivity|].
    assert (H : forall (P Q R : Prop), R -> (R -> P /\ Q) -> P /\ Q /\ R) by tauto.
    apply H.
    - vm_compute. do 4 right. left. reflexivity.
    - intros _. split; vm_compute; reflexivity. }
  destruct Hr as (c & events & a & e & Hr & Hid & Hcb & Hin).
  exists c, events, a, e. split; [exact Hr|]. split; [exact Hid|]. split; [exact Hcb|].
  exact (retrieveBalanceActivities_callback_error_aborts "mainnet" sampleLedger anyAddress
           retainedLedgers pagedServer (rejectId "104") 5 "rBob" noBounds c events a e
           Hr Hin Hcb).
Defined.

End RippleScanFacts.

(** ** The ledger window and the order of activity sequences *)

Module RippleOrderFacts.
Import Ripple RippleFacts.
Local Open Scope string_scope.

(** X21.  Whatever range the server reports, the resolved window lies
    within the requested one, where a requested bound is the number
    given or the [confirmationNumber] of the record given: a requested
    bound is used as it is or replaced by a server bound further in; a
    bound that is not requested is the server's, [NaN] when that does
    not parse; and against a server bound that does not parse the
    requested bound is used without a warning. *)
Theorem resolveFromToLedgers_within_request (info : ServerInfo) (options : Options) :
  let pieces := splitOn "-" (completeLedgers info) in
  let serverFrom := parseInt (nth_error pieces 0) in
  let serverTo := parseInt (nth_error pieces 1) in
  let wanted (bound : option LedgerRef) :=
    match bound with
    | None => None
    | Some (RefNumber n) => Some n
    | Some (RefActivity record) => Some (confirmationNumber record)
    end in
  exists w logs,
    resolveFromToLedgers (Ok info) options = (Ok w, logs) /\
    match wanted (from options) with
    | Some r => exists x, resolvedFrom w = Some x /\ (r <= x)%Z /\
                          (x = r \/ serverFrom = Some x)
    | None => resolvedFrom w = serverFrom
    end /\
    match wanted (to options) with
    | Some r => exists x, resolvedTo w = Some x /\ (x <= r)%Z /\
                          (x = r \/ serverTo = Some x)
    | None => resolvedTo w = serverTo
    end /\
    (serverFrom = None -> serverTo = None -> logs = []).
Proof.
  cbv zeta beta. unfold resolveFromToLedgers, requested.
  destruct (from options) as [[nf|af]|];
    destruct (to options) as [[nt|at']|];
    destruct (parseInt (nth_error (splitOn "-" (completeLedgers info)) 0)) as [sf|];
    destruct (parseInt (nth_error (splitOn "-" (completeLedgers info)) 1)) as [st|];
    simpl;
    repeat match goal with
           | |- context [(?a <? ?b)%Z] => destruct (Z.ltb_spec a b)
           | |- context [(?a >? ?b)%Z] => destruct (Z.gtb_spec a b)
           end;
    eexists; eexists; (split; [reflexivity|]); simpl;
    repeat split; try discriminate; try reflexivity;
    try (eexists; split; [reflexivity|]; split; [lia|]; tauto).
Qed.

(** A range written with white space is read as the numbers it holds,
    and a record counts by its [confirmationNumber]. *)
Example resolveFromToLedgers_reads_spaced_range :
  resolveFromToLedgers (Ok {| completeLedgers := " 1000- 2000" |})
    {| from := Some (RefNumber 500); to := Some (RefActivity (activityConfirmedAt 1500)) |}
  = (Ok {| resolvedFrom := Some 1000%Z; resolvedTo := Some 1500%Z |},
     [LogWarn "Server balance activity doesn't go back to ledger 500, using 1000 instead"]).
Proof. vm_compute. reflexivity. Qed.

(** *** Strings of decimal digits *)

Local Abbreviation isDigits s :=
  (Forall (fun c => digitOf c <> None) (list_ascii_of_string s)).

Lemma digitOf_Some (c : ascii) (d : Z) :
  digitOf c = Some d -> (0 <= d <= 9)%Z /\ Z.of_N (N_of_ascii c) = (d + 48)%Z.
Proof.
  unfold digitOf.
  destruct ((48 <=? Z.of_N (N_of_ascii c))%Z && (Z.of_N (N_of_ascii c) <=? 57)%Z) eqn:E;
    [|discriminate].
  intros [= <-]. apply andb_true_iff in E. lia.
Qed.

Lemma ascii_compare_digits (c1 c2 : ascii) (d1 d2 : Z) :
  digitOf c1 = Some d1 -> digitOf c2 = Some d2 ->
  Ascii.compare c1 c2 = Z.compare d1 d2.
Proof.
  intros H1 H2. apply digitOf_Some in H1, H2. unfold Ascii.compare.
  destruct (N.compare_spec (N_of_ascii c1) (N_of_ascii c2));
    destruct (Z.compare_spec d1 d2); try reflexivity; lia.
Qed.

Lemma parseDigits_positional (s : string) :
  isDigits s ->
  exists v, (0 <= v < 10 ^ Z.of_nat (String.length s))%Z /\
            forall acc, parseDigits (Some acc) s
                        = Some (acc * 10 ^ Z.of_nat (String.length s) + v)%Z.
Proof.
  induction s as [|c s IH]; intros H.
  - exists 0%Z. split; [simpl; lia|]. intros acc. simpl. f_equal. lia.
  - simpl in H. inversion H as [|? ? Hc Hs]; subst.
    destruct (digitOf c) as [d|] eqn:Ed; [|contradiction].
    destruct (IH Hs) as (v & Hv & Hp).
    pose proof (digitOf_Some _ _ Ed) as [Hd _].
    exists (d * 10 ^ Z.of_nat (String.length s) + v)%Z.
    cbn [String.length]. rewrite Nat2Z.inj_succ, Z.pow_succ_r by lia. split; [nia|].
    intros acc. cbn [parseDigits]. rewrite Ed, Hp. f_equal. lia.
Qed.

Lemma compare_digit_strings (s1 : string) :
  forall s2 v1 v2,
    isDigits s1 -> isDigits s2 -> String.length s1 = String.length s2 ->
    parseDigits (Some 0%Z) s1 = Some v1 -> parseDigits (Some 0%Z) s2 = Some v2 ->
    String.compare s1 s2 = Z.compare v1 v2.
Proof.
  induction s1 as [|c1 t1 IH]; intros [|c2 t2] v1 v2 H1 H2 Hlen Hv1 Hv2;
    try discriminate.
  - simpl in Hv1, Hv2. injection Hv1 as <-. injection Hv2 as <-. reflexivity.
  - simpl in H1, H2. inversion H1 as [|? ? Hc1 Ht1]; subst.
    inversion H2 as [|? ? Hc2 Ht2]; subst.
    destruct (digitOf c1) as [d1|] eqn:Ed1; [|contradiction].
    destruct (digitOf c2) as [d2|] eqn:Ed2; [|contradiction].
    destruct (parseDigits_positional t1 Ht1) as (r1 & Hr1 & Hp1).
    destruct (parseDigits_positional t2 Ht2) as (r2 & Hr2 & Hp2).
    cbn [parseDigits] in Hv1, Hv2. rewrite Ed1, Hp1 in Hv1. rewrite Ed2, Hp2 in Hv2.
    injection Hv1 as <-. injection Hv2 as <-.
    injection Hlen as Hlen. rewrite <- Hlen in *.
    set (P := (10 ^ Z.of_nat (String.length t1))%Z) in *.
    pose proof (digitOf_Some _ _ Ed1) as [Hd1 _].
    pose proof (digitOf_Some _ _ Ed2) as [Hd2 _].
    cbn [String.compare]. rewrite (ascii_compare_digits _ _ _ _ Ed1 Ed2).
    destruct (Z.compare_spec d1 d2) as [->|Hlt|Hgt].
    + rewrite (IH t2 r1 r2 Ht1 Ht2 Hlen).
      * destruct (Z.compare_spec r1 r2);
          destruct (Z.compare_spec ((10 * 0 + d2) * P + r1) ((10 * 0 + d2) * P + r2));
          try reflexivity; lia.
      * rewrite Hp1; f_equal; lia.
      * rewrite Hp2; f_equal; lia.
    + symmetry. apply Z.compare_lt_iff. nia.
    + symmetry. apply Z.compare_gt_iff. nia.
Qed.

Lemma isDigits_uint (d : Decimal.uint) : isDigits (NilEmpty.string_of_uint d).
Proof.
  induction d; simpl; constructor; try assumption; discriminate.
Qed.

Lemma string_of_uint_length (d : Decimal.uint) :
  String.length (NilEmpty.string_of_uint d) = Decimal.nb_digits d.
Proof. induction d; simpl; congruence. Qed.

Lemma isDigits_pad (k : nat) (s : string) :
  isDigits s -> isDigits (replicate k "0" ++ s).
Proof.
  intros H. induction k as [|k IH]; simpl; [exact H|].
  change (String "0" (replicate k "0") ++ s) with (String "0" (replicate k "0" ++ s)).
  simpl. constructor; [discriminate | exact IH].
Qed.

Lemma parseDigits_pad (k : nat) (s : string) :
  parseDigits (Some 0%Z) (replicate k "0" ++ s) = parseDigits (Some 0%Z) s.
Proof.
  induction k as [|k IH]; simpl; [reflexivity|].
  change (String "0" (replicate k "0") ++ s) with (String "0" (replicate k "0" ++ s)).
  cbn [parseDigits]. exact IH.
Qed.

Lemma parseDigits_stringOfNumber (n : Z) :
  (0 <= n)%Z ->
  isDigits (stringOfNumber n) /\ parseDigits (Some 0%Z) (stringOfNumber n) = Some n.
Proof.
  intros Hn. destruct (stringOfNumber_nonneg n Hn) as (d & Hd & -> & <-).
  split; [apply isDigits_uint|].
  rewrite <- (append_empty_r (NilEmpty.string_of_uint d)) at 1.
  rewrite parseDigits_zero. reflexivity.
Qed.

(** A positive number prints without a leading zero. *)
Lemma to_uint_nzhead (p : positive) : Decimal.nzhead (Pos.to_uint p) = Pos.to_uint p.
Proof.
  pose proof (DecimalPos.Unsigned.to_of (Pos.to_uint p)) as H.
  rewrite DecimalPos.Unsigned.of_to in H. simpl in H.
  pose proof (DecimalPos.Unsigned.to_uint_nonzero p) as Hnz.
  unfold Decimal.unorm in H.
  destruct (Decimal.nzhead (Pos.to_uint p)); congruence.
Qed.

Lemma to_uint_head (p : positive) :
  exists c t d, NilEmpty.string_of_uint (Pos.to_uint p) = String c t /\
                digitOf c = Some d /\ (1 <= d)%Z.
Proof.
  pose proof (to_uint_nzhead p) as Hhead.
  pose proof (DecimalPos.Unsigned.to_uint_nonnil p) as Hnn.
  destruct (Pos.to_uint p) as [|d|d|d|d|d|d|d|d|d|d]; [contradiction| |..].
  - exfalso. simpl in Hhead. pose proof (DecimalFacts.nb_digits_nzhead d) as Hnb.
    rewrite Hhead in Hnb. simpl in Hnb. lia.
  - simpl. do 3 eexists. split; [reflexivity|]. split; [reflexivity | now vm_compute].
  - simpl. do 3 eexists. split; [reflexivity|]. split; [reflexivity | now vm_compute].
  - simpl. do 3 eexists. split; [reflexivity|]. split; [reflexivity | now vm_compute].
  - simpl. do 3 eexists. split; [reflexivity|]. split; [reflexivity | now vm_compute].
  - simpl. do 3 eexists. split; [reflexivity|]. split; [reflexivity | now vm_compute].
  - simpl. do 3 eexists. split; [reflexivity|]. split; [reflexivity | now vm_compute].
  - simpl. do 3 eexists. split; [reflexivity|]. split; [reflexivity | now vm_compute].
  - simpl. do 3 eexists. split; [reflexivity|]. split; [reflexivity | now vm_compute].
  - simpl. do 3 eexists. split; [reflexivity|]. split; [reflexivity | now vm_compute].
Qed.

Lemma stringOfNumber_width (n : Z) (w : nat) :
  (0 <= n < 10 ^ Z.of_nat w)%Z -> (0 < w)%nat ->
  (String.length (stringOfNumber n) <= w)%nat.
Proof.
  intros Hn Hw. destruct n as [|p|p]; [simpl; lia | | lia].
  pose proof (parseDigits_stringOfNumber (Z.pos p) ltac:(lia)) as [Hdig Hval].
  assert (Hs : stringOfNumber (Z.pos p) = NilEmpty.string_of_uint (Pos.to_uint p)).
  { unfold stringOfNumber. simpl.
    pose proof (DecimalPos.Unsigned.to_uint_nonnil p) as Hnn.
    destruct (Pos.to_uint p); try reflexivity. contradiction. }
  rewrite Hs in *. clear Hs.
  destruct (to_uint_head p) as (c & t & d & Heq & Hd & Hd1).
  rewrite Heq in *. simpl in Hdig. inversion Hdig as [|? ? _ Ht]; subst.
  destruct (parseDigits_positional _ Ht) as (r & Hr & Hp).
  cbn [parseDigits] in Hval. rewrite Hd, Hp in Hval. injection Hval as Hval.
  cbn [String.length].
  destruct (Nat.le_gt_cases (S (String.length t)) w) as [Hle|Hgt]; [exact Hle|].
  exfalso.
  assert (10 ^ Z.of_nat w <= 10 ^ Z.of_nat (String.length t))%Z
    by (apply Z.pow_le_mono_r; lia).
  nia.
Qed.

Lemma padLeft_number (n : Z) (w : nat) :
  (0 <= n < 10 ^ Z.of_nat w)%Z -> (0 < w)%nat ->
  isDigits (padLeft (stringOfNumber n) w "0") /\
  String.length (padLeft (stringOfNumber n) w "0") = w /\
  parseDigits (Some 0%Z) (padLeft (stringOfNumber n) w "0") = Some n.
Proof.
  intros Hn Hw. pose proof (stringOfNumber_width n w Hn Hw) as Hlen.
  destruct (parseDigits_stringOfNumber n ltac:(lia)) as [Hdig Hval].
  split; [|split].
  - unfold padLeft. apply isDigits_pad. exact Hdig.
  - rewrite padLeft_length. lia.
  - unfold padLeft. rewrite parseDigits_pad. exact Hval.
Qed.

Lemma padLeft_compare (n1 n2 : Z) (w : nat) :
  (0 <= n1 < 10 ^ Z.of_nat w)%Z -> (0 <= n2 < 10 ^ Z.of_nat w)%Z -> (0 < w)%nat ->
  String.compare (padLeft (stringOfNumber n1) w "0") (padLeft (stringOfNumber n2) w "0")
  = Z.compare n1 n2.
Proof.
  intros H1 H2 Hw.
  destruct (padLeft_number n1 w H1 Hw) as (Hd1 & Hl1 & Hv1).
  destruct (padLeft_number n2 w H2 Hw) as (Hd2 & Hl2 & Hv2).
  apply compare_digit_strings; try assumption. congruence.
Qed.

Lemma compare_app (a1 : string) :
  forall a2 b1 b2,
    String.length a1 = String.length a2 ->
    String.compare (a1 ++ b1) (a2 ++ b2)
    = match String.compare a1 a2 with
      | Eq => String.compare b1 b2
      | c => c
      end.
Proof.
  induction a1 as [|c1 a1 IH]; intros [|c2 a2] b1 b2 Hlen; try discriminate.
  - reflexivity.
  - injection Hlen as Hlen.
    change (String c1 a1 ++ b1) with (String c1 (a1 ++ b1)).
    change (String c2 a2 ++ b2) with (String c2 (a2 ++ b2)).
    cbn [String.compare]. destruct (Ascii.compare c1 c2); [|reflexivity..].
    apply IH. exact Hlen.
Qed.

Section OrderFacts.

Variable thisNetworkType : string.
Variable getLedger : Z -> result JsError Ledger.

(** X22.  For ledger versions below [10^12] and indexes below [10^8]
    the activity sequences of two activities compare, as strings, the
    way the activities compare by ledger version, then by index in the
    ledger, then by direction with the outgoing one first. *)
Theorem activitySequence_sorts_by_ledger_position (addr1 addr2 : string)
    (tx1 tx2 : Payment) (a1 a2 : BalanceActivity) (logs1 logs2 : list LogEntry) :
  paymentToBalanceActivities thisNetworkType getLedger addr1 tx1 = (Ok (Some a1), logs1) ->
  paymentToBalanceActivities thisNetworkType getLedger addr2 tx2 = (Ok (Some a2), logs2) ->
  (0 <= ledgerVersion (outcome tx1) < 10 ^ 12)%Z ->
  (0 <= ledgerVersion (outcome tx2) < 10 ^ 12)%Z ->
  (0 <= indexInLedger (outcome tx1) < 10 ^ 8)%Z ->
  (0 <= indexInLedger (outcome tx2) < 10 ^ 8)%Z ->
  String.compare (activitySequence a1) (activitySequence a2)
  = match Z.compare (ledgerVersion (outcome tx1)) (ledgerVersion (outcome tx2)) with
    | Eq =>
        match Z.compare (indexInLedger (outcome tx1)) (indexInLedger (outcome tx2)) with
        | Eq =>
            match type a1, type a2 with
            | ActivityOut, ActivityIn => Lt
            | ActivityIn, ActivityOut => Gt
            | _, _ => Eq
            end
        | c => c
        end
    | c => c
    end.
Proof.
  intros H1 H2 Hl1 Hl2 Hi1 Hi2.
  apply paymentToBalanceActivities_Some in H1, H2.
  destruct H1 as (-> & _). destruct H2 as (-> & _).
  change (10 ^ 12)%Z with (10 ^ Z.of_nat 12)%Z in Hl1, Hl2.
  change (10 ^ 8)%Z with (10 ^ Z.of_nat 8)%Z in Hi1, Hi2.
  destruct (padLeft_number _ 12 Hl1 ltac:(lia)) as (_ & Hlen1 & _).
  destruct (padLeft_number _ 12 Hl2 ltac:(lia)) as (_ & Hlen2 & _).
  destruct (padLeft_number _ 8 Hi1 ltac:(lia)) as (_ & Hlen3 & _).
  destruct (padLeft_number _ 8 Hi2 ltac:(lia)) as (_ & Hlen4 & _).
  rewrite compare_app by congruence.
  rewrite (padLeft_compare _ _ 12 Hl1 Hl2) by lia.
  destruct (Z.compare (ledgerVersion (outcome tx1)) (ledgerVersion (outcome tx2)));
    try reflexivity.
  match goal with
  | |- String.compare ("." ++ ?x) ("." ++ ?y) = _ =>
      change (String.compare ("." ++ x) ("." ++ y)) with (String.compare x y)
  end.
  rewrite compare_app by congruence.
  rewrite (padLeft_compare _ _ 8 Hi1 Hi2) by lia.
  destruct (Z.compare (indexInLedger (outcome tx1)) (indexInLedger (outcome tx2)));
    try reflexivity.
  destruct (type a1), (type a2); reflexivity.
Qed.

End OrderFacts.

(** A payment in ledger 999 sorts before the sample payment of ledger
    1234567, though ["999"] sorts after ["1234567"]. *)
Lemma activitySequence_sorts_by_ledger_position_witness :
  exists a1 a2,
    fst (paymentToBalanceActivities "mainnet" sampleLedger "rBob"
           (RippleScan.txPayment (RippleScan.paymentAt "F00D" "rBob" "rCarol" 999 0)))
      = Ok (Some a1) /\
    fst (paymentToBalanceActivities "mainnet" sampleLedger "rBob" samplePayment)
      = Ok (Some a2) /\
    String.compare (activitySequence a1) (activitySequence a2) = Lt /\
    String.compare (stringOfNumber 999) (stringOfNumber 1234567) = Gt.
Proof.
  assert (H1 : exists a1,
             paymentToBalanceActivities "mainnet" sampleLedger "rBob"
               (RippleScan.txPayment (RippleScan.paymentAt "F00D" "rBob" "rCarol" 999 0))
             = (Ok (Some a1), []))
    by (eexists; vm_compute; reflexivity).
  assert (H2 : exists a2,
             paymentToBalanceActivities "mainnet" sampleLedger "rBob" samplePayment
             = (Ok (Some a2), []))
    by (eexists; vm_compute; reflexivity).
  destruct H1 as [a1 H1]. destruct H2 as [a2 H2]. exists a1, a2.
  split; [rewrite H1; reflexivity|]. split; [rewrite H2; reflexivity|].
  split; [|vm_compute; reflexivity].
  rewrite (activitySequence_sorts_by_ledger_position "mainnet" sampleLedger
             "rBob" "rBob" _ _ a1 a2 [] [] H1 H2
             ltac:(vm_compute; split; [discriminate | reflexivity])
             ltac:(vm_compute; split; [discriminate | reflexivity])
             ltac:(vm_compute; split; [discriminate | reflexivity])
             ltac:(vm_compute; split; [discriminate | reflexivity])).
  reflexivity.
Defined.

End RippleOrderFacts.

(** ** More on [broadcastTransaction] *)

Module BroadcastMore.
Import Broadcast.
Local Open Scope string_scope.

(** X23.  [broadcastTransaction] logs a warning exactly when the node
    returned a txid other than [tx.id], and never when the node threw;
    an error that carries no message is thrown on. *)
Theorem broadcastTransaction_warns_only_on_mismatch (coinSymbol : string)
    (sendTx : string -> result JsError string) (tx : SignedTransaction) :
  (snd (broadcastTransaction coinSymbol sendTx tx) <> [] <->
   exists txId, sendTx (hex tx) = Ok txId /\ txId <> id tx) /\
  (forall e, sendTx (hex tx) = Throw e -> message e = None ->
     broadcastTransaction coinSymbol sendTx tx = (Throw e, [])).
Proof.
  unfold broadcastTransaction. split.
  - destruct (sendTx (hex tx)) as [txId|e].
    + destruct (String.eqb_spec (id tx) txId) as [E|E]; simpl.
      * split; [congruence|]. intros (t & [= <-] & Hne). congruence.
      * split; [|discriminate]. intros _. exists txId. split; [reflexivity | congruence].
    + destruct (String.prefix "-27" (messageOr e)); simpl;
        (split; [congruence | intros (t & Ht & _); discriminate]).
  - intros e -> Hm. unfold messageOr. rewrite Hm. reflexivity.
Qed.

End BroadcastMore.
